(** * Deep-research plugin: URL normalisation, merge, ranking, parallel
      execution, formatters and the mass-summary fallback

    A shallow embedding of the TypeScript sources of
    [packages/deep-research] (utils/dedup.ts, utils/parallel.ts,
    utils/formatters.ts, tools/mass-summary.ts) together with the
    properties stated about them.

    Conventions of the embedding.
    - JavaScript strings are modelled by [string]; the model is exact on
      ASCII text ([toLowerCase] only folds [A-Z]).
    - JavaScript numbers that index or count are [Z] or [nat]; the
      relevance score, a finite double in the source, is held as the
      rational number it denotes, and the additions that produce it
      round as the additions of the source do ([Double.add]).
    - A promise is modelled by the instant at which it settles and the
      way it settles; a value that is thrown is modelled by what the
      handlers of the source read from it (its message or its string
      rendering). *)

From Stdlib Require Import List Bool Arith ZArith QArith Lia String Ascii.
From Stdlib Require Import Permutation Sorted DecimalString.
Import ListNotations.

Local Open Scope string_scope.

(* ===================================================================== *)
(** * JavaScript string primitives                                        *)
(* ===================================================================== *)

Module Js.

Definition chars (s : string) : list ascii := list_ascii_of_string s.
Definition str (l : list ascii) : string := string_of_list_ascii l.

Definition code (c : ascii) : nat := nat_of_ascii c.

Definition is_upper (c : ascii) : bool := (65 <=? code c)%nat && (code c <=? 90)%nat.
Definition is_lower (c : ascii) : bool := (97 <=? code c)%nat && (code c <=? 122)%nat.
Definition is_alpha (c : ascii) : bool := is_upper c || is_lower c.
Definition is_digit (c : ascii) : bool := (48 <=? code c)%nat && (code c <=? 57)%nat.

Definition lower_char (c : ascii) : ascii :=
  if is_upper c then ascii_of_nat (code c + 32) else c.

(** [s.toLowerCase()] *)
Fixpoint toLowerCase (s : string) : string :=
  match s with
  | EmptyString => EmptyString
  | String c r => String (lower_char c) (toLowerCase r)
  end.

(** [s.replace(/^p/, "")] for a literal pattern [p]. *)
Fixpoint strip_prefix (p s : string) : option string :=
  match p, s with
  | EmptyString, _ => Some s
  | String a p', String b s' => if Ascii.eqb a b then strip_prefix p' s' else None
  | String _ _, EmptyString => None
  end.

Definition replace_prefix (p s : string) : string :=
  match strip_prefix p s with Some r => r | None => s end.

(** [s.replace(/^https?:\/\//, "")]: the optional [s] makes the regular
    expression match the longer literal when both could start. *)
Definition replace_scheme (s : string) : string :=
  match strip_prefix "https://" s with
  | Some r => r
  | None => replace_prefix "http://" s
  end.

(** [s.replace(/\/+$/, "")] *)
Fixpoint strip_trailing_slashes (s : string) : string :=
  match s with
  | EmptyString => EmptyString
  | String c r =>
      match strip_trailing_slashes r with
      | EmptyString => if Ascii.eqb c "/" then EmptyString else String c EmptyString
      | r' => String c r'
      end
  end.

(** [s.slice(0, n)] for a literal [n >= 0]. *)
Definition slice0 (n : N) (s : string) : string := substring 0 (N.to_nat n) s.

(** [s.includes(t)] *)
Fixpoint includes (s t : string) : bool :=
  if prefix t s then true
  else match s with
       | EmptyString => false
       | String _ r => includes r t
       end.

(** [xs.join(sep)] *)
Definition join (sep : string) (xs : list string) : string := concat sep xs.

(** Truthiness of a string: [!!s]. *)
Definition truthy (s : string) : bool :=
  match s with EmptyString => false | _ => true end.

(** [a || b] on strings. *)
Definition or_else (a b : string) : string := if truthy a then a else b.

(** Decimal rendering of a non-negative integer, as in a template
    literal. *)
Definition show_nat (n : nat) : string := NilZero.string_of_uint (Nat.to_uint n).

(** Decimal rendering of an integer. *)
Definition show_Z (z : Z) : string := NilZero.string_of_int (Z.to_int z).

(** [xs.slice(0, e)] on arrays: a negative end counts from the back. *)
Definition slice_to {A} (e : Z) (xs : list A) : list A :=
  let len := Z.of_nat (List.length xs) in
  let k := if (e <? 0)%Z then Z.max (len + e) 0 else Z.min e len in
  firstn (Z.to_nat k) xs.

(** [xs.slice(s, e)] on arrays, both bounds relative when negative. *)
Definition slice {A} (s e : Z) (xs : list A) : list A :=
  let len := Z.of_nat (List.length xs) in
  let rel z := if (z <? 0)%Z then Z.max (len + z) 0 else Z.min z len in
  let k := rel s in
  let final := rel e in
  firstn (Z.to_nat (Z.max (final - k) 0)) (skipn (Z.to_nat k) xs).

End Js.

(* ===================================================================== *)
(** * The platform's URL parser                                           *)
(* ===================================================================== *)

(** What [normalizeUrl] reads from a [URL] object, with the two
    components it leaves out. *)
Record URL : Type := mkURL {
  scheme   : string;
  hostname : string;
  pathname : string;
  search   : string;
  hash     : string
}.

(** [new URL(s)] is not code of the plugin.  The general theorems below
    are stated for an arbitrary parser; this module gives a concrete one
    to evaluate the code on concrete inputs.  It follows the states of
    the WHATWG basic URL parser, called without a base URL, on ASCII
    input.  Three kinds of input are left [Unmodelled] instead of being
    given a made-up answer: the [file] scheme, hosts that are IPv6
    literals or end in a number (IPv4), and hosts that need percent
    decoding or Punycode.  Credentials and the port are checked and
    then dropped, as [normalizeUrl] never reads them; a space inside an
    opaque path is kept as it is. *)
Module Whatwg.
Import Js.

Inductive outcome : Type :=
| Parsed (u : URL)
| Failure
| Unmodelled.

Definition is_char (a b : ascii) : bool := Ascii.eqb a b.

Definition c0_or_space (c : ascii) : bool := (code c <=? 32)%nat.
Definition tab_or_newline (c : ascii) : bool :=
  (code c =? 9)%nat || (code c =? 10)%nat || (code c =? 13)%nat.

Fixpoint drop_while {A} (p : A -> bool) (l : list A) : list A :=
  match l with
  | [] => []
  | x :: r => if p x then drop_while p r else l
  end.

Fixpoint span {A} (p : A -> bool) (l : list A) : list A * list A :=
  match l with
  | [] => ([], [])
  | x :: r => if p x then let (a, b) := span p r in (x :: a, b) else ([], l)
  end.

(** Leading and trailing C0 controls and spaces are removed, then every
    tab and newline. *)
Definition preprocess (l : list ascii) : list ascii :=
  let trimmed := rev (drop_while c0_or_space (rev (drop_while c0_or_space l))) in
  filter (fun c => negb (tab_or_newline c)) trimmed.

(** ** Scheme start state, scheme state, no scheme state *)

Definition scheme_char (c : ascii) : bool :=
  is_alpha c || is_digit c || is_char c "+" || is_char c "-" || is_char c ".".

(** [None] is the no scheme state, which fails without a base URL. *)
Definition split_scheme (l : list ascii) : option (string * list ascii) :=
  match l with
  | c :: _ =>
      if is_alpha c then
        let (s, r) := span scheme_char l in
        match r with
        | ":"%char :: r' => Some (toLowerCase (str s), r')
        | _ => None
        end
      else None
  | [] => None
  end.

Definition is_special (s : string) : bool :=
  String.eqb s "ftp" || String.eqb s "file" || String.eqb s "http"
  || String.eqb s "https" || String.eqb s "ws" || String.eqb s "wss".

(** ** Percent encoding *)

Definition hex_digit (n : nat) : ascii :=
  if (n <? 10)%nat then ascii_of_nat (48 + n) else ascii_of_nat (55 + n).

Definition percent_byte (c : ascii) : list ascii :=
  ["%"%char; hex_digit (code c / 16); hex_digit (code c mod 16)].

Definition in_c0_set (c : ascii) : bool := (code c <? 32)%nat || (126 <? code c)%nat.
Definition in_fragment_set (c : ascii) : bool :=
  in_c0_set c || is_char c " " || (code c =? 34)%nat || is_char c "<" || is_char c ">" || is_char c "`".
Definition in_query_set (c : ascii) : bool :=
  in_c0_set c || is_char c " " || (code c =? 34)%nat || is_char c "#" || is_char c "<" || is_char c ">".
Definition in_special_query_set (c : ascii) : bool := in_query_set c || is_char c "'".
Definition in_path_set (c : ascii) : bool :=
  in_query_set c || is_char c "?" || is_char c "^" || is_char c "`" || is_char c "{" || is_char c "}".

Definition encode (set : ascii -> bool) (l : list ascii) : list ascii :=
  flat_map (fun c => if set c then percent_byte c else [c]) l.

(** ** Host parsing *)

Definition forbidden_host (c : ascii) : bool :=
  (code c =? 0)%nat || tab_or_newline c || is_char c " " || is_char c "#" || is_char c "/"
  || is_char c ":" || is_char c "<" || is_char c ">" || is_char c "?" || is_char c "@"
  || is_char c "[" || is_char c "\" || is_char c "]" || is_char c "^" || is_char c "|".

Definition forbidden_domain (c : ascii) : bool :=
  forbidden_host c || (code c <=? 31)%nat || is_char c "%" || (code c =? 127)%nat.

(** The labels of a domain, split at dots. *)
Fixpoint labels (l : list ascii) (cur : list ascii) : list (list ascii) :=
  match l with
  | [] => [rev cur]
  | c :: r => if is_char c "." then rev cur :: labels r [] else labels r (c :: cur)
  end.

Definition is_hex_char (c : ascii) : bool :=
  is_digit c || ((65 <=? code c)%nat && (code c <=? 70)%nat)
  || ((97 <=? code c)%nat && (code c <=? 102)%nat).

(** The last label, a trailing empty one dropped, is a decimal number
    or starts like a hexadecimal one: the host goes to the IPv4
    parser. *)
Definition numeric_label (lab : list ascii) : bool :=
  match lab with
  | [] => false
  | "0"%char :: x :: r =>
      if is_char (lower_char x) "x" then forallb is_hex_char r
      else forallb is_digit lab
  | _ => forallb is_digit lab
  end.

Definition ends_in_number (l : list ascii) : bool :=
  match rev (labels l []) with
  | [] => false
  | [] :: [] => false
  | [] :: lab :: _ => numeric_label lab
  | lab :: _ => numeric_label lab
  end.

Definition punycode_label (lab : list ascii) : bool :=
  prefix "xn--" (toLowerCase (str lab)).

Inductive host_result : Type :=
| Host (h : string)
| HostFailure
| HostUnmodelled.

Definition starts_with_bracket (l : list ascii) : bool :=
  match l with c :: _ => is_char c "[" | [] => false end.

Definition parse_domain (l : list ascii) : host_result :=
  if starts_with_bracket l then HostUnmodelled
  else if existsb (fun c => is_char c "%" || (127 <? code c)%nat) l then HostUnmodelled
  else if existsb punycode_label (labels l []) then HostUnmodelled
  else if existsb forbidden_domain l then HostFailure
  else if ends_in_number l then HostUnmodelled
  else Host (toLowerCase (str l)).

Definition parse_opaque_host (l : list ascii) : host_result :=
  if starts_with_bracket l then HostUnmodelled
  else if existsb forbidden_host l then HostFailure
  else Host (str (encode in_c0_set l)).

Definition parse_host (special : bool) (l : list ascii) : host_result :=
  if special then parse_domain l else parse_opaque_host l.

(** ** Authority state, host state, port state *)

Definition ends_authority (special : bool) (c : ascii) : bool :=
  is_char c "/" || is_char c "?" || is_char c "#" || (special && is_char c "\").

(** What follows the last [@] of the authority, and whether there was
    one: everything before it is credentials. *)
Fixpoint after_last_at (l : list ascii) (cur : list ascii) (seen : bool)
  : list ascii * bool :=
  match l with
  | [] => (rev cur, seen)
  | c :: r => if is_char c "@" then after_last_at r [] true
              else after_last_at r (c :: cur) seen
  end.

(** The host buffer runs up to the first colon outside brackets. *)
Fixpoint split_host (l : list ascii) (cur : list ascii) (inside : bool)
  : list ascii * option (list ascii) :=
  match l with
  | [] => (rev cur, None)
  | c :: r =>
      if is_char c ":" && negb inside then (rev cur, Some r)
      else split_host r (c :: cur)
             (if is_char c "[" then true else if is_char c "]" then false else inside)
  end.

Fixpoint decimal (l : list ascii) (acc : N) : N :=
  match l with
  | [] => acc
  | c :: r => decimal r (acc * 10 + N.of_nat (code c - 48))%N
  end.

Definition port_ok (l : list ascii) : bool :=
  forallb is_digit l && (decimal l 0 <=? 65535)%N.

Definition parse_authority (special : bool) (auth : list ascii) : host_result :=
  let (hostport, seen) := after_last_at auth [] false in
  match hostport, seen with
  | [], true => HostFailure
  | _, _ =>
      match split_host hostport [] false with
      | (buf, Some port) =>
          match buf with
          | [] => HostFailure
          | _ =>
              match parse_host special buf with
              | Host h => if port_ok port then Host h else HostFailure
              | r => r
              end
          end
      | (buf, None) =>
          match buf, special with
          | [], true => HostFailure
          | _, _ => parse_host special buf
          end
      end
  end.

(** ** Path start state and path state *)

Definition single_dot (buf : string) : bool :=
  let b := toLowerCase buf in String.eqb b "." || String.eqb b "%2e".

Definition double_dot (buf : string) : bool :=
  let b := toLowerCase buf in
  String.eqb b ".." || String.eqb b ".%2e" || String.eqb b "%2e." || String.eqb b "%2e%2e".

Definition shorten (path : list string) : list string := removelast path.

(** A segment is complete; [slash] tells whether a slash ended it. *)
Definition segment_done (buf : string) (slash : bool) (path : list string) : list string :=
  if double_dot buf then
    (if slash then shorten path else shorten path ++ [""])
  else if single_dot buf then
    (if slash then path else path ++ [""])
  else path ++ [buf].

Fixpoint path_state (special : bool) (l : list ascii) (buf : list ascii)
                    (path : list string) : list string * list ascii :=
  match l with
  | [] => (segment_done (str (rev buf)) false path, [])
  | c :: r =>
      if is_char c "/" || (special && is_char c "\") then
        path_state special r [] (segment_done (str (rev buf)) true path)
      else if is_char c "?" || is_char c "#" then
        (segment_done (str (rev buf)) false path, l)
      else
        path_state special r
          (rev (if in_path_set c then percent_byte c else [c]) ++ buf) path
  end.

(** The URL path serializer over a list of segments. *)
Definition serialize_path (path : list string) : string :=
  List.fold_right (fun seg acc => "/" ++ seg ++ acc) "" path.

(** ** Query state and fragment state *)

Definition split_query (special : bool) (l : list ascii) : string * string :=
  let not_hash c := negb (is_char c "#") in
  let (q, f) :=
    match l with
    | "?"%char :: r => let (q, f) := span not_hash r in (Some q, f)
    | _ => (None, l)
    end in
  let srch :=
    match q with
    | Some (c :: r) =>
        "?" ++ str (encode (if special then in_special_query_set else in_query_set) (c :: r))
    | _ => ""
    end in
  let hsh :=
    match f with
    | "#"%char :: c :: r => "#" ++ str (encode in_fragment_set (c :: r))
    | _ => ""
    end in
  (srch, hsh).

Definition finish (sch host path : string) (special : bool) (rest : list ascii) : outcome :=
  let (srch, hsh) := split_query special rest in
  Parsed (mkURL sch host path srch hsh).

(** From the path start state on, for a URL with a host. *)
Definition parse_from_path_start (sch host : string) (special : bool)
                                 (rest : list ascii) : outcome :=
  if special then
    let body :=
      match rest with
      | c :: r => if is_char c "/" || is_char c "\" then r else rest
      | [] => rest
      end in
    let (path, tail) := path_state true body [] [] in
    finish sch host (serialize_path path) true tail
  else
    match rest with
    | [] => finish sch host "" false rest
    | c :: r =>
        if is_char c "?" || is_char c "#" then finish sch host "" false rest
        else
          let body := if is_char c "/" then r else rest in
          let (path, tail) := path_state false body [] [] in
          finish sch host (serialize_path path) false tail
    end.

Definition parse_with_authority (sch : string) (special : bool)
                                (l : list ascii) : outcome :=
  let (auth, rest) := span (fun c => negb (ends_authority special c)) l in
  match parse_authority special auth with
  | Host h => parse_from_path_start sch h special rest
  | HostFailure => Failure
  | HostUnmodelled => Unmodelled
  end.

Definition is_slash (c : ascii) : bool := is_char c "/" || is_char c "\".

(** The basic URL parser without a base URL. *)
Definition basic_parse (input : list ascii) : outcome :=
  match split_scheme (preprocess input) with
  | None => Failure
  | Some (sch, rest) =>
      if String.eqb sch "file" then Unmodelled
      else if is_special sch then
        (* special authority slashes, special authority ignore slashes *)
        parse_with_authority sch true (drop_while is_slash rest)
      else
        match rest with
        | "/"%char :: "/"%char :: r => parse_with_authority sch false r
        | "/"%char :: r =>
            (* path or authority state, then path state *)
            let (path, tail) := path_state false r [] [] in
            finish sch "" (serialize_path path) false tail
        | _ =>
            (* opaque path state *)
            let (p, tail) :=
              span (fun c => negb (is_char c "?" || is_char c "#")) rest in
            finish sch "" (str (encode in_c0_set p)) false tail
        end
  end.

Definition parse (s : string) : outcome := basic_parse (chars s).

(** [new URL(s)] inside a [try]: [None] when the constructor throws.
    On unmodelled input the embedding follows the [catch] branch. *)
Definition URL_new (s : string) : option URL :=
  match parse s with
  | Parsed u => Some u
  | Failure | Unmodelled => None
  end.

End Whatwg.

(* ===================================================================== *)
(** * utils/dedup.ts                                                      *)
(* ===================================================================== *)

(** The provider tag, a union of three string literals in the source. *)
Module Source.
Inductive t : Type := exa | firecrawl | perplexity.

Definition eqb (a b : t) : bool :=
  match a, b with
  | exa, exa | firecrawl, firecrawl | perplexity, perplexity => true
  | _, _ => false
  end.

(** The string the tag is at run time. *)
Definition name (s : t) : string :=
  match s with
  | exa => "exa"
  | firecrawl => "firecrawl"
  | perplexity => "perplexity"
  end.
End Source.

Module SearchResult.
Record t : Type := mk {
  url : string;
  title : string;
  snippet : string;
  content : option string;
  publishedDate : option string;
  source : Source.t;
  score : option Q
}.
End SearchResult.

Module MergedResult.
Record t : Type := mk {
  url : string;
  normalizedUrl : string;
  title : string;
  snippet : string;
  content : option string;
  publishedDate : option string;
  sources : list Source.t;
  relevanceScore : Q
}.
End MergedResult.

(** A JavaScript [Map] with string keys: insertion ordered, one entry per
    key.  The values are objects held by reference, so mutating the
    object returned by [get] is [mutate] on the map. *)
Module JsMap.
Section Ops.
Context {V : Type}.

Definition t : Type := list (string * V).

Fixpoint get (m : t) (k : string) : option V :=
  match m with
  | [] => None
  | (k', v) :: r => if String.eqb k' k then Some v else get r k
  end.

Fixpoint mutate (m : t) (k : string) (v : V) : t :=
  match m with
  | [] => []
  | (k', v') :: r =>
      if String.eqb k' k then (k', v) :: r else (k', v') :: mutate r k v
  end.

Definition set (m : t) (k : string) (v : V) : t :=
  match get m k with
  | Some _ => mutate m k v
  | None => (m ++ [(k, v)])%list
  end.

Definition values (m : t) : list V := List.map snd m.
Definition keys (m : t) : list string := List.map fst m.
End Ops.
Arguments t : clear implicits.
End JsMap.

(** The addition of JavaScript numbers, on finite doubles.  A finite
    IEEE 754 double is held as the rational number it denotes; the sum
    of two doubles is their exact sum rounded to the nearest double,
    ties going to the even significand.  Infinities and NaN are not
    modelled: the scores are read from JSON or made by adding 1, and
    adding 1 to a finite double never leaves the finite range. *)
Module Double.
Local Open Scope Z_scope.

(** For [n > 0], the integer [k] with [2^k <= n/d < 2^(k+1)]. *)
Definition floor_log2 (n : Z) (d : positive) : Z :=
  let k := Z.log2 n - Z.log2 (Zpos d) in
  let reached := if 0 <=? k then Zpos d * 2 ^ k <=? n else Zpos d <=? n * 2 ^ (- k) in
  if reached then k else k - 1.

(** The nearest double.  [e] is the exponent of the last place: 52
    binary places below the leading one, and -1074 for the subnormal
    numbers; [m] is the number of units of that place, rounded to the
    nearest integer and to the even one at a tie. *)
Definition round (x : Q) : Q :=
  let q := Qred x in
  let n := Z.abs (Qnum q) in
  let d := Zpos (Qden q) in
  if n =? 0 then 0%Q
  else
    let e := Z.max (floor_log2 n (Qden q) - 52) (-1074) in
    let num := if 0 <=? e then n else n * 2 ^ (- e) in
    let den := if 0 <=? e then d * 2 ^ e else d in
    let f := num / den in
    let r := num mod den in
    let m :=
      if 2 * r <? den then f
      else if den <? 2 * r then f + 1
      else if Z.even f then f else f + 1 in
    let v := if 0 <=? e then inject_Z (m * 2 ^ e) else Qmake m (Z.to_pos (2 ^ (- e))) in
    Qred (if Qnum q <? 0 then Qopp v else v).

(** [a + b] *)
Definition add (a b : Q) : Q := round (a + b)%Q.

(** The rational is a double: rounding leaves it as it is. *)
Definition representable (x : Q) : bool := Qeq_bool (round x) x.

End Double.
Arguments Double.round : simpl never.
Arguments Double.add : simpl never.

Module Dedup.
Import Js.

(** Truthiness of an optional string: present and not empty. *)
Definition truthy_opt (o : option string) : bool :=
  match o with Some s => truthy s | None => false end.

Definition length_opt (o : option string) : nat :=
  match o with Some s => String.length s | None => 0 end.

(** [xs.includes(s)] on a list of provider tags. *)
Definition includes_source (xs : list Source.t) (s : Source.t) : bool :=
  existsb (Source.eqb s) xs.

Section WithParser.
(** [new URL(s)] under [try]: [None] stands for a throw. *)
Variable URL_new : string -> option URL.

Definition normalizeUrl (url : string) : string :=
  match URL_new url with
  | Some u =>
      let host := replace_prefix "www." (hostname u) in
      let path := strip_trailing_slashes (pathname u) in
      toLowerCase (host ++ path)
  | None =>
      strip_trailing_slashes
        (replace_prefix "www." (replace_scheme (toLowerCase url)))
  end.

(** The branch of the loop body taken when the key is already in the
    map: the stored object is updated field by field. *)
Definition absorb (existing : MergedResult.t) (r : SearchResult.t) : MergedResult.t :=
  let new_source := negb (includes_source (MergedResult.sources existing) (SearchResult.source r)) in
  let sources' :=
    if new_source
    then (MergedResult.sources existing ++ [SearchResult.source r])%list
    else MergedResult.sources existing in
  let score' :=
    if new_source
    then Double.add (MergedResult.relevanceScore existing) 1
    else MergedResult.relevanceScore existing in
  let content' :=
    if truthy_opt (SearchResult.content r)
       && (negb (truthy_opt (MergedResult.content existing))
           || (length_opt (MergedResult.content existing)
               <? length_opt (SearchResult.content r))%nat)
    then SearchResult.content r
    else MergedResult.content existing in
  let snippet' :=
    if truthy (SearchResult.snippet r)
       && (String.length (MergedResult.snippet existing)
           <? String.length (SearchResult.snippet r))%nat
    then SearchResult.snippet r
    else MergedResult.snippet existing in
  let date' :=
    if negb (truthy_opt (MergedResult.publishedDate existing))
       && truthy_opt (SearchResult.publishedDate r)
    then SearchResult.publishedDate r
    else MergedResult.publishedDate existing in
  MergedResult.mk (MergedResult.url existing) (MergedResult.normalizedUrl existing)
                  (MergedResult.title existing) snippet' content' date' sources' score'.

(** The object stored for a key that is seen for the first time. *)
Definition seed (key : string) (r : SearchResult.t) : MergedResult.t :=
  MergedResult.mk
    (SearchResult.url r)
    key
    (or_else (SearchResult.title r) (SearchResult.url r))
    (or_else (SearchResult.snippet r) "")
    (SearchResult.content r)
    (SearchResult.publishedDate r)
    [SearchResult.source r]
    (Double.add 1 (match SearchResult.score r with Some s => s | None => 0 end)).

(** One iteration of [for (const r of results)]. *)
Definition merge_step (map : JsMap.t MergedResult.t) (r : SearchResult.t)
  : JsMap.t MergedResult.t :=
  let key := normalizeUrl (SearchResult.url r) in
  match JsMap.get map key with
  | Some existing => JsMap.mutate map key (absorb existing r)
  | None => JsMap.set map key (seed key r)
  end.

Definition merge_loop (results : list SearchResult.t) : JsMap.t MergedResult.t :=
  fold_left merge_step results [].

Definition mergeResults (results : list SearchResult.t) : list MergedResult.t :=
  JsMap.values (merge_loop results).

(** [deduplicateUrls]: the filter callback threads the [seen] set. *)
Fixpoint dedup_filter (seen : list string) (urls : list string) : list string :=
  match urls with
  | [] => []
  | url :: rest =>
      let key := normalizeUrl url in
      if existsb (String.eqb key) seen then dedup_filter seen rest
      else url :: dedup_filter (key :: seen) rest
  end.

Definition deduplicateUrls (urls : list string) : list string :=
  dedup_filter [] urls.

End WithParser.

(** The comparator handed to [Array.prototype.sort]. *)
Definition compareFn (a b : MergedResult.t) : Q :=
  let la := List.length (MergedResult.sources a) in
  let lb := List.length (MergedResult.sources b) in
  if negb (lb =? la)%nat
  then inject_Z (Z.of_nat lb - Z.of_nat la)
  else (MergedResult.relevanceScore b - MergedResult.relevanceScore a)%Q.

(** [Array.prototype.sort(cmp)]: the language requires a stable sort,
    and for a consistent comparator its result does not depend on the
    algorithm.  The model is insertion sort: an element moves behind
    the elements that follow it only while [cmp] is positive. *)
Section Sort.
Context {A : Type} (cmp : A -> A -> Q).

Definition after (a b : A) : bool :=
  match (0 ?= cmp a b)%Q with Lt => true | _ => false end.

Fixpoint insert (x : A) (l : list A) : list A :=
  match l with
  | [] => [x]
  | y :: r => if after x y then y :: insert x r else x :: y :: r
  end.

Definition sort (l : list A) : list A := fold_right insert [] l.
End Sort.

Definition rankByRelevance (results : list MergedResult.t) : list MergedResult.t :=
  sort compareFn results.

End Dedup.

(* ===================================================================== *)
(** * Promises, thrown values and the optional logger                     *)
(* ===================================================================== *)

Module Async.

(** A thrown value, as far as the handlers look at it:
    [e instanceof Error ? e.message : String(e)].  The model covers the
    values for which this expression yields a string: primitives, Error
    objects and ordinary objects. *)
Inductive Thrown : Type :=
| ErrorObject (message : string)
| OtherValue (rendering : string).

Definition describe (e : Thrown) : string :=
  match e with
  | ErrorObject m => m
  | OtherValue s => s
  end.

Inductive Settled (T : Type) : Type :=
| Fulfilled (v : T)
| Rejected (e : Thrown).
Arguments Fulfilled {T} v.
Arguments Rejected {T} e.

(** The promise an async function returns: it settles at some instant
    (milliseconds after the call) or never does. *)
Inductive Promise (T : Type) : Type :=
| Never
| At (t : N) (s : Settled T).
Arguments Never {T}.
Arguments At {T} t s.

Inductive Level : Type := debug | info | warn | error.

(** [Logger]: each of the four methods may be missing. *)
Record Logger : Type := mkLogger {
  has_debug : bool;
  has_info : bool;
  has_warn : bool;
  has_error : bool
}.

Definition has (lg : Logger) (l : Level) : bool :=
  match l with
  | debug => has_debug lg
  | info => has_info lg
  | warn => has_warn lg
  | error => has_error lg
  end.

Definition Trace : Type := list (Level * string).

(** [logger?.level?.(msg)] *)
Definition emit (logger : option Logger) (l : Level) (msg : string) (tr : Trace) : Trace :=
  match logger with
  | Some lg => if has lg l then (tr ++ [(l, msg)])%list else tr
  | None => tr
  end.

(** The two arrays the concurrent branches share. *)
Record State : Type := mkState {
  errors : list string;
  log : Trace
}.

(** A branch [p.catch(handler)] as the scheduler sees it: the instant
    at which [p] settles and, when it rejects, the message its handler
    pushes. *)
Record Event : Type := mkEvent {
  instant : N;
  failure : option string
}.

(** The handler of the source: [errors.push(msg); logger?.l?.(tag + msg)]. *)
Definition react (logger : option Logger) (l : Level) (tag : string)
                 (st : State) (e : Event) : State :=
  match failure e with
  | Some msg => mkState (errors st ++ [msg]) (emit logger l (tag ++ msg) (log st))
  | None => st
  end.

(** Handlers run in the order in which their promises settle; promises
    that settle at the same instant are served in the order of the
    array given to [Promise.all]. *)
Fixpoint enqueue (e : Event) (q : list Event) : list Event :=
  match q with
  | [] => [e]
  | e' :: r => if (instant e' <? instant e)%N then e' :: enqueue e r else e :: q
  end.

Definition in_settle_order (es : list Event) : list Event :=
  fold_right enqueue [] es.

Definition deliver (logger : option Logger) (l : Level) (tag : string)
                   (es : list Event) (st : State) : State :=
  fold_left (react logger l tag) (in_settle_order es) st.

(** What a function that awaits promises does: it completes with a
    value, stays blocked on a promise that never settles, or (in the
    model only) is cut off by the step bound. *)
Inductive Run (A : Type) : Type :=
| Done (a : A)
| Blocked
| OutOfFuel.
Arguments Done {A} a.
Arguments Blocked {A}.
Arguments OutOfFuel {A}.

Definition show_N (n : N) : string := NilZero.string_of_uint (N.to_uint n).

End Async.

(* ===================================================================== *)
(** * utils/parallel.ts                                                   *)
(* ===================================================================== *)

Module Calls.
(** The three call functions, each given by the promise it returns
    when it is invoked. *)
Record t (E F P : Type) : Type := mk {
  exa : Async.Promise E;
  firecrawl : Async.Promise F;
  perplexity : Async.Promise P
}.
Arguments mk {E F P}.
Arguments exa {E F P}.
Arguments firecrawl {E F P}.
Arguments perplexity {E F P}.
End Calls.

Module ParallelResults.
Record t (E F P : Type) : Type := mk {
  exa : option E;
  firecrawl : option F;
  perplexity : option P;
  errors : list string
}.
Arguments mk {E F P}.
Arguments exa {E F P}.
Arguments firecrawl {E F P}.
Arguments perplexity {E F P}.
Arguments errors {E F P}.
End ParallelResults.

Module Parallel.
Import Js Async.

(** [Promise.race([fn(), timer])]: the call wins when it settles
    before the timer fires. *)
Definition safeCall {T} (fn : Promise T) (timeoutMs : N) : N * Settled T :=
  let timeout :=
    (timeoutMs, Rejected (ErrorObject ("Timeout after " ++ show_N timeoutMs ++ "ms"))) in
  match fn with
  | At t s => if (t <? timeoutMs)%N then (t, s) else timeout
  | Never => timeout
  end.

(** [p.catch((e) => { const msg = `[Name] ${...}`; ...; return null; })]:
    the value of the branch and the event its handler contributes. *)
Definition or_null {T} (p : N * Settled T) : Settled (option T) :=
  match snd p with
  | Fulfilled v => Fulfilled (Some v)
  | Rejected _ => Fulfilled None
  end.

Definition on_reject {T} (name : string) (p : N * Settled T) : Event :=
  mkEvent (fst p)
    match snd p with
    | Fulfilled _ => None
    | Rejected e => Some ("[" ++ name ++ "] " ++ describe e)
    end.

(** [Promise.all] over three promises that have settled. *)
Definition all3 {A B C} (a : Settled A) (b : Settled B) (c : Settled C)
  : Settled (A * B * C) :=
  match a, b, c with
  | Fulfilled x, Fulfilled y, Fulfilled z => Fulfilled (x, y, z)
  | Rejected e, _, _ => Rejected e
  | _, Rejected e, _ => Rejected e
  | _, _, Rejected e => Rejected e
  end.

Definition not_null {T} (o : option T) : bool :=
  match o with Some _ => true | None => false end.

Definition parallelServices {E F P} (calls : Calls.t E F P) (logger : option Logger)
  : Settled (ParallelResults.t E F P) * Trace :=
  let st0 := mkState [] (emit logger debug "[parallel] Starting 3 services in parallel..." []) in
  let e := safeCall (Calls.exa calls) 120000 in
  let f := safeCall (Calls.firecrawl calls) 120000 in
  let p := safeCall (Calls.perplexity calls) 180000 in
  let st1 :=
    deliver logger error "[parallel] "
      [on_reject "Exa" e; on_reject "Firecrawl" f; on_reject "Perplexity" p] st0 in
  match all3 (or_null e) (or_null f) (or_null p) with
  | Rejected x => (Rejected x, log st1)
  | Fulfilled (exaResult, firecrawlResult, perplexityResult) =>
      let succeeded :=
        List.length (filter (fun b : bool => b)
          [not_null exaResult; not_null firecrawlResult; not_null perplexityResult]) in
      let failed :=
        match errors st1 with
        | [] => ""
        | _ => ", " ++ show_nat (List.length (errors st1)) ++ " failed"
        end in
      let tr :=
        emit logger info
          ("[parallel] Done — " ++ show_nat succeeded ++ "/3 services succeeded" ++ failed)
          (log st1) in
      (Fulfilled (ParallelResults.mk exaResult firecrawlResult perplexityResult (errors st1)), tr)
  end.

Module Result.
Record t (R : Type) : Type := mk {
  results : list (option R);
  errors : list string
}.
Arguments mk {R}.
Arguments results {R}.
Arguments errors {R}.
End Result.

Section BatchProcess.
Context {T R : Type}.
Variable items : list T.
Variable batchSize : Z.
Variable processor : T -> Promise R.
Variable logger : option Logger.

(** [processor(item).catch(...)] for the items of one batch. *)
Definition slot (p : Promise R) : option R :=
  match p with
  | At _ (Fulfilled v) => Some v
  | _ => None
  end.

Definition settles (p : Promise R) : bool :=
  match p with At _ _ => true | Never => false end.

(** The event of one item of a batch; [pos] is [i + idx]. *)
Definition item_event (pos : Z) (item : T) : list Event :=
  match processor item with
  | At t (Rejected e) =>
      [mkEvent t (Some ("Batch item " ++ show_Z pos ++ ": " ++ describe e))]
  | At t (Fulfilled _) => [mkEvent t None]
  | Never => []
  end.

Fixpoint batch_events (i idx : Z) (batch : list T) : list Event :=
  match batch with
  | [] => []
  | item :: rest => (item_event (i + idx) item ++ batch_events i (idx + 1) rest)%list
  end.

(** [Math.floor(i / batchSize) + 1] inside a template literal. *)
Definition batchNum (i : Z) : string :=
  if (batchSize =? 0)%Z then "NaN" else show_Z (i / batchSize + 1).

(** The [for] loop; [fuel] bounds the number of times the loop
    condition is evaluated. *)
Fixpoint loop (fuel : nat) (i : Z) (results : list (option R)) (st : State)
  : Run (Result.t R * Trace) :=
  match fuel with
  | O => OutOfFuel
  | S fuel' =>
      if (i <? Z.of_nat (List.length items))%Z then
        let batch := slice i (i + batchSize) items in
        let st1 :=
          mkState (errors st)
            (emit logger debug
               ("[batch] Processing batch " ++ batchNum i ++ " ("
                ++ show_nat (List.length batch) ++ " items)") (log st)) in
        if forallb (fun item => settles (processor item)) batch then
          let st2 := deliver logger warn "[batch] " (batch_events i 0 batch) st1 in
          let batchResults := List.map (fun item => slot (processor item)) batch in
          loop fuel' (i + batchSize) (results ++ batchResults) st2
        else Blocked
      else Done (Result.mk results (errors st), log st)
  end.

Definition batchProcess (fuel : nat) : Run (Result.t R * Trace) :=
  loop fuel 0 [] (mkState [] []).

End BatchProcess.

(** [chunk] *)
Fixpoint chunk_loop {T} (arr : list T) (size : Z) (fuel : nat) (i : Z)
                    (chunks : list (list T)) : option (list (list T)) :=
  match fuel with
  | O => None
  | S fuel' =>
      if (i <? Z.of_nat (List.length arr))%Z
      then chunk_loop arr size fuel' (i + size) (chunks ++ [slice i (i + size) arr])
      else Some chunks
  end.

End Parallel.

(** The revision of utils/parallel.ts that tools/mass-summary.ts is
    written against (src/unnamed/part_005): no logger, and
    [batchProcess] returns the bare array and drops the failures. *)
Module Parallel0.
Import Js Async.

Definition parallelServices {E F P} (calls : Calls.t E F P)
  : Settled (ParallelResults.t E F P) :=
  let e := Parallel.safeCall (Calls.exa calls) 120000 in
  let f := Parallel.safeCall (Calls.firecrawl calls) 120000 in
  let p := Parallel.safeCall (Calls.perplexity calls) 180000 in
  let st1 :=
    deliver None error ""
      [Parallel.on_reject "Exa" e; Parallel.on_reject "Firecrawl" f;
       Parallel.on_reject "Perplexity" p] (mkState [] []) in
  match Parallel.all3 (Parallel.or_null e) (Parallel.or_null f) (Parallel.or_null p) with
  | Rejected x => Rejected x
  | Fulfilled (exaResult, firecrawlResult, perplexityResult) =>
      Fulfilled (ParallelResults.mk exaResult firecrawlResult perplexityResult (errors st1))
  end.

Section BatchProcess.
Context {T R : Type}.
Variable items : list T.
Variable batchSize : Z.
Variable processor : T -> Promise R.

Fixpoint loop (fuel : nat) (i : Z) (results : list (option R)) : Run (list (option R)) :=
  match fuel with
  | O => OutOfFuel
  | S fuel' =>
      if (i <? Z.of_nat (List.length items))%Z then
        let batch := slice i (i + batchSize) items in
        if forallb (fun item => Parallel.settles (processor item)) batch then
          let batchResults := List.map (fun item => Parallel.slot (processor item)) batch in
          loop fuel' (i + batchSize) (results ++ batchResults)
        else Blocked
      else Done results
  end.

Definition batchProcess (fuel : nat) : Run (list (option R)) := loop fuel 0 [].
End BatchProcess.

End Parallel0.

(* ===================================================================== *)
(** * utils/formatters.ts                                                 *)
(* ===================================================================== *)

(** The values found in the flat records handed to [formatComparison]. *)
Module JsValue.
Inductive t : Type :=
| undefined
| null
| boolean (b : bool)
| number (z : Z)
| text (s : string).

(** [String(v)] *)
Definition String (v : t) : string :=
  match v with
  | undefined => "undefined"
  | null => "null"
  | boolean true => "true"
  | boolean false => "false"
  | number z => Js.show_Z z
  | text s => s
  end.

Definition truthy (v : t) : bool :=
  match v with
  | undefined | null => false
  | boolean b => b
  | number z => negb (z =? 0)%Z
  | text s => Js.truthy s
  end.

(** [v ?? d] *)
Definition nullish_or (v d : t) : t :=
  match v with
  | undefined | null => d
  | _ => v
  end.

(** A plain object: its own properties in [Object.keys] order. *)
Definition object : Type := list (string * t).

(** [o[k]] *)
Fixpoint prop (o : object) (k : string) : t :=
  match o with
  | [] => undefined
  | (k', v) :: r => if String.eqb k' k then v else prop r k
  end.
End JsValue.

Module Options.
Record t : Type := mk {
  showContent : option bool;
  maxResults : option Z
}.
End Options.

Module SourceRef.
Record t : Type := mk { url : string; title : string }.
End SourceRef.

Module ServiceFlags.
Record t : Type := mk { exa : bool; firecrawl : bool; perplexity : bool }.
End ServiceFlags.

Module Formatters.
Import Js.

Definition nl : string := String (ascii_of_nat 10) EmptyString.

(** [countSources]: the size of the set of all tags. *)
Definition countSources (results : list MergedResult.t) : nat :=
  List.length
    (fold_left
       (fun all r =>
          fold_left
            (fun all s => if Dedup.includes_source all s then all else (all ++ [s])%list)
            (MergedResult.sources r) all)
       results []).

(** The lines pushed for the result at index [i]. *)
Definition result_lines (showContent : bool) (i : nat) (r : MergedResult.t) : list string :=
  let sourcesBadge :=
    join " " (List.map (fun s => "`" ++ Source.name s ++ "`") (MergedResult.sources r)) in
  let datePart :=
    match MergedResult.publishedDate r with
    | Some d => if truthy d then " | " ++ slice0 10 d else ""
    | None => ""
    end in
  let head :=
    [ "### " ++ show_nat (i + 1) ++ ". [" ++ MergedResult.title r ++ "]("
        ++ MergedResult.url r ++ ")";
      "Sources: " ++ sourcesBadge ++ datePart ++ nl ] in
  let quote :=
    if truthy (MergedResult.snippet r)
    then ["> " ++ slice0 500 (MergedResult.snippet r) ++ nl] else [] in
  let details :=
    match MergedResult.content r with
    | Some c =>
        if showContent && truthy c
        then ["<details><summary>Full content</summary>" ++ nl ++ nl
                ++ slice0 5000 c ++ nl ++ nl ++ "</details>" ++ nl]
        else []
    | None => []
    end in
  List.app head (List.app quote details).

Fixpoint each_result (showContent : bool) (i : nat) (items : list MergedResult.t)
  : list string :=
  match items with
  | [] => []
  | r :: rest => (result_lines showContent i r ++ each_result showContent (S i) rest)%list
  end.

Definition formatSearchResults (results : list MergedResult.t) (options : option Options.t)
  : string :=
  let max :=
    match options with
    | Some o =>
        match Options.maxResults o with
        | Some m => m
        | None => Z.of_nat (List.length results)
        end
    | None => Z.of_nat (List.length results)
    end in
  let items := slice_to max results in
  match items with
  | [] => "No results found."
  | _ =>
      let showContent :=
        match options with
        | Some o => match Options.showContent o with Some b => b | None => false end
        | None => false
        end in
      join nl
        (("## Search Results (" ++ show_nat (List.length items) ++ " unique from "
            ++ show_nat (countSources items) ++ " services)" ++ nl)
         :: each_result showContent 0 items)
  end.

Fixpoint each_source (i : nat) (sources : list SourceRef.t) : list string :=
  match sources with
  | [] => []
  | s :: rest =>
      (show_nat (i + 1) ++ ". [" ++ or_else (SourceRef.title s) (SourceRef.url s) ++ "]("
         ++ SourceRef.url s ++ ")")
      :: each_source (S i) rest
  end.

Definition formatSummary (summary : string) (sources : list SourceRef.t) : string :=
  join nl
    (List.app
       ["## Research Summary" ++ nl;
        summary;
        nl ++ "---" ++ nl ++ "## Sources (" ++ show_nat (List.length sources) ++ ")" ++ nl]
       (each_source 0 sources)).

Fixpoint each_item (cols : list string) (i : nat) (items : list JsValue.object)
  : list string :=
  match items with
  | [] => []
  | item :: rest =>
      let values :=
        List.map
          (fun c => slice0 100
                      (JsValue.String (JsValue.nullish_or (JsValue.prop item c) (JsValue.text "-"))))
          cols in
      let source :=
        if JsValue.truthy (JsValue.prop item "url")
        then "[link](" ++ JsValue.String (JsValue.prop item "url") ++ ")"
        else "-" in
      ("| " ++ show_nat (i + 1) ++ " | " ++ join " | " values ++ " | " ++ source ++ " |")
      :: each_item cols (S i) rest
  end.

Definition formatComparison (items : list JsValue.object) (criteria : list string) : string :=
  match items with
  | [] => "No items to compare."
  | first :: _ =>
      let cols :=
        match criteria with
        | _ :: _ => criteria
        | [] =>
            filter (fun k => negb (String.eqb k "url") && negb (String.eqb k "source"))
                   (List.map fst first)
        end in
      join nl
        (List.app
           ["## Comparison (" ++ show_nat (List.length items) ++ " offers)" ++ nl;
            "| # | " ++ join " | " cols ++ " | Source |";
            "|---|" ++ join "|" (List.map (fun _ => "---") cols) ++ "|---|"]
           (each_item cols 0 items))
  end.

Definition formatErrors (errors : list string) : string :=
  match errors with
  | [] => ""
  | _ =>
      join nl
        (List.app
           [nl ++ "---";
            "**WARNING: " ++ show_nat (List.length errors) ++ " service(s) failed:**" ++ nl]
           (List.app (List.map (fun err => "- " ++ err) errors) [""]))
  end.

Definition mark (ok : bool) : string := if ok then "OK" else "FAILED".

Definition formatServiceStatus (services : ServiceFlags.t) : string :=
  "**Services:** Exa: " ++ mark (ServiceFlags.exa services)
    ++ " | Firecrawl: " ++ mark (ServiceFlags.firecrawl services)
    ++ " | Perplexity: " ++ mark (ServiceFlags.perplexity services) ++ nl.

End Formatters.

(** [formatErrors] in the revision of utils/formatters.ts that goes with
    [Parallel0] (src/unnamed/part_005); the other formatters of that
    revision are those above. *)
Module Formatters0.
Import Js.

Definition formatErrors (errors : list string) : string :=
  match errors with
  | [] => ""
  | _ => Formatters.nl ++ "---" ++ Formatters.nl ++ "**Service warnings:** " ++ join "; " errors
  end.
End Formatters0.

(* ===================================================================== *)
(** * The provider clients, at their interface                            *)
(* ===================================================================== *)

(** The clients are opaque collaborators: a method is given by the
    promise it returns for its first argument (the options it receives
    are fixed by the call site and the tool parameters). *)

Module ExaClient.
Record Result : Type := mkResult {
  title : string;
  url : string;
  text : option string;
  summary : option string
}.
(** [search] and [getContents] resolve to a response whose [results]
    field is modelled. *)
Record t : Type := mk {
  search : string -> Async.Promise (list Result);
  getContents : list string -> Async.Promise (list Result)
}.
End ExaClient.

Module FirecrawlClient.
Record Result : Type := mkResult {
  url : string;
  title : option string;
  description : option string;
  summary : option string
}.
(** [search] resolves to a response whose [data] may be missing. *)
Record t : Type := mk {
  search : string -> Async.Promise (option (list Result))
}.
End FirecrawlClient.

Module PerplexityClient.
Record Citation : Type := mkCitation {
  url : string;
  title : option string;
  snippet : option string
}.
Record Answer : Type := mkAnswer {
  text : string;
  citations : list Citation
}.
Record t : Type := mk {
  search : string -> Async.Promise Answer;
  deepResearch : string -> Async.Promise Answer
}.
End PerplexityClient.

(* ===================================================================== *)
(** * tools/mass-summary.ts                                               *)
(* ===================================================================== *)

(** The tool takes no logger and iterates the value of [batchProcess]
    as an array: it is written against the revision of
    utils/parallel.ts and utils/formatters.ts modelled in [Parallel0]
    and [Formatters0], and is embedded against that revision. *)

Module Params.
Record t : Type := mk {
  topic : string;
  minSources : option Z;
  maxSources : option Z;
  domains : option (list string)
}.
End Params.

Module Collected.
(** An element of [urlsWithTitles]. *)
Record t : Type := mk { url : string; title : string; snippet : string }.
End Collected.

Module MassSummary.
Import Js Async.

Definition opt_or (o : option string) (d : string) : string :=
  match o with Some s => or_else s d | None => d end.

(** A promise that cannot reject: when it settles, and with what. *)
Definition Caught (T : Type) : Type := option (N * T).

(** [p.catch(() => d)] *)
Definition catch_default {T} (p : Promise T) (d : T) : Caught T :=
  match p with
  | At t (Fulfilled v) => Some (t, v)
  | At t (Rejected _) => Some (t, d)
  | Never => None
  end.

(** [await Promise.all(ps)]: the values in array order, at the instant
    the last promise settles. *)
Fixpoint all_caught {T} (ps : list (Caught T)) : Caught (list T) :=
  match ps with
  | [] => Some (0%N, [])
  | p :: rest =>
      match p, all_caught rest with
      | Some (t, v), Some (t', vs) => Some (N.max t t', v :: vs)
      | _, _ => None
      end
  end.

(** An async function that awaits [c] and returns [f] of its value. *)
Definition returning {A B} (c : Caught A) (f : A -> B) : Promise B :=
  match c with
  | Some (t, v) => At t (Fulfilled (f v))
  | None => Never
  end.

(** A double quote inside a template literal. *)
Definition dq : string := String (ascii_of_nat 34) EmptyString.

Section Tool.
Variable URL_new : string -> option URL.
Variable exa : ExaClient.t.
Variable firecrawl : FirecrawlClient.t.
Variable perplexity : PerplexityClient.t.
Variable params : Params.t.

Definition minSources : Z :=
  match Params.minSources params with Some m => m | None => 100%Z end.
Definition maxSources : Z :=
  match Params.maxSources params with Some m => m | None => 150%Z end.

Definition queryVariations : list string :=
  let topic := Params.topic params in
  [topic; topic ++ " analysis"; topic ++ " review"; topic ++ " guide"; topic ++ " overview"].

(** *** Step 1: the three branches handed to [parallelServices] *)

Definition exa_branch : Promise (list ExaClient.Result) :=
  returning
    (all_caught
       (List.map (fun q => catch_default (ExaClient.search exa q) [])
                 (slice_to 4 queryVariations)))
    (fun results => flat_map (fun r => r) results).

Definition domainQ (q : string) : string :=
  match Params.domains params with
  | Some (d :: ds) => join " OR " (List.map (fun d => "site:" ++ d) (d :: ds)) ++ " " ++ q
  | _ => q
  end.

Definition firecrawl_branch : Promise (list FirecrawlClient.Result) :=
  returning
    (all_caught
       (List.map (fun q => catch_default (FirecrawlClient.search firecrawl (domainQ q)) (Some []))
                 (slice_to 4 queryVariations)))
    (fun results => flat_map (fun r => match r with Some d => d | None => [] end) results).

Definition perplexity_branch : Promise PerplexityClient.Answer :=
  PerplexityClient.search perplexity
    ("Comprehensive overview of " ++ dq ++ Params.topic params
     ++ dq ++ " with as many relevant sources as possible").

Definition Collection : Type :=
  ParallelResults.t (list ExaClient.Result) (list FirecrawlClient.Result)
                    PerplexityClient.Answer.

Definition collectionResults : Settled Collection :=
  Parallel0.parallelServices (Calls.mk exa_branch firecrawl_branch perplexity_branch).

(** *** Collect all URLs *)

Definition from_exa (r : ExaClient.Result) : Collected.t :=
  Collected.mk (ExaClient.url r) (ExaClient.title r)
    (match ExaClient.text r with Some t => or_else (slice0 300 t) "" | None => "" end).

Definition from_firecrawl (r : FirecrawlClient.Result) : Collected.t :=
  Collected.mk (FirecrawlClient.url r) (opt_or (FirecrawlClient.title r) "")
    (opt_or (FirecrawlClient.description r)
       (match FirecrawlClient.summary r with
        | Some s => or_else (slice0 300 s) ""
        | None => ""
        end)).

Definition from_citation (c : PerplexityClient.Citation) : Collected.t :=
  Collected.mk (PerplexityClient.url c) (opt_or (PerplexityClient.title c) "")
    (opt_or (PerplexityClient.snippet c) "").

Definition urlsWithTitles (cr : Collection) : list Collected.t :=
  List.app
    (match ParallelResults.exa cr with Some rs => List.map from_exa rs | None => [] end)
    (List.app
       (match ParallelResults.firecrawl cr with
        | Some rs => List.map from_firecrawl rs
        | None => []
        end)
       (match ParallelResults.perplexity cr with
        | Some a => List.map from_citation (PerplexityClient.citations a)
        | None => []
        end)).

(** *** Deduplicate *)

Definition uniqueUrls (cr : Collection) : list string :=
  Dedup.deduplicateUrls URL_new (List.map Collected.url (urlsWithTitles cr)).

Definition trimmedUrls (cr : Collection) : list string :=
  slice_to maxSources (uniqueUrls cr).

(** *** Step 2: batch content extraction *)

Fixpoint contentBatches_loop (trimmed : list string) (fuel : nat) (i : Z)
                             (batches : list (list string)) : list (list string) :=
  match fuel with
  | O => batches
  | S fuel' =>
      if (i <? Z.min (Z.of_nat (List.length trimmed)) 60)%Z
      then contentBatches_loop trimmed fuel' (i + 10)
             (List.app batches [slice i (i + 10) trimmed])
      else batches
  end.

(** The loop index takes the values 0, 10, ..., 60 at most. *)
Definition contentBatches (trimmed : list string) : list (list string) :=
  contentBatches_loop trimmed 7 0 [].

(** [async (batch) => exa.getContents(batch, ...).catch(() => null)] *)
Definition fetch_batch (batch : list string) : Promise (option (list ExaClient.Result)) :=
  match ExaClient.getContents exa batch with
  | At t (Fulfilled v) => At t (Fulfilled (Some v))
  | At t (Rejected _) => At t (Fulfilled None)
  | Never => Never
  end.

Definition exaContents (batches : list (list string))
  : Run (list (option (option (list ExaClient.Result)))) :=
  Parallel0.batchProcess batches 3 fetch_batch (S (List.length batches)).

Definition content_line (r : ExaClient.Result) : list string :=
  let summary :=
    match ExaClient.summary r with
    | Some s => if truthy s then Some s
                else option_map (slice0 500) (ExaClient.text r)
    | None => option_map (slice0 500) (ExaClient.text r)
    end in
  match summary with
  | Some s =>
      if truthy s
      then ["[" ++ ExaClient.title r ++ "](" ++ ExaClient.url r ++ "): " ++ s]
      else []
  | None => []
  end.

Definition snippets_of_contents (contents : list (option (option (list ExaClient.Result))))
  : list string :=
  flat_map
    (fun batchResult =>
       match batchResult with
       | Some (Some results) => flat_map content_line results
       | _ => []
       end)
    contents.

(** Also collect snippets from initial results. *)
Definition add_initial (contentSnippets : list string) (u : Collected.t) : list string :=
  if truthy (Collected.snippet u)
     && negb (existsb (fun s => includes s (Collected.url u)) contentSnippets)
  then List.app contentSnippets
         ["[" ++ Collected.title u ++ "](" ++ Collected.url u ++ "): " ++ Collected.snippet u]
  else contentSnippets.

Definition contentSnippets (cr : Collection)
                           (contents : list (option (option (list ExaClient.Result))))
  : list string :=
  fold_left add_initial (urlsWithTitles cr) (snippets_of_contents contents).

(** *** Step 3: synthesis *)

Definition perplexitySynthesis (cr : Collection) : string :=
  match ParallelResults.perplexity cr with
  | Some a => or_else (PerplexityClient.text a) ""
  | None => ""
  end.

Definition synthesis_prompt (snippets : list string) : string :=
  let contentForSummary := join (Formatters.nl ++ Formatters.nl) (slice_to 120 snippets) in
  "Create a comprehensive, well-structured summary of the topic " ++ dq
    ++ Params.topic params ++ dq ++ " based on these "
    ++ show_nat (List.length snippets)
    ++ " sources. Include key findings, trends, and insights."
    ++ Formatters.nl ++ Formatters.nl ++ "Sources:" ++ Formatters.nl
    ++ slice0 30000 contentForSummary.

(** The [catch] branch of the [try] around the synthesis call. *)
Definition fallback (cr : Collection) : string :=
  or_else (perplexitySynthesis cr)
    ("Summary based on " ++ show_nat (List.length (trimmedUrls cr))
     ++ " collected sources about " ++ dq ++ Params.topic params ++ dq ++ ".").

Definition finalSummary (cr : Collection) (synthesis : Settled PerplexityClient.Answer)
  : string :=
  match synthesis with
  | Fulfilled a => PerplexityClient.text a
  | Rejected _ => fallback cr
  end.

(** *** Compile output *)

Fixpoint find_title (urls : list Collected.t) (url : string) : option string :=
  match urls with
  | [] => None
  | u :: rest =>
      if String.eqb (Collected.url u) url then Some (Collected.title u)
      else find_title rest url
  end.

Definition sources (cr : Collection) : list SourceRef.t :=
  List.map
    (fun url => SourceRef.mk url (opt_or (find_title (urlsWithTitles cr) url) url))
    (trimmedUrls cr).

Definition output (cr : Collection) (summary : string) : string :=
  join Formatters.nl
    ["# Mass Summary: " ++ Params.topic params ++ Formatters.nl;
     "**Sources collected:** " ++ show_nat (List.length (trimmedUrls cr))
       ++ " (target: " ++ show_Z minSources ++ "-" ++ show_Z maxSources ++ ")"
       ++ Formatters.nl;
     Formatters.formatSummary summary (sources cr);
     Formatters0.formatErrors (ParallelResults.errors cr)].

(** Steps 1 and 2: everything the tool does before the synthesis
    call.  A rejection of [parallelServices] would escape the tool. *)
Definition gather : Run (Settled (Collection * list string)) :=
  match collectionResults with
  | Rejected e => Done (Rejected e)
  | Fulfilled cr =>
      match exaContents (contentBatches (trimmedUrls cr)) with
      | Done contents => Done (Fulfilled (cr, contentSnippets cr contents))
      | Blocked => Blocked
      | OutOfFuel => OutOfFuel
      end
  end.

(** The tool: the text it returns, the value it rejects with, or
    [Blocked] when it waits for a promise that never settles. *)
Definition execute : Run (Settled string) :=
  match gather with
  | Done (Fulfilled (cr, snippets)) =>
      match PerplexityClient.deepResearch perplexity (synthesis_prompt snippets) with
      | At _ synthesis => Done (Fulfilled (output cr (finalSummary cr synthesis)))
      | Never => Blocked
      end
  | Done (Rejected e) => Done (Rejected e)
  | Blocked => Blocked
  | OutOfFuel => OutOfFuel
  end.

End Tool.
End MassSummary.

(* ===================================================================== *)
(** * Sample data                                                         *)
(* ===================================================================== *)

Module Samples.
Import Async.

Definition entry (name : string) (tags : list Source.t) (score : Q) : MergedResult.t :=
  MergedResult.mk name name "" "" None None tags score.

(** Provider counts 1, 2, 2, 1. *)
Definition R1 : MergedResult.t := entry "R1" [Source.exa] 1.
Definition R2 : MergedResult.t := entry "R2" [Source.exa; Source.firecrawl] 2.
Definition R3 : MergedResult.t := entry "R3" [Source.firecrawl; Source.perplexity] 2.
Definition R4 : MergedResult.t := entry "R4" [Source.perplexity] 1.
Definition ranking_input : list MergedResult.t := [R1; R2; R3; R4].

(** Clients for a run of the mass-summary tool: Exa finds one page
    and cannot fetch contents, Firecrawl is down, the synthesis call
    fails; the first-pass Perplexity call answers in [answering] and
    fails in [silent]. *)
Definition exa_client : ExaClient.t :=
  ExaClient.mk
    (fun _ => At 40 (Fulfilled [ExaClient.mkResult "Rust" "https://www.rust-lang.org/"
                                                   (Some "A language") None]))
    (fun _ => At 90 (Rejected (ErrorObject "Exa /contents failed (500)"))).

Definition firecrawl_client : FirecrawlClient.t :=
  FirecrawlClient.mk (fun _ => At 10 (Rejected (ErrorObject "Firecrawl down"))).

Definition answering : PerplexityClient.t :=
  PerplexityClient.mk
    (fun _ => At 70 (Fulfilled (PerplexityClient.mkAnswer "First pass." [])))
    (fun _ => At 300 (Rejected (ErrorObject "Perplexity API failed (429)"))).

Definition silent : PerplexityClient.t :=
  PerplexityClient.mk
    (fun _ => At 70 (Rejected (ErrorObject "Perplexity API failed (401)")))
    (fun _ => At 300 (Rejected (ErrorObject "Perplexity API failed (401)"))).

Definition rust : Params.t := Params.mk "rust" None None None.

(** Three provider calls that never settle. *)
Definition all_hang : Calls.t nat nat nat := Calls.mk Never Never Never.

(** A transform that squares its argument and fails on 3. *)
Definition square (n : Z) : Promise Z :=
  if (n =? 3)%Z then At 5 (Rejected (ErrorObject "boom"))
  else At (Z.to_N (10 - n)) (Fulfilled (n * n)%Z).

End Samples.

(* ===================================================================== *)
(** * Vocabulary of the properties                                        *)
(* ===================================================================== *)

Module Spec.
Import Async.

(** What a provider call does, seen from its timeout: it resolves or
    rejects before the timer fires, or it hangs past it. *)
Inductive Behaviour (T : Type) : Type :=
| Resolves (v : T)
| Rejects (e : Thrown)
| Hangs.
Arguments Resolves {T} v.
Arguments Rejects {T} e.
Arguments Hangs {T}.

Definition behaviour {T} (p : Promise T) (timeoutMs : N) : Behaviour T :=
  match p with
  | At t (Fulfilled v) => if (t <? timeoutMs)%N then Resolves v else Hangs
  | At t (Rejected e) => if (t <? timeoutMs)%N then Rejects e else Hangs
  | Never => Hangs
  end.

Definition expected_slot {T} (b : Behaviour T) : option T :=
  match b with
  | Resolves v => Some v
  | _ => None
  end.

(** The error strings a provider is expected to contribute. *)
Definition expected_errors {T} (name : string) (timeoutMs : N) (b : Behaviour T)
  : list string :=
  match b with
  | Resolves _ => []
  | Rejects e => ["[" ++ name ++ "] " ++ describe e]
  | Hangs => ["[" ++ name ++ "] Timeout after " ++ show_N timeoutMs ++ "ms"]
  end.

(** The error strings that carry the bracketed name of a provider. *)
Definition attributed (name : string) (errors : list string) : list string :=
  filter (prefix ("[" ++ name ++ "] ")) errors.

(** The messages pushed by the handlers of a list of events. *)
Definition messages (es : list Event) : list string :=
  flat_map (fun e => match failure e with Some m => [m] | None => [] end) es.

(** The error strings expected of [batchProcess] for the items from
    position [pos] on. *)
Fixpoint batch_failures {T R} (processor : T -> Promise R) (pos : Z) (items : list T)
  : list string :=
  match items with
  | [] => []
  | item :: rest =>
      List.app
        (match processor item with
         | At _ (Rejected e) => ["Batch item " ++ Js.show_Z pos ++ ": " ++ describe e]
         | _ => []
         end)
        (batch_failures processor (pos + 1) rest)
  end.

(** No slash occurs in the string. *)
Fixpoint slashless (s : string) : bool :=
  match s with
  | EmptyString => true
  | String c r => negb (Ascii.eqb c "/") && slashless r
  end.

(** The data-model invariant of a merged record. *)
Definition well_formed (URL_new : string -> option URL) (m : MergedResult.t) : Prop :=
  NoDup (MergedResult.sources m) /\
  MergedResult.normalizedUrl m = Dedup.normalizeUrl URL_new (MergedResult.url m).

Definition count (m : MergedResult.t) : nat := List.length (MergedResult.sources m).

(** [a] may stand before [b]: more providers, or as many and a score
    at least as high. *)
Definition ranks_no_lower (a b : MergedResult.t) : Prop :=
  (count b < count a)%nat \/
  (count a = count b /\ (MergedResult.relevanceScore b <= MergedResult.relevanceScore a)%Q).

(** The entries with [n] providers and a score equal to [q]. *)
Definition same_rank (n : nat) (q : Q) (m : MergedResult.t) : bool :=
  (count m =? n)%nat && Qeq_bool (MergedResult.relevanceScore m) q.

End Spec.

(* ===================================================================== *)
(** * Vocabulary of the further properties                                *)
(* ===================================================================== *)

Module Origin.

(** [xs] is [ys] with some elements left out, the order kept. *)
Inductive Subseq {A : Type} : list A -> list A -> Prop :=
| Subseq_nil : Subseq [] []
| Subseq_skip (y : A) (xs ys : list A) : Subseq xs ys -> Subseq xs (y :: ys)
| Subseq_keep (x : A) (xs ys : list A) : Subseq xs ys -> Subseq (x :: xs) (x :: ys).

Section WithParser.
Variable URL_new : string -> option URL.

(** The result has the deduplication key [k]. *)
Definition has_key (k : string) (r : SearchResult.t) : bool :=
  String.eqb (Dedup.normalizeUrl URL_new (SearchResult.url r)) k.

(** The first result of the list that has the key [k]. *)
Definition first_with_key (k : string) (results : list SearchResult.t)
  : option SearchResult.t :=
  find (has_key k) results.

Definition score_or_zero (r : SearchResult.t) : Q :=
  match SearchResult.score r with Some s => s | None => 0 end.

(** The score after [n] further providers: [n] times [+= 1]. *)
Definition bumped (n : nat) (score : Q) : Q :=
  Nat.iter n (fun x => Double.add x 1) score.

(** What an entry of the map owes to the results processed so far. *)
Definition entry_ok (done : list SearchResult.t) (e : string * MergedResult.t) : Prop :=
  let k := fst e in
  let m := snd e in
  MergedResult.normalizedUrl m = k /\
  (exists r,
      first_with_key k done = Some r /\
      MergedResult.url m = SearchResult.url r /\
      MergedResult.title m = Js.or_else (SearchResult.title r) (SearchResult.url r) /\
      (exists n,
          List.length (MergedResult.sources m) = S n /\
          MergedResult.relevanceScore m = bumped n (Double.add 1 (score_or_zero r)))) /\
  (forall s, In s (MergedResult.sources m) <->
             exists r, In r done /\ has_key k r = true /\ SearchResult.source r = s) /\
  (forall r, In r done -> has_key k r = true ->
             (String.length (SearchResult.snippet r)
              <= String.length (MergedResult.snippet m))%nat /\
             (Dedup.length_opt (SearchResult.content r)
              <= Dedup.length_opt (MergedResult.content m))%nat).

Definition origin_inv (done : list SearchResult.t) (map : JsMap.t MergedResult.t) : Prop :=
  NoDup (JsMap.keys map) /\
  (forall k, JsMap.get map k = None -> find (has_key k) done = None) /\
  Forall (entry_ok done) map.

End WithParser.
End Origin.

Module Runs.
Import Async.

(** The run of a caller that applies [f] to the value it awaited. *)
Definition map {A B : Type} (f : A -> B) (r : Run A) : Run B :=
  match r with
  | Done a => Done (f a)
  | Blocked => Blocked
  | OutOfFuel => OutOfFuel
  end.

End Runs.

Module Chunk.

(** [chunk(arr, size)]; [fuel] bounds the number of times the loop
    condition is evaluated, and [None] means the bound was reached. *)
Definition chunk {T : Type} (arr : list T) (size : Z) (fuel : nat) : option (list (list T)) :=
  Parallel.chunk_loop arr size fuel 0 [].

End Chunk.

(** Further sample inputs. *)
Module MoreSamples.
(** A transform whose call for 4 never settles. *)
Definition stuck (n : Z) : Async.Promise Z :=
  if (n =? 4)%Z then Async.Never else Samples.square n.

(** The double nearest to 0.7, and two reports of one page: the first
    carries this score, the second carries none. *)
Definition seven_tenths : Q := 6305039478318694 # 9007199254740992.

Definition scored : SearchResult.t :=
  SearchResult.mk "https://a.com/x" "A" "first" None None Source.exa (Some seven_tenths).

Definition unscored : SearchResult.t :=
  SearchResult.mk "http://www.a.com/x/" "A" "second" None None Source.firecrawl None.
End MoreSamples.

(* ===================================================================== *)
(** * clients/perplexity.ts: [parseResponse]                              *)
(* ===================================================================== *)

Module PerplexityContentBlock.
Record t : Type := mk { type : string; text : option string }.
End PerplexityContentBlock.

Module PerplexityOutputItem.
(** [content?: string | PerplexityContentBlock[]] *)
Inductive Content : Type :=
| Str (s : string)
| Blocks (blocks : list PerplexityContentBlock.t).

Record t : Type := mk {
  type : string;
  content : option Content;
  url : option string;
  title : option string;
  snippet : option string
}.
End PerplexityOutputItem.

Module PerplexityParse.
Import Js.

(** The body of [for (const block of item.content)]. *)
Definition block_step (text : string) (block : PerplexityContentBlock.t) : string :=
  match PerplexityContentBlock.text block with
  | Some s =>
      if String.eqb (PerplexityContentBlock.type block) "text" && truthy s
      then text ++ s else text
  | None => text
  end.

Definition is_citation (item : PerplexityOutputItem.t) : bool :=
  String.eqb (PerplexityOutputItem.type item) "search_result"
  || String.eqb (PerplexityOutputItem.type item) "citation".

Definition to_citation (item : PerplexityOutputItem.t) : PerplexityClient.Citation :=
  PerplexityClient.mkCitation
    (match PerplexityOutputItem.url item with Some u => u | None => "" end)
    (PerplexityOutputItem.title item)
    (PerplexityOutputItem.snippet item).

(** The body of [for (const item of response.output ?? [])], on the two
    variables [text] and [citations]. *)
Definition item_step (acc : string * list PerplexityClient.Citation)
                     (item : PerplexityOutputItem.t)
  : string * list PerplexityClient.Citation :=
  let text :=
    if String.eqb (PerplexityOutputItem.type item) "message"
    then
      match PerplexityOutputItem.content item with
      | Some (PerplexityOutputItem.Str s) => if truthy s then fst acc ++ s else fst acc
      | Some (PerplexityOutputItem.Blocks blocks) => fold_left block_step blocks (fst acc)
      | None => fst acc
      end
    else fst acc in
  let citations :=
    if is_citation item then (snd acc ++ [to_citation item])%list else snd acc in
  (text, citations).

Definition parseResponse (output : option (list PerplexityOutputItem.t))
  : PerplexityClient.Answer :=
  let out := fold_left item_step (match output with Some l => l | None => [] end) ("", []) in
  PerplexityClient.mkAnswer (fst out) (snd out).

End PerplexityParse.

(* ===================================================================== *)
(** * tools/deep-search.ts                                                *)
(* ===================================================================== *)

(** The results and options of the clients, with the fields this tool
    reads and writes. *)
Module ExaSearchResult.
Record t : Type := mk {
  title : string;
  url : string;
  publishedDate : option string;
  text : option string;
  highlights : option (list string);
  score : option Q
}.
End ExaSearchResult.

Module ExaSearchOptions.
Record t : Type := mk {
  numResults : Z;
  includeDomains : option (list string);
  excludeDomains : option (list string);
  category : option string;
  text : bool;
  highlights : bool
}.
End ExaSearchOptions.

Module FirecrawlSearchResult.
Record t : Type := mk {
  url : string;
  title : option string;
  description : option string;
  markdown : option string
}.
End FirecrawlSearchResult.

Module FirecrawlSearchOptions.
Record t : Type := mk { limit : Z; formats : list string }.
End FirecrawlSearchOptions.

Module PerplexitySearchOptions.
Record t : Type := mk { searchDomainFilter : option (list string) }.
End PerplexitySearchOptions.

Module DeepSearchParams.
(** [numResults] is taken to be an integer. *)
Record t : Type := mk {
  query : string;
  numResults : option Z;
  domains : option (list string);
  excludeDomains : option (list string);
  category : option string
}.
End DeepSearchParams.

Module DeepSearch.
Import Js Async.

(** [async () => f(await p)] *)
Definition then_ {A B : Type} (p : Promise A) (f : A -> B) : Promise B :=
  match p with
  | Never => Never
  | At t (Fulfilled v) => At t (Fulfilled (f v))
  | At t (Rejected e) => At t (Rejected e)
  end.

Definition from_exa (r : ExaSearchResult.t) : SearchResult.t :=
  SearchResult.mk
    (ExaSearchResult.url r)
    (ExaSearchResult.title r)
    (MassSummary.opt_or (option_map (join " ") (ExaSearchResult.highlights r))
       (MassSummary.opt_or (option_map (slice0 300) (ExaSearchResult.text r)) ""))
    (ExaSearchResult.text r)
    (ExaSearchResult.publishedDate r)
    Source.exa
    (ExaSearchResult.score r).

Definition from_firecrawl (r : FirecrawlSearchResult.t) : SearchResult.t :=
  SearchResult.mk
    (FirecrawlSearchResult.url r)
    (MassSummary.opt_or (FirecrawlSearchResult.title r) "")
    (MassSummary.opt_or (FirecrawlSearchResult.description r)
       (MassSummary.opt_or (option_map (slice0 300) (FirecrawlSearchResult.markdown r)) ""))
    (FirecrawlSearchResult.markdown r)
    None
    Source.firecrawl
    None.

Definition from_citation (c : PerplexityClient.Citation) : SearchResult.t :=
  SearchResult.mk
    (PerplexityClient.url c)
    (MassSummary.opt_or (PerplexityClient.title c) "")
    (MassSummary.opt_or (PerplexityClient.snippet c) "")
    None
    None
    Source.perplexity
    None.

Definition synthesis (text : string) : SearchResult.t :=
  SearchResult.mk "perplexity://synthesis" "Perplexity AI Summary" (slice0 500 text)
                  (Some text) None Source.perplexity None.

Definition from_answer (res : PerplexityClient.Answer) : list SearchResult.t :=
  let searchResults := List.map from_citation (PerplexityClient.citations res) in
  if truthy (PerplexityClient.text res)
  then synthesis (PerplexityClient.text res) :: searchResults
  else searchResults.

Definition or_empty {A : Type} (o : option (list A)) : list A :=
  match o with Some l => l | None => [] end.

Section Tool.
Variable URL_new : string -> option URL.
Variable exa : string -> ExaSearchOptions.t -> Promise (list ExaSearchResult.t).
Variable firecrawl :
  string -> FirecrawlSearchOptions.t -> Promise (option (list FirecrawlSearchResult.t)).
Variable perplexity : string -> PerplexitySearchOptions.t -> Promise PerplexityClient.Answer.
Variable defaultNumResults : Z.
Variable logger : option Logger.
Variable params : DeepSearchParams.t.

Definition numResults : Z :=
  Z.min
    (match DeepSearchParams.numResults params with
     | Some n => n
     | None => defaultNumResults
     end)
    50.

Definition exa_branch : Promise (list SearchResult.t) :=
  then_
    (exa (DeepSearchParams.query params)
         (ExaSearchOptions.mk numResults (DeepSearchParams.domains params)
            (DeepSearchParams.excludeDomains params) (DeepSearchParams.category params)
            true true))
    (List.map from_exa).

Definition domainQuery : string :=
  match DeepSearchParams.domains params with
  | Some (d :: ds) =>
      join " OR " (List.map (fun d => "site:" ++ d) (d :: ds))
        ++ " " ++ DeepSearchParams.query params
  | _ => DeepSearchParams.query params
  end.

Definition firecrawl_branch : Promise (list SearchResult.t) :=
  then_
    (firecrawl domainQuery (FirecrawlSearchOptions.mk numResults ["markdown"]))
    (fun data => List.map from_firecrawl (or_empty data)).

Definition perplexity_branch : Promise (list SearchResult.t) :=
  then_
    (perplexity (DeepSearchParams.query params)
                (PerplexitySearchOptions.mk (DeepSearchParams.domains params)))
    from_answer.

Definition calls : Calls.t (list SearchResult.t) (list SearchResult.t) (list SearchResult.t) :=
  Calls.mk exa_branch firecrawl_branch perplexity_branch.

Definition Results : Type :=
  ParallelResults.t (list SearchResult.t) (list SearchResult.t) (list SearchResult.t).

Definition allResults (results : Results) : list SearchResult.t :=
  (or_empty (ParallelResults.exa results)
   ++ or_empty (ParallelResults.firecrawl results)
   ++ or_empty (ParallelResults.perplexity results))%list.

Definition merged (results : Results) : list MergedResult.t :=
  Dedup.rankByRelevance (Dedup.mergeResults URL_new (allResults results)).

Definition status (results : Results) : string :=
  Formatters.formatServiceStatus
    (ServiceFlags.mk (Parallel.not_null (ParallelResults.exa results))
                     (Parallel.not_null (ParallelResults.firecrawl results))
                     (Parallel.not_null (ParallelResults.perplexity results))).

Definition output (results : Results) : string :=
  status results
    ++ Formatters.formatSearchResults (merged results) (Some (Options.mk (Some false) None))
    ++ Formatters.formatErrors (ParallelResults.errors results).

(** The text of the content the tool returns, and what it logs. *)
Definition execute : Settled string * Trace :=
  let tr :=
    emit logger info
      ("[deep_search] query=" ++ MassSummary.dq ++ DeepSearchParams.query params
         ++ MassSummary.dq ++ " numResults=" ++ show_Z numResults) [] in
  match Parallel.parallelServices calls logger with
  | (Fulfilled results, tr') => (Fulfilled (output results), (tr ++ tr')%list)
  | (Rejected e, tr') => (Rejected e, (tr ++ tr')%list)
  end.

End Tool.
End DeepSearch.

(* ===================================================================== *)
(** * Properties of the string primitives                                 *)
(* ===================================================================== *)

Section StringFacts.
Import Js.

Lemma lower_char_idem (c : ascii) : lower_char (lower_char c) = lower_char c.
Proof. destruct c as [[] [] [] [] [] [] [] []]; reflexivity. Qed.

Lemma toLowerCase_idem (s : string) : toLowerCase (toLowerCase s) = toLowerCase s.
Proof.
  induction s as [|c s IH]; simpl; [reflexivity|].
  now rewrite lower_char_idem, IH.
Qed.

Lemma lower_char_slash (c : ascii) :
  Ascii.eqb (lower_char c) "/" = Ascii.eqb c "/".
Proof. destruct c as [[] [] [] [] [] [] [] []]; reflexivity. Qed.

Lemma strip_trailing_cons (c : ascii) (s : string) :
  strip_trailing_slashes (String c s) =
  match strip_trailing_slashes s with
  | EmptyString => if Ascii.eqb c "/" then EmptyString else String c EmptyString
  | r' => String c r'
  end.
Proof. reflexivity. Qed.

Lemma toLowerCase_strip_trailing (s : string) :
  toLowerCase (strip_trailing_slashes s) = strip_trailing_slashes (toLowerCase s).
Proof.
  induction s as [|c s IH]; [reflexivity|].
  cbn [toLowerCase]. rewrite !strip_trailing_cons, <- IH.
  destruct (strip_trailing_slashes s) as [|d r]; cbn [toLowerCase].
  - rewrite lower_char_slash. now destruct (Ascii.eqb c "/").
  - reflexivity.
Qed.

Lemma strip_prefix_lowered (p s r : string) :
  strip_prefix p s = Some r -> toLowerCase s = s -> toLowerCase r = r.
Proof.
  revert s; induction p as [|a p IH]; intros s H L; simpl in H.
  - destruct s; inversion H; subst; assumption.
  - destruct s as [|b s]; [discriminate|].
    destruct (Ascii.eqb a b); [|discriminate].
    simpl in L. inversion L as [[Hc Hs]].
    apply (IH s H). now rewrite Hs.
Qed.

Lemma replace_prefix_lowered (p s : string) :
  toLowerCase s = s -> toLowerCase (replace_prefix p s) = replace_prefix p s.
Proof.
  intros L. unfold replace_prefix.
  destruct (strip_prefix p s) eqn:E; [eapply strip_prefix_lowered; eauto | exact L].
Qed.

Lemma replace_scheme_lowered (s : string) :
  toLowerCase s = s -> toLowerCase (replace_scheme s) = replace_scheme s.
Proof.
  intros L. unfold replace_scheme.
  destruct (strip_prefix "https://" s) eqn:E.
  - eapply strip_prefix_lowered; eauto.
  - now apply replace_prefix_lowered.
Qed.

Lemma strip_trailing_idem (s : string) :
  strip_trailing_slashes (strip_trailing_slashes s) = strip_trailing_slashes s.
Proof.
  induction s as [|c s IH]; [reflexivity|].
  rewrite strip_trailing_cons.
  destruct (strip_trailing_slashes s) as [|d r] eqn:E.
  - destruct (Ascii.eqb c "/") eqn:Ec; [reflexivity|].
    rewrite strip_trailing_cons. cbn [strip_trailing_slashes]. now rewrite Ec.
  - rewrite strip_trailing_cons, IH. reflexivity.
Qed.

(** Stripping the slashes at the end of a concatenation. *)
Lemma strip_trailing_app (a b : string) :
  strip_trailing_slashes (a ++ b) =
  match strip_trailing_slashes b with
  | EmptyString => strip_trailing_slashes a
  | b' => a ++ b'
  end.
Proof.
  induction a as [|c a IH].
  - cbn [append]. now destruct (strip_trailing_slashes b).
  - cbn [append]. rewrite !strip_trailing_cons, IH.
    destruct (strip_trailing_slashes b); [reflexivity|].
    now destruct a.
Qed.

Lemma strip_trailing_length (s : string) :
  (String.length (strip_trailing_slashes s) <= String.length s)%nat.
Proof.
  induction s as [|c s IH]; [apply le_n|].
  rewrite strip_trailing_cons.
  destruct (strip_trailing_slashes s); [destruct (Ascii.eqb c "/")|];
    cbn [String.length] in *; lia.
Qed.

Lemma length_append (a b : string) :
  String.length (a ++ b) = (String.length a + String.length b)%nat.
Proof. induction a as [|c a IH]; cbn; [reflexivity | now rewrite IH]. Qed.

Lemma strip_prefix_app (p s r : string) :
  strip_prefix p s = Some r -> s = p ++ r.
Proof.
  revert s; induction p as [|a p IH]; intros s H; simpl in H.
  - now inversion H.
  - destruct s as [|b s]; [discriminate|].
    destruct (Ascii.eqb a b) eqn:E; [|discriminate].
    apply Ascii.eqb_eq in E. subst b. simpl. f_equal. now apply IH.
Qed.

Lemma append_inj_r (x y z : string) : x ++ y = x ++ z -> y = z.
Proof. induction x; simpl; intros H; [exact H|]. inversion H. auto. Qed.

(** A string that does not end in a slash keeps this property when a
    prefix is taken off. *)
Lemma strip_trailing_suffix (p r : string) :
  strip_trailing_slashes (p ++ r) = p ++ r ->
  strip_trailing_slashes r = r.
Proof.
  intros H. rewrite strip_trailing_app in H.
  destruct (strip_trailing_slashes r) as [|d r'] eqn:Er.
  - pose proof (strip_trailing_length p) as L.
    rewrite H, length_append in L.
    destruct r; [reflexivity | cbn [String.length] in L; lia].
  - now apply append_inj_r in H.
Qed.

Lemma replace_prefix_no_trailing (p s : string) :
  strip_trailing_slashes s = s ->
  strip_trailing_slashes (replace_prefix p s) = replace_prefix p s.
Proof.
  intros H. unfold replace_prefix.
  destruct (strip_prefix p s) as [r|] eqn:E; [|exact H].
  apply strip_prefix_app in E. subst s.
  now apply strip_trailing_suffix in H.
Qed.

Lemma append_empty_r (s : string) : s ++ "" = s.
Proof. induction s; simpl; [reflexivity | now f_equal]. Qed.

Lemma replace_prefix_none (p s : string) :
  strip_prefix p s = None -> replace_prefix p s = s.
Proof. intros H. unfold replace_prefix. now rewrite H. Qed.
End StringFacts.

(* ===================================================================== *)
(** * Properties of the URL parser model                                  *)
(* ===================================================================== *)

Section ParserFacts.
Import Js Whatwg Spec.

Lemma slashless_strip (s : string) :
  slashless s = true -> strip_trailing_slashes s = s.
Proof.
  induction s as [|c s IH]; [reflexivity|].
  cbn [slashless]. intros H. apply andb_prop in H. destruct H as [Hc Hs].
  rewrite strip_trailing_cons, (IH Hs).
  destruct s; [|reflexivity].
  now destruct (Ascii.eqb c "/").
Qed.

Lemma slashless_app (a b : string) :
  slashless (a ++ b) = slashless a && slashless b.
Proof.
  induction a as [|c a IH]; cbn; [reflexivity|].
  now rewrite IH, andb_assoc.
Qed.

Lemma str_app (a b : list ascii) : str (a ++ b) = str a ++ str b.
Proof. induction a as [|c a IH]; cbn; [reflexivity | now f_equal]. Qed.

Lemma forbidden_domain_slash (c : ascii) :
  forbidden_domain c = false -> negb (Ascii.eqb (lower_char c) "/") = true.
Proof.
  destruct c as [[] [] [] [] [] [] [] []]; intros H; try reflexivity;
    vm_compute in H; discriminate H.
Qed.

Lemma forbidden_host_slash (c : ascii) :
  forbidden_host c = false ->
  slashless (str (if in_c0_set c then percent_byte c else [c])) = true.
Proof.
  destruct c as [[] [] [] [] [] [] [] []]; intros H; try reflexivity;
    vm_compute in H; discriminate H.
Qed.

Lemma parse_domain_slashless (l : list ascii) (h : string) :
  parse_domain l = Host h -> slashless h = true.
Proof.
  unfold parse_domain.
  destruct (starts_with_bracket l); [discriminate|].
  destruct (existsb _ l); [discriminate|].
  destruct (existsb punycode_label _); [discriminate|].
  destruct (existsb forbidden_domain l) eqn:F; [discriminate|].
  destruct (ends_in_number l); [discriminate|].
  intros H. inversion H; subst h. clear H.
  induction l as [|c l IH]; [reflexivity|].
  cbn in F. apply orb_false_elim in F. destruct F as [Fc Fl].
  change (str (c :: l)) with (String c (str l)).
  cbn [toLowerCase slashless].
  now rewrite (forbidden_domain_slash c Fc), (IH Fl).
Qed.

Lemma parse_opaque_host_slashless (l : list ascii) (h : string) :
  parse_opaque_host l = Host h -> slashless h = true.
Proof.
  unfold parse_opaque_host.
  destruct (starts_with_bracket l); [discriminate|].
  destruct (existsb forbidden_host l) eqn:F; [discriminate|].
  intros H. inversion H; subst h. clear H. unfold encode.
  induction l as [|c l IH]; [reflexivity|].
  cbn in F. apply orb_false_elim in F. destruct F as [Fc Fl].
  cbn [flat_map]. rewrite str_app, slashless_app.
  now rewrite (forbidden_host_slash c Fc), (IH Fl).
Qed.

Lemma parse_host_slashless (special : bool) (l : list ascii) (h : string) :
  parse_host special l = Host h -> slashless h = true.
Proof.
  destruct special; [apply parse_domain_slashless | apply parse_opaque_host_slashless].
Qed.

Lemma parse_authority_slashless (special : bool) (auth : list ascii) (h : string) :
  parse_authority special auth = Host h -> slashless h = true.
Proof.
  unfold parse_authority.
  destruct (after_last_at auth [] false) as [hostport seen].
  assert (K : match split_host hostport [] false with
              | (buf, Some port) =>
                  match buf with
                  | [] => HostFailure
                  | _ :: _ =>
                      match parse_host special buf with
                      | Host h0 => if port_ok port then Host h0 else HostFailure
                      | r => r
                      end
                  end
              | (buf, None) =>
                  match buf, special with
                  | [], true => HostFailure
                  | _, _ => parse_host special buf
                  end
              end = Host h -> slashless h = true).
  { destruct (split_host hostport [] false) as [buf [port|]].
    - destruct buf; [discriminate|].
      destruct (parse_host special (a :: buf)) eqn:E; try discriminate.
      destruct (port_ok port); [|discriminate].
      intros H; inversion H; subst. eapply parse_host_slashless; eauto.
    - destruct buf, special; try discriminate; apply parse_host_slashless. }
  destruct hostport, seen; try exact K. discriminate.
Qed.

Lemma finish_hostname sch host path special rest u :
  finish sch host path special rest = Parsed u -> hostname u = host.
Proof.
  unfold finish. destruct (split_query special rest). intros H.
  now inversion H.
Qed.

Lemma parse_from_path_start_hostname sch host special rest u :
  parse_from_path_start sch host special rest = Parsed u -> hostname u = host.
Proof.
  unfold parse_from_path_start. destruct special.
  - destruct (path_state true _ [] []). apply finish_hostname.
  - destruct rest as [|c r]; [apply finish_hostname|].
    destruct (is_char c "?" || is_char c "#"); [apply finish_hostname|].
    destruct (path_state false _ [] []). apply finish_hostname.
Qed.

Lemma parse_with_authority_slashless sch special l u :
  parse_with_authority sch special l = Parsed u -> slashless (hostname u) = true.
Proof.
  unfold parse_with_authority.
  destruct (span _ l) as [auth rest].
  destruct (parse_authority special auth) eqn:E; try discriminate.
  intros H. apply parse_from_path_start_hostname in H. rewrite H.
  eapply parse_authority_slashless; eauto.
Qed.

(** The host name of a parsed URL never contains a slash. *)
Lemma parse_hostname_slashless (s : string) (u : URL) :
  parse s = Parsed u -> slashless (hostname u) = true.
Proof.
  unfold parse, basic_parse.
  destruct (split_scheme _) as [[sch rest]|]; [|discriminate].
  destruct (String.eqb sch "file"); [discriminate|].
  destruct (is_special sch); [apply parse_with_authority_slashless|].
  assert (P : forall path tail,
             finish sch "" path false tail = Parsed u -> slashless (hostname u) = true).
  { intros path tail H. apply finish_hostname in H. now rewrite H. }
  destruct rest as [|c1 rest].
  { destruct (span _ []). apply P. }
  destruct (Ascii.eqb c1 "/") eqn:E1.
  - apply Ascii.eqb_eq in E1; subst c1.
    destruct rest as [|c2 rest].
    { destruct (path_state false [] [] []). apply P. }
    destruct (Ascii.eqb c2 "/") eqn:E2.
    + apply Ascii.eqb_eq in E2; subst c2. apply parse_with_authority_slashless.
    + assert (c2 <> "/"%char) by (now apply Ascii.eqb_neq).
      destruct c2 as [[] [] [] [] [] [] [] []]; try congruence;
        (destruct (path_state false _ [] []); apply P).
  - assert (c1 <> "/"%char) by (now apply Ascii.eqb_neq).
    destruct c1 as [[] [] [] [] [] [] [] []]; try congruence;
      (destruct (span _ _); apply P).
Qed.

Lemma URL_new_hostname (s : string) (u : URL) :
  URL_new s = Some u -> strip_trailing_slashes (hostname u) = hostname u.
Proof.
  unfold URL_new. destruct (parse s) eqn:E; try discriminate.
  intros H; inversion H; subst.
  apply slashless_strip. eapply parse_hostname_slashless; eauto.
Qed.
End ParserFacts.

(* ===================================================================== *)
(** * Properties of [normalizeUrl]                                        *)
(* ===================================================================== *)

Section NormalizeFacts.
Import Js.
Variable URL_new : string -> option URL.

Local Abbreviation normalize := (Dedup.normalizeUrl URL_new).

(** When the parser accepts the input, the key is made of the host
    name and the path and of nothing else. *)
Lemma normalizeUrl_parsed (s : string) (u : URL) :
  URL_new s = Some u ->
  normalize s =
  toLowerCase (replace_prefix "www." (hostname u) ++ strip_trailing_slashes (pathname u)).
Proof. intros H. unfold Dedup.normalizeUrl. now rewrite H. Qed.

(** When the parser throws, the key is the string transform of the
    [catch] branch. *)
Lemma normalizeUrl_fallback (s : string) :
  URL_new s = None ->
  normalize s =
  strip_trailing_slashes (replace_prefix "www." (replace_scheme (toLowerCase s))).
Proof. intros H. unfold Dedup.normalizeUrl. now rewrite H. Qed.

Lemma normalizeUrl_lowered (s : string) : toLowerCase (normalize s) = normalize s.
Proof.
  unfold Dedup.normalizeUrl. destruct (URL_new s).
  - apply toLowerCase_idem.
  - rewrite toLowerCase_strip_trailing. f_equal.
    apply replace_prefix_lowered, replace_scheme_lowered, toLowerCase_idem.
Qed.

Hypothesis hostname_without_slash :
  forall s u, URL_new s = Some u -> strip_trailing_slashes (hostname u) = hostname u.

Lemma normalizeUrl_no_trailing_slash (s : string) :
  strip_trailing_slashes (normalize s) = normalize s.
Proof.
  unfold Dedup.normalizeUrl. destruct (URL_new s) as [u|] eqn:E.
  - rewrite <- toLowerCase_strip_trailing. f_equal.
    rewrite strip_trailing_app, strip_trailing_idem.
    destruct (strip_trailing_slashes (pathname u)); [|reflexivity].
    rewrite append_empty_r.
    apply replace_prefix_no_trailing. eapply hostname_without_slash; eauto.
  - apply strip_trailing_idem.
Qed.

Lemma normalizeUrl_fixed_point (k : string) :
  toLowerCase k = k ->
  strip_trailing_slashes k = k ->
  URL_new k = None ->
  strip_prefix "www." k = None ->
  strip_prefix "http://" k = None ->
  strip_prefix "https://" k = None ->
  normalize k = k.
Proof.
  intros L T N W H1 H2.
  rewrite (normalizeUrl_fallback k N), L.
  unfold replace_scheme. rewrite H2.
  now rewrite (replace_prefix_none _ _ H1), (replace_prefix_none _ _ W).
Qed.
End NormalizeFacts.

(** C4, evaluated on the code.  An input without a scheme makes the URL
    constructor throw; the string transform of the [catch] branch then
    keeps the query string and the fragment in the key, while the branch
    that parses drops both. *)
Theorem normalizeUrl_fallback_keeps_query_and_fragment :
  Whatwg.parse "example.com/a?x=1" = Whatwg.Failure /\
  Whatwg.parse "example.com/a#top" = Whatwg.Failure /\
  Dedup.normalizeUrl Whatwg.URL_new "example.com/a?x=1" = "example.com/a?x=1" /\
  Dedup.normalizeUrl Whatwg.URL_new "example.com/a#top" = "example.com/a#top" /\
  Dedup.normalizeUrl Whatwg.URL_new "example.com/a" = "example.com/a" /\
  Dedup.normalizeUrl Whatwg.URL_new "https://example.com/a?x=1#top" = "example.com/a".
Proof. repeat split; reflexivity. Qed.

(** C5, counterexample.  The URL [https://www.www.example.com/] is
    valid; one pass removes one [www.] label and a second pass removes
    the other, so the second pass changes the key. *)
Lemma normalizeUrl_not_idempotent_double_www :
  Whatwg.parse "https://www.www.example.com/"
    = Whatwg.Parsed (mkURL "https" "www.www.example.com" "/" "" "") /\
  Dedup.normalizeUrl Whatwg.URL_new "https://www.www.example.com/" = "www.example.com" /\
  Dedup.normalizeUrl Whatwg.URL_new
    (Dedup.normalizeUrl Whatwg.URL_new "https://www.www.example.com/") = "example.com" /\
  Dedup.normalizeUrl Whatwg.URL_new
    (Dedup.normalizeUrl Whatwg.URL_new "https://www.www.example.com/")
  <> Dedup.normalizeUrl Whatwg.URL_new "https://www.www.example.com/".
Proof. repeat split; try reflexivity. vm_compute. discriminate. Qed.

(** The conditions of the amended statement are needed one by one: a
    key may be accepted by the parser again, and a key that the parser
    rejects may still start with a scheme that the string transform
    removes. *)
Example normalizeUrl_key_parses_again :
  Dedup.normalizeUrl Whatwg.URL_new "mailto:x:y" = "x:y" /\
  Dedup.normalizeUrl Whatwg.URL_new "x:y" = "y".
Proof. split; reflexivity. Qed.

Example normalizeUrl_key_with_scheme :
  Dedup.normalizeUrl Whatwg.URL_new "x:http://a b" = "http://a b" /\
  Whatwg.parse "http://a b" = Whatwg.Failure /\
  Dedup.normalizeUrl Whatwg.URL_new "http://a b" = "a b".
Proof. repeat split; reflexivity. Qed.

(** C5, amended.  For every URL parser whose host names never end in a
    slash and every input [u] (valid or not): if the key of [u] is not
    itself accepted by the parser and does not start with [www.],
    [http://] or [https://], normalising the key gives the key back.
    And the two inputs named by the specification have the same key. *)
Theorem normalizeUrl_idempotent_on_plain_keys :
  (forall (URL_new : string -> option URL) (u : string),
      (forall s r, URL_new s = Some r ->
                   Js.strip_trailing_slashes (hostname r) = hostname r) ->
      URL_new (Dedup.normalizeUrl URL_new u) = None ->
      Js.strip_prefix "www." (Dedup.normalizeUrl URL_new u) = None ->
      Js.strip_prefix "http://" (Dedup.normalizeUrl URL_new u) = None ->
      Js.strip_prefix "https://" (Dedup.normalizeUrl URL_new u) = None ->
      Dedup.normalizeUrl URL_new (Dedup.normalizeUrl URL_new u)
      = Dedup.normalizeUrl URL_new u)
  /\ Dedup.normalizeUrl Whatwg.URL_new "https://www.Example.com/a/"
     = Dedup.normalizeUrl Whatwg.URL_new "example.com/a".
Proof.
  split; [|reflexivity].
  intros URL_new u Hhost N W H1 H2.
  apply normalizeUrl_fixed_point; auto.
  - apply normalizeUrl_lowered.
  - now apply normalizeUrl_no_trailing_slash.
Qed.

Lemma normalizeUrl_idempotent_on_plain_keys_witness :
  Dedup.normalizeUrl Whatwg.URL_new
    (Dedup.normalizeUrl Whatwg.URL_new "https://www.Example.com/a/")
  = Dedup.normalizeUrl Whatwg.URL_new "https://www.Example.com/a/".
Proof.
  apply (proj1 normalizeUrl_idempotent_on_plain_keys Whatwg.URL_new
           "https://www.Example.com/a/").
  - exact URL_new_hostname.
  - reflexivity.
  - reflexivity.
  - reflexivity.
  - reflexivity.
Defined.
(* ===================================================================== *)
(** * Properties of the addition of numbers                               *)
(* ===================================================================== *)

Section NumberFacts.

(** Rounding looks at the value of a rational, not at the fraction that
    stands for it. *)
Lemma round_proper (x y : Q) : (x == y)%Q -> Double.round x = Double.round y.
Proof. intros H. unfold Double.round. now rewrite (Qred_complete x y H). Qed.

Lemma add_proper (a a' b b' : Q) :
  (a == a')%Q -> (b == b')%Q -> Double.add a b = Double.add a' b'.
Proof. intros Ha Hb. unfold Double.add. apply round_proper. now rewrite Ha, Hb. Qed.

(** An addition whose exact sum is a double is exact. *)
Lemma add_exact (a b : Q) :
  Double.representable (a + b) = true -> (Double.add a b == a + b)%Q.
Proof. intros H. now apply Qeq_bool_iff. Qed.

(** The sums on which the two readings of [+ 1] differ: above 2^53 a
    double has no odd neighbour, and the sum of 1 and the double nearest
    to 1.7 lies half-way between two doubles. *)
Example add_rounds_to_nearest :
  Double.add 9007199254740992 1 = 9007199254740992%Q /\
  Double.add 1 MoreSamples.seven_tenths = (7656119366529843 # 4503599627370496)%Q /\
  Double.add (7656119366529843 # 4503599627370496) 1
  = (3039929748475085 # 1125899906842624)%Q /\
  Double.add 1 0 = 1%Q /\
  Double.add 1 1 = 2%Q /\
  Double.add 2 1 = 3%Q /\
  Double.representable (1 # 3) = false.
Proof. vm_compute. repeat split. Qed.

(** The sum of the doubles nearest to 0.1 and 0.2 is the double that
    prints as 0.30000000000000004; the largest double absorbs 1; below
    the smallest double a half-way value goes to the even neighbour. *)
Example add_at_the_boundaries :
  Double.add (3602879701896397 # 36028797018963968) (3602879701896397 # 18014398509481984)
  = (1351079888211149 # 4503599627370496)%Q /\
  Double.add (inject_Z ((2 ^ 53 - 1) * 2 ^ 971)) 1 = inject_Z ((2 ^ 53 - 1) * 2 ^ 971) /\
  Double.add (-9007199254740992) (-1) = (-9007199254740992)%Q /\
  Double.round (1 # 2 ^ 1075) = 0%Q /\
  Double.round (3 # 2 ^ 1075) = (1 # 2 ^ 1073)%Q /\
  Double.representable (1 # 2 ^ 1074) = true /\
  Double.representable (1 # 2 ^ 1075) = false.
Proof. vm_compute. repeat split. Qed.
End NumberFacts.


(* ===================================================================== *)
(** * Properties of [mergeResults]                                        *)
(* ===================================================================== *)

Section MapFacts.
Context {V : Type}.
Implicit Types (m : JsMap.t V) (k : string) (v : V).

Lemma get_mutate_same m k v v0 :
  JsMap.get m k = Some v0 -> JsMap.get (JsMap.mutate m k v) k = Some v.
Proof.
  induction m as [|[k' v'] m IH]; cbn; [discriminate|].
  destruct (String.eqb k' k) eqn:E; cbn; rewrite E; auto.
Qed.

Lemma keys_mutate m k v : JsMap.keys (JsMap.mutate m k v) = JsMap.keys m.
Proof.
  induction m as [|[k' v'] m IH]; cbn; [reflexivity|].
  destruct (String.eqb k' k); cbn; [reflexivity | now f_equal].
Qed.

Lemma get_In_values m k v : JsMap.get m k = Some v -> In v (JsMap.values m).
Proof.
  induction m as [|[k' v'] m IH]; cbn; [discriminate|].
  destruct (String.eqb k' k); intros H; [inversion H; now left | right; auto].
Qed.

Lemma Forall_values_mutate (P : V -> Prop) m k v :
  Forall P (JsMap.values m) -> P v -> Forall P (JsMap.values (JsMap.mutate m k v)).
Proof.
  intros F Pv. induction m as [|[k' v'] m IH]; cbn; [constructor|].
  cbn in F. inversion F; subst.
  destruct (String.eqb k' k); cbn; constructor; auto.
Qed.

Lemma Forall_values_set (P : V -> Prop) m k v :
  Forall P (JsMap.values m) -> P v -> Forall P (JsMap.values (JsMap.set m k v)).
Proof.
  intros F Pv. unfold JsMap.set.
  destruct (JsMap.get m k); [now apply Forall_values_mutate|].
  unfold JsMap.values. rewrite map_app. apply Forall_app. split; [exact F|].
  repeat constructor. exact Pv.
Qed.
End MapFacts.

Section MergeFacts.
Import Js.
Variable URL_new : string -> option URL.

Lemma Source_eqb_eq (a b : Source.t) : Source.eqb a b = true <-> a = b.
Proof. destruct a, b; cbn; split; intros H; try reflexivity; discriminate. Qed.

Lemma includes_source_In (xs : list Source.t) (s : Source.t) :
  Dedup.includes_source xs s = true <-> In s xs.
Proof.
  unfold Dedup.includes_source. rewrite existsb_exists. split.
  - intros [x [Hin He]]. apply Source_eqb_eq in He. now subst.
  - intros Hin. exists s. split; [exact Hin | now apply Source_eqb_eq].
Qed.

(** What the body of the loop does to the provider tags and to the
    score of an entry that is already in the map. *)
Lemma absorb_seen (existing : MergedResult.t) (r : SearchResult.t) :
  In (SearchResult.source r) (MergedResult.sources existing) ->
  MergedResult.sources (Dedup.absorb existing r) = MergedResult.sources existing /\
  MergedResult.relevanceScore (Dedup.absorb existing r)
  = MergedResult.relevanceScore existing.
Proof.
  intros H. apply includes_source_In in H. unfold Dedup.absorb. cbn.
  now rewrite H.
Qed.

Lemma absorb_new (existing : MergedResult.t) (r : SearchResult.t) :
  ~ In (SearchResult.source r) (MergedResult.sources existing) ->
  MergedResult.sources (Dedup.absorb existing r)
  = (MergedResult.sources existing ++ [SearchResult.source r])%list /\
  MergedResult.relevanceScore (Dedup.absorb existing r)
  = Double.add (MergedResult.relevanceScore existing) 1.
Proof.
  intros H. unfold Dedup.absorb. cbn.
  destruct (Dedup.includes_source _ _) eqn:E.
  - apply includes_source_In in E. contradiction.
  - split; reflexivity.
Qed.

Lemma absorb_identity (existing : MergedResult.t) (r : SearchResult.t) :
  MergedResult.url (Dedup.absorb existing r) = MergedResult.url existing /\
  MergedResult.normalizedUrl (Dedup.absorb existing r) = MergedResult.normalizedUrl existing.
Proof. split; reflexivity. Qed.

Local Abbreviation well_formed := (Spec.well_formed URL_new).

Lemma absorb_well_formed (existing : MergedResult.t) (r : SearchResult.t) :
  well_formed existing -> well_formed (Dedup.absorb existing r).
Proof.
  intros [N K]. split; [|exact K].
  destruct (Dedup.includes_source (MergedResult.sources existing) (SearchResult.source r))
    eqn:E.
  1: apply includes_source_In in E; rename E into I.
  2: assert (I : ~ In (SearchResult.source r) (MergedResult.sources existing))
       by (intros I; apply includes_source_In in I; congruence).
  - now rewrite (proj1 (absorb_seen existing r I)).
  - rewrite (proj1 (absorb_new existing r I)).
    apply NoDup_app; [exact N | repeat constructor; intros [] | ].
    intros x Hx [Hy|[]]. subst. contradiction.
Qed.

Lemma seed_well_formed (r : SearchResult.t) :
  well_formed (Dedup.seed (Dedup.normalizeUrl URL_new (SearchResult.url r)) r).
Proof. split; [repeat constructor; intros [] | reflexivity]. Qed.

Lemma merge_step_well_formed (map : JsMap.t MergedResult.t) (r : SearchResult.t) :
  Forall well_formed (JsMap.values map) ->
  Forall well_formed (JsMap.values (Dedup.merge_step URL_new map r)).
Proof.
  intros F. unfold Dedup.merge_step.
  destruct (JsMap.get map _) as [existing|] eqn:G.
  - apply Forall_values_mutate; [exact F|].
    apply absorb_well_formed.
    rewrite Forall_forall in F. apply F. eapply get_In_values; eauto.
  - apply Forall_values_set; [exact F | apply seed_well_formed].
Qed.

Lemma merge_loop_well_formed (results : list SearchResult.t)
                             (map : JsMap.t MergedResult.t) :
  Forall well_formed (JsMap.values map) ->
  Forall well_formed (JsMap.values (fold_left (Dedup.merge_step URL_new) results map)).
Proof.
  revert map. induction results as [|r results IH]; intros map F; cbn; [exact F|].
  apply IH, merge_step_well_formed, F.
Qed.
End MergeFacts.

(** C6.  Every record returned by [mergeResults] has pairwise distinct
    provider tags, and its [normalizedUrl] is [normalizeUrl] of its
    [url]; this holds for every input list and every URL parser. *)
Theorem mergeResults_invariant
        (URL_new : string -> option URL) (results : list SearchResult.t) :
  Forall (fun m =>
            NoDup (MergedResult.sources m) /\
            MergedResult.normalizedUrl m = Dedup.normalizeUrl URL_new (MergedResult.url m))
         (Dedup.mergeResults URL_new results).
Proof.
  apply (merge_loop_well_formed URL_new results []). constructor.
Qed.

(** C2, counterexample.  A page reported by Exa with the score 0.7 and
    then by Firecrawl: the record made by the first report has the score
    1 + 0.7, a double; the second report appends its provider and adds
    1 to the score as doubles are added, and the sum is not the score
    plus 1. *)
Lemma mergeResults_increment_is_rounded :
  exists first merged,
    Dedup.mergeResults Whatwg.URL_new [MoreSamples.scored] = [first] /\
    Dedup.mergeResults Whatwg.URL_new [MoreSamples.scored; MoreSamples.unscored] = [merged] /\
    MergedResult.sources first = [Source.exa] /\
    MergedResult.sources merged = [Source.exa; Source.firecrawl] /\
    MergedResult.relevanceScore first = (7656119366529843 # 4503599627370496)%Q /\
    MergedResult.relevanceScore merged = (3039929748475085 # 1125899906842624)%Q /\
    ~ (MergedResult.relevanceScore merged == MergedResult.relevanceScore first + 1)%Q.
Proof.
  eexists. eexists.
  split; [vm_compute; reflexivity|]. split; [vm_compute; reflexivity|].
  cbn [MergedResult.sources MergedResult.relevanceScore].
  repeat split. vm_compute. discriminate.
Qed.

(** C2, amended.  The two results of the specification's example,
    reported by two different providers and carrying no score, are
    merged into a single record whose tags are the two providers in the
    order seen and whose score is 2.  In general, when the key of an
    incoming result is already in the map, the entry stays where it is;
    a provider that is already listed changes neither the tags nor the
    score, and a new provider is appended to the tags and the score
    becomes the sum of the score and 1 as doubles are added: exactly 1
    more when that sum is a double, the nearest double otherwise. *)
Theorem mergeResults_accumulates_sources :
  (forall (A B : Source.t) (t1 s1 t2 s2 : string) (c1 d1 c2 d2 : option string),
      A <> B ->
      exists m,
        Dedup.mergeResults Whatwg.URL_new
          [SearchResult.mk "https://a.com/x" t1 s1 c1 d1 A None;
           SearchResult.mk "http://www.a.com/x/" t2 s2 c2 d2 B None] = [m] /\
        MergedResult.sources m = [A; B] /\
        MergedResult.relevanceScore m = 2%Q)
  /\
  (forall (URL_new : string -> option URL) (map : JsMap.t MergedResult.t)
          (r : SearchResult.t) (existing : MergedResult.t),
      JsMap.get map (Dedup.normalizeUrl URL_new (SearchResult.url r)) = Some existing ->
      exists merged,
        JsMap.get (Dedup.merge_step URL_new map r)
                  (Dedup.normalizeUrl URL_new (SearchResult.url r)) = Some merged /\
        JsMap.keys (Dedup.merge_step URL_new map r) = JsMap.keys map /\
        (In (SearchResult.source r) (MergedResult.sources existing) ->
         MergedResult.sources merged = MergedResult.sources existing /\
         MergedResult.relevanceScore merged = MergedResult.relevanceScore existing) /\
        (~ In (SearchResult.source r) (MergedResult.sources existing) ->
         MergedResult.sources merged
         = (MergedResult.sources existing ++ [SearchResult.source r])%list /\
         MergedResult.relevanceScore merged
         = Double.add (MergedResult.relevanceScore existing) 1 /\
         (Double.representable (MergedResult.relevanceScore existing + 1) = true ->
          (MergedResult.relevanceScore merged == MergedResult.relevanceScore existing + 1)%Q))).
Proof.
  split.
  - intros A B t1 s1 t2 s2 c1 d1 c2 d2 NE.
    assert (K1 : Dedup.normalizeUrl Whatwg.URL_new "https://a.com/x" = "a.com/x")
      by reflexivity.
    assert (K2 : Dedup.normalizeUrl Whatwg.URL_new "http://www.a.com/x/" = "a.com/x")
      by reflexivity.
    unfold Dedup.mergeResults, Dedup.merge_loop. cbn [fold_left].
    unfold Dedup.merge_step. cbn [SearchResult.url]. rewrite K1, K2.
    cbn [JsMap.get]. unfold JsMap.set. cbn [JsMap.get app].
    change (String.eqb "a.com/x" "a.com/x") with true.
    cbn [JsMap.get JsMap.mutate JsMap.values List.map snd].
    change (String.eqb "a.com/x" "a.com/x") with true. cbn [List.map snd].
    eexists. split; [reflexivity|].
    unfold Dedup.absorb, Dedup.seed.
    cbn [MergedResult.sources MergedResult.relevanceScore SearchResult.source
         SearchResult.score Dedup.includes_source existsb orb negb].
    assert (Two : Double.add (Double.add 1 0) 1 = 2%Q) by (vm_compute; reflexivity).
    destruct A, B; try congruence; cbn; rewrite Two; split; reflexivity.
  - intros URL_new map r existing G.
    exists (Dedup.absorb existing r).
    unfold Dedup.merge_step. rewrite G.
    split; [eapply get_mutate_same; eauto|].
    split; [apply keys_mutate|].
    split; [apply absorb_seen|].
    intros N. destruct (absorb_new existing r N) as [S1 S2].
    split; [exact S1|]. split; [exact S2|].
    intros E. rewrite S2. now apply add_exact.
Qed.

Lemma mergeResults_accumulates_sources_witness :
  (exists m,
      Dedup.mergeResults Whatwg.URL_new
        [SearchResult.mk "https://a.com/x" "A" "first" None None Source.exa None;
         SearchResult.mk "http://www.a.com/x/" "A" "second" None None Source.perplexity None]
      = [m] /\
      MergedResult.sources m = [Source.exa; Source.perplexity] /\
      MergedResult.relevanceScore m = 2%Q)
  /\
  (exists merged,
      JsMap.get
        (Dedup.merge_step Whatwg.URL_new
           [("a.com/x",
             MergedResult.mk "https://a.com/x" "a.com/x" "A" "first" None None
                             [Source.exa] 1)]
           (SearchResult.mk "http://www.a.com/x/" "A" "second" None None Source.exa None))
        "a.com/x" = Some merged /\
      MergedResult.sources merged = [Source.exa] /\
      MergedResult.relevanceScore merged = 1%Q)
  /\
  (exists merged,
      JsMap.get
        (Dedup.merge_step Whatwg.URL_new
           [("a.com/x",
             MergedResult.mk "https://a.com/x" "a.com/x" "A" "first" None None
                             [Source.exa] 1)]
           (SearchResult.mk "http://www.a.com/x/" "A" "second" None None
                            Source.firecrawl None))
        "a.com/x" = Some merged /\
      MergedResult.sources merged = [Source.exa; Source.firecrawl] /\
      (MergedResult.relevanceScore merged == 1 + 1)%Q).
Proof.
  split; [|split].
  - apply (proj1 mergeResults_accumulates_sources). discriminate.
  - destruct (proj2 mergeResults_accumulates_sources Whatwg.URL_new
                [("a.com/x",
                  MergedResult.mk "https://a.com/x" "a.com/x" "A" "first" None None
                                  [Source.exa] 1)]
                (SearchResult.mk "http://www.a.com/x/" "A" "second" None None Source.exa None)
                (MergedResult.mk "https://a.com/x" "a.com/x" "A" "first" None None
                                 [Source.exa] 1)
                eq_refl) as [merged [G [_ [Seen _]]]].
    exists merged. split; [exact G|]. apply Seen. left. reflexivity.
  - destruct (proj2 mergeResults_accumulates_sources Whatwg.URL_new
                [("a.com/x",
                  MergedResult.mk "https://a.com/x" "a.com/x" "A" "first" None None
                                  [Source.exa] 1)]
                (SearchResult.mk "http://www.a.com/x/" "A" "second" None None
                                 Source.firecrawl None)
                (MergedResult.mk "https://a.com/x" "a.com/x" "A" "first" None None
                                 [Source.exa] 1)
                eq_refl) as [merged [G [_ [_ New]]]].
    exists merged. split; [exact G|].
    destruct New as [S1 [_ S3]].
    + intros [H|[]]. discriminate.
    + split; [exact S1|]. apply S3. reflexivity.
Defined.

(* ===================================================================== *)
(** * Properties of [rankByRelevance]                                     *)
(* ===================================================================== *)

Section SortFacts.
Context {A : Type} (cmp : A -> A -> Q).

Local Abbreviation after := (Dedup.after cmp).
Local Abbreviation insert := (Dedup.insert cmp).
Local Abbreviation sort := (Dedup.sort cmp).

Lemma insert_perm (x : A) (l : list A) : Permutation (x :: l) (insert x l).
Proof.
  induction l as [|y r IH]; cbn; [reflexivity|].
  destruct (after x y); [|reflexivity].
  rewrite perm_swap. now constructor.
Qed.

Lemma sort_perm (l : list A) : Permutation l (sort l).
Proof.
  induction l as [|x l IH]; cbn; [constructor|].
  rewrite <- insert_perm. now constructor.
Qed.

(** Stability: a class of elements none of which moves behind another
    one of the class is left in its original order. *)
Section Stable.
Variable p : A -> bool.
Hypothesis ties : forall x y, p x = true -> p y = true -> after x y = false.

Lemma filter_insert (x : A) (l : list A) :
  filter p (insert x l) = filter p (x :: l).
Proof.
  induction l as [|y r IH]; [reflexivity|].
  cbn [Dedup.insert]. destruct (after x y) eqn:E; [|reflexivity].
  cbn [filter] in *. rewrite IH.
  destruct (p x) eqn:Px, (p y) eqn:Py; try reflexivity.
  rewrite (ties x y Px Py) in E. discriminate.
Qed.

Lemma filter_sort (l : list A) : filter p (sort l) = filter p l.
Proof.
  induction l as [|x l IH]; [reflexivity|].
  cbn [Dedup.sort fold_right]. rewrite filter_insert. cbn [filter].
  fold (sort l). now rewrite IH.
Qed.
End Stable.

(** Sortedness, for an order that the comparator decides. *)
Section Sorted.
Variable R : A -> A -> Prop.
Hypothesis R_trans : forall x y z, R x y -> R y z -> R x z.
Hypothesis not_after : forall x y, after x y = false -> R x y.
Hypothesis is_after : forall x y, after x y = true -> R y x.

Lemma insert_Forall (P : A -> Prop) (x : A) (l : list A) :
  P x -> Forall P l -> Forall P (insert x l).
Proof.
  intros Px F. eapply Permutation_Forall; [apply insert_perm|]. now constructor.
Qed.

Lemma insert_sorted (x : A) (l : list A) :
  StronglySorted R l -> StronglySorted R (insert x l).
Proof.
  induction 1 as [|y r S IH F]; cbn.
  - repeat constructor.
  - destruct (after x y) eqn:E.
    + constructor; [exact IH|]. apply insert_Forall; [now apply is_after | exact F].
    + constructor; [now constructor|].
      constructor; [now apply not_after|].
      eapply Forall_impl; [|exact F]. intros z. apply R_trans. now apply not_after.
Qed.

Lemma sort_sorted (l : list A) : StronglySorted R (sort l).
Proof.
  induction l as [|x l IH]; cbn; [constructor | now apply insert_sorted].
Qed.
End Sorted.
End SortFacts.

Section RankFacts.
Import Spec.

Lemma after_compareFn (a b : MergedResult.t) :
  Dedup.after Dedup.compareFn a b = true <->
  (count a < count b)%nat \/
  (count a = count b /\ (MergedResult.relevanceScore a < MergedResult.relevanceScore b)%Q).
Proof.
  unfold Dedup.after, Dedup.compareFn. fold (count a) (count b).
  destruct (count b =? count a)%nat eqn:E; cbn [negb].
  - apply Nat.eqb_eq in E.
    destruct (0 ?= _)%Q eqn:C.
    + split; [discriminate|]. intros [H|[_ H]]; [lia|].
      apply Qeq_alt in C. rewrite (Qlt_minus_iff _ _) in H.
      rewrite <- C in H. now apply Qlt_irrefl in H.
    + apply Qlt_alt in C. split; [|reflexivity]. intros _. right. split; [lia|].
      now apply Qlt_minus_iff.
    + split; [discriminate|]. intros [H|[_ H]]; [lia|].
      apply Qgt_alt in C. apply Qlt_minus_iff in H.
      exfalso. eapply Qlt_irrefl, Qlt_trans; eauto.
  - apply Nat.eqb_neq in E.
    destruct (0 ?= _)%Q eqn:C.
    + split; [discriminate|]. intros [H|[H _]]; [|lia].
      apply Qeq_alt in C. unfold Qeq in C. cbn in C. lia.
    + apply Qlt_alt in C. unfold Qlt in C. cbn in C. split; [|reflexivity].
      intros _. left. lia.
    + split; [discriminate|]. intros [H|[H _]]; [|lia].
      apply Qgt_alt in C. unfold Qlt in C. cbn in C. lia.
Qed.

Lemma not_after_compareFn (a b : MergedResult.t) :
  Dedup.after Dedup.compareFn a b = false <-> ranks_no_lower a b.
Proof.
  unfold ranks_no_lower.
  destruct (Dedup.after Dedup.compareFn a b) eqn:E.
  - apply after_compareFn in E. split; [discriminate|].
    intros [H|[H1 H2]]; destruct E as [E|[E1 E2]]; try lia.
    exfalso. eapply Qlt_irrefl, Qlt_le_trans; eauto.
  - split; [|reflexivity]. intros _.
    destruct (lt_eq_lt_dec (count a) (count b)) as [[L|Eq]|G].
    + assert (Dedup.after Dedup.compareFn a b = true) by (apply after_compareFn; auto).
      congruence.
    + right. split; [exact Eq|].
      destruct (Qlt_le_dec (MergedResult.relevanceScore a) (MergedResult.relevanceScore b))
        as [L|L]; [|exact L].
      assert (Dedup.after Dedup.compareFn a b = true) by (apply after_compareFn; auto).
      congruence.
    + now left.
Qed.

Lemma ranks_no_lower_trans (a b c : MergedResult.t) :
  ranks_no_lower a b -> ranks_no_lower b c -> ranks_no_lower a c.
Proof.
  unfold ranks_no_lower. intros [H1|[H1 Q1]] [H2|[H2 Q2]]; try (left; lia).
  right. split; [lia|]. eapply Qle_trans; eauto.
Qed.

Lemma after_ranks_no_lower (a b : MergedResult.t) :
  Dedup.after Dedup.compareFn a b = true -> ranks_no_lower b a.
Proof.
  intros H. apply after_compareFn in H. unfold ranks_no_lower.
  destruct H as [H|[H1 H2]]; [now left|]. right. split; [lia | now apply Qlt_le_weak].
Qed.

Lemma same_rank_ties (n : nat) (q : Q) (a b : MergedResult.t) :
  same_rank n q a = true -> same_rank n q b = true ->
  Dedup.after Dedup.compareFn a b = false.
Proof.
  unfold same_rank. intros Ha Hb.
  apply andb_prop in Ha, Hb. destruct Ha as [Na Qa], Hb as [Nb Qb].
  apply Nat.eqb_eq in Na, Nb. apply Qeq_bool_iff in Qa, Qb.
  apply not_after_compareFn. right. split; [lia|].
  rewrite Qa, Qb. apply Qle_refl.
Qed.

(** In a list sorted by [ranks_no_lower], an entry never stands after
    one with fewer providers. *)
Lemma sorted_counts (l pre mid post : list MergedResult.t) (a b : MergedResult.t) :
  StronglySorted ranks_no_lower l ->
  l = (pre ++ a :: mid ++ b :: post)%list ->
  (count b <= count a)%nat.
Proof.
  intros S ->. revert S. induction pre as [|x pre IH]; cbn; intros S.
  - inversion S as [|? ? _ F]; subst. rewrite Forall_forall in F.
    assert (ranks_no_lower a b) as [H|[H _]]
        by (apply F, in_or_app; right; now left); lia.
  - inversion S; subst. auto.
Qed.
End RankFacts.

(** C3.  [rankByRelevance] returns a rearrangement of its input that is
    sorted by number of providers, descending, then by score,
    descending; the entries that agree on both keep their original
    order; and an entry that stands before another one never has fewer
    providers, so every entry with strictly more providers comes first. *)
Theorem rankByRelevance_stable_sort (results : list MergedResult.t) :
  Permutation results (Dedup.rankByRelevance results) /\
  StronglySorted Spec.ranks_no_lower (Dedup.rankByRelevance results) /\
  (forall (n : nat) (q : Q),
      filter (Spec.same_rank n q) (Dedup.rankByRelevance results)
      = filter (Spec.same_rank n q) results) /\
  (forall (pre mid post : list MergedResult.t) (a b : MergedResult.t),
      Dedup.rankByRelevance results = (pre ++ a :: mid ++ b :: post)%list ->
      (Spec.count b <= Spec.count a)%nat).
Proof.
  assert (S : StronglySorted Spec.ranks_no_lower (Dedup.rankByRelevance results)).
  { apply sort_sorted.
    - apply ranks_no_lower_trans.
    - intros x y. apply not_after_compareFn.
    - apply after_ranks_no_lower. }
  repeat split.
  - apply sort_perm.
  - exact S.
  - intros n q. apply filter_sort. apply same_rank_ties.
  - intros pre mid post a b E. eapply sorted_counts; eauto.
Qed.

(** The ranking example of the specification: provider counts 1, 2, 2, 1
    with the score of the second at least that of the third. *)
Example rankByRelevance_example :
  List.map MergedResult.url (Dedup.rankByRelevance Samples.ranking_input)
  = ["R2"; "R3"; "R1"; "R4"].
Proof. reflexivity. Qed.

Lemma rankByRelevance_stable_sort_witness :
  Nat.le (Spec.count Samples.R4) (Spec.count Samples.R2).
Proof.
  apply (proj2 (proj2 (proj2 (rankByRelevance_stable_sort Samples.ranking_input)))
               [] [Samples.R3; Samples.R1] []).
  reflexivity.
Defined.

(* ===================================================================== *)
(** * Properties of the parallel execution engine                         *)
(* ===================================================================== *)

Section AsyncFacts.
Import Async Spec.

Lemma enqueue_perm (e : Event) (q : list Event) : Permutation (e :: q) (enqueue e q).
Proof.
  induction q as [|e' r IH]; cbn; [reflexivity|].
  destruct (instant e' <? instant e)%N; [|reflexivity].
  rewrite perm_swap. now constructor.
Qed.

Lemma in_settle_order_perm (es : list Event) : Permutation es (in_settle_order es).
Proof.
  induction es as [|e es IH]; cbn; [constructor|].
  rewrite <- enqueue_perm. now constructor.
Qed.

Lemma messages_perm (es es' : list Event) :
  Permutation es es' -> Permutation (messages es) (messages es').
Proof. intros H. unfold messages. now apply Permutation_flat_map. Qed.

Lemma errors_react logger l tag (es : list Event) (st : State) :
  errors (fold_left (react logger l tag) es st) = (errors st ++ messages es)%list.
Proof.
  revert st. induction es as [|e es IH]; intros st; cbn.
  - now rewrite app_nil_r.
  - rewrite IH. unfold react. destruct (failure e); cbn; [|reflexivity].
    now rewrite <- app_assoc.
Qed.

(** The handlers push exactly the messages of the rejected branches,
    in the order in which the branches settle. *)
Lemma errors_deliver logger l tag (es : list Event) (st : State) :
  errors (deliver logger l tag es st) = (errors st ++ messages (in_settle_order es))%list.
Proof. apply errors_react. Qed.

Lemma errors_deliver_perm logger l tag (es : list Event) (st : State) :
  Permutation (errors (deliver logger l tag es st)) (errors st ++ messages es).
Proof.
  rewrite errors_deliver. apply Permutation_app_head.
  apply messages_perm. symmetry. apply in_settle_order_perm.
Qed.

Lemma filter_perm {A} (p : A -> bool) (l l' : list A) :
  Permutation l l' -> Permutation (filter p l) (filter p l').
Proof.
  induction 1 as [|x l l' _ IH|x y l|l l' l'' _ IH1 _ IH2]; cbn.
  - constructor.
  - destruct (p x); [now constructor | exact IH].
  - destruct (p x), (p y); try reflexivity. apply perm_swap.
  - now transitivity (filter p l').
Qed.

(** A rearrangement of a list with at most one element is the list. *)
Lemma perm_short {A} (l l' : list A) :
  (List.length l' <= 1)%nat -> Permutation l l' -> l = l'.
Proof.
  intros L H. destruct l' as [|x [|y r]]; cbn in L; [| |lia].
  - symmetry in H. now apply Permutation_nil in H.
  - symmetry in H. now apply Permutation_length_1_inv in H.
Qed.
End AsyncFacts.

Section ParallelFacts.
Import Async Spec.

Lemma or_null_safeCall {T} (p : Promise T) (timeoutMs : N) :
  Parallel.or_null (Parallel.safeCall p timeoutMs)
  = Fulfilled (expected_slot (behaviour p timeoutMs)).
Proof.
  unfold Parallel.or_null, Parallel.safeCall, behaviour.
  destruct p as [|t [v|e]]; cbn; [reflexivity| |];
    destruct (t <? timeoutMs)%N; reflexivity.
Qed.

Lemma on_reject_safeCall {T} (name : string) (p : Promise T) (timeoutMs : N) :
  messages [Parallel.on_reject name (Parallel.safeCall p timeoutMs)]
  = expected_errors name timeoutMs (behaviour p timeoutMs).
Proof.
  unfold Parallel.on_reject, Parallel.safeCall, behaviour, messages.
  destruct p as [|t [v|e]]; cbn; [reflexivity| |];
    destruct (t <? timeoutMs)%N; reflexivity.
Qed.

Lemma messages_three (a b c : Event) :
  messages [a; b; c] = (messages [a] ++ messages [b] ++ messages [c])%list.
Proof. unfold messages. cbn. now rewrite !app_nil_r. Qed.

Lemma expected_errors_short {T} name timeoutMs (b : Behaviour T) :
  (List.length (expected_errors name timeoutMs b) <= 1)%nat.
Proof. destruct b; cbn; lia. Qed.

Lemma prefix_empty (s : string) : prefix "" s = true.
Proof. now destruct s. Qed.

(** Among the messages expected of the three providers, each bracketed
    name selects those of its own provider. *)
Lemma attributed_expected {E F P} (be : Behaviour E) (bf : Behaviour F) (bp : Behaviour P) :
  let all := (expected_errors "Exa" 120000 be ++ expected_errors "Firecrawl" 120000 bf
              ++ expected_errors "Perplexity" 180000 bp)%list in
  attributed "Exa" all = expected_errors "Exa" 120000 be /\
  attributed "Firecrawl" all = expected_errors "Firecrawl" 120000 bf /\
  attributed "Perplexity" all = expected_errors "Perplexity" 180000 bp.
Proof.
  destruct be, bf, bp; repeat split; cbn; rewrite ?prefix_empty; reflexivity.
Qed.
End ParallelFacts.

(** C1.  Whatever the three provider calls do (resolve, reject, or hang
    past their timeout), [parallelServices] fulfils its promise and
    never rejects.  Each slot holds the value of a provider that
    resolved in time, unchanged, and null otherwise.  The returned
    errors are, up to order, one message per provider that failed, and
    the messages that start with the bracketed name of a provider are
    exactly the one message of that provider when it failed and none
    when it succeeded. *)
Theorem parallelServices_degrades_gracefully
        {E F P : Type} (calls : Calls.t E F P) (logger : option Async.Logger) :
  let be := Spec.behaviour (Calls.exa calls) 120000 in
  let bf := Spec.behaviour (Calls.firecrawl calls) 120000 in
  let bp := Spec.behaviour (Calls.perplexity calls) 180000 in
  exists r tr,
    Parallel.parallelServices calls logger = (Async.Fulfilled r, tr) /\
    ParallelResults.exa r = Spec.expected_slot be /\
    ParallelResults.firecrawl r = Spec.expected_slot bf /\
    ParallelResults.perplexity r = Spec.expected_slot bp /\
    Permutation (ParallelResults.errors r)
                (Spec.expected_errors "Exa" 120000 be
                 ++ Spec.expected_errors "Firecrawl" 120000 bf
                 ++ Spec.expected_errors "Perplexity" 180000 bp) /\
    Spec.attributed "Exa" (ParallelResults.errors r) = Spec.expected_errors "Exa" 120000 be /\
    Spec.attributed "Firecrawl" (ParallelResults.errors r)
    = Spec.expected_errors "Firecrawl" 120000 bf /\
    Spec.attributed "Perplexity" (ParallelResults.errors r)
    = Spec.expected_errors "Perplexity" 180000 bp.
Proof.
  intros be bf bp.
  unfold Parallel.parallelServices.
  rewrite !or_null_safeCall. fold be bf bp. cbn [Parallel.all3].
  set (st0 := Async.mkState [] _).
  set (evs := [Parallel.on_reject "Exa" _; Parallel.on_reject "Firecrawl" _;
               Parallel.on_reject "Perplexity" _]).
  set (st1 := Async.deliver logger Async.error "[parallel] " evs st0).
  assert (Perm : Permutation (Async.errors st1)
                   (Spec.expected_errors "Exa" 120000 be
                    ++ Spec.expected_errors "Firecrawl" 120000 bf
                    ++ Spec.expected_errors "Perplexity" 180000 bp)).
  { subst st1. rewrite errors_deliver_perm. subst st0 evs. cbn [Async.errors app].
    rewrite messages_three, !on_reject_safeCall. reflexivity. }
  destruct (attributed_expected be bf bp) as [Ae [Af Ap]].
  eexists. eexists. split; [reflexivity|]. cbn [ParallelResults.exa
    ParallelResults.firecrawl ParallelResults.perplexity ParallelResults.errors].
  repeat split; try exact Perm.
  - rewrite <- Ae. apply perm_short.
    + rewrite Ae. apply expected_errors_short.
    + apply filter_perm, Perm.
  - rewrite <- Af. apply perm_short.
    + rewrite Af. apply expected_errors_short.
    + apply filter_perm, Perm.
  - rewrite <- Ap. apply perm_short.
    + rewrite Ap. apply expected_errors_short.
    + apply filter_perm, Perm.
Qed.

(** Total failure is an ordinary outcome: three calls that never settle
    give three empty slots and three timeout messages, the two shorter
    timeouts first. *)
Example parallelServices_total_failure :
  fst (Parallel.parallelServices Samples.all_hang None)
  = Async.Fulfilled
      (ParallelResults.mk None None None
         ["[Exa] Timeout after 120000ms"; "[Firecrawl] Timeout after 120000ms";
          "[Perplexity] Timeout after 180000ms"]).
Proof. reflexivity. Qed.

(* ===================================================================== *)
(** * Properties of [batchProcess]                                        *)
(* ===================================================================== *)

Section SliceFacts.
Context {A : Type}.

Lemma firstn_beyond (n : nat) (l : list A) :
  firstn (Nat.min n (List.length l)) l = firstn n l.
Proof.
  destruct (Nat.le_gt_cases n (List.length l)) as [H|H].
  - now rewrite Nat.min_l.
  - rewrite Nat.min_r by lia. rewrite !firstn_all2; auto; lia.
Qed.

(** [xs.slice(i, i + b)] for an index and a size that are not
    negative: the next [b] elements from position [i]. *)
Lemma slice_forward (i b : Z) (xs : list A) :
  (0 <= i)%Z -> (0 <= b)%Z ->
  Js.slice i (i + b) xs = firstn (Z.to_nat b) (skipn (Z.to_nat i) xs).
Proof.
  intros Hi Hb. unfold Js.slice.
  destruct (i <? 0)%Z eqn:E1; [apply Z.ltb_lt in E1; lia|].
  destruct (i + b <? 0)%Z eqn:E2; [apply Z.ltb_lt in E2; lia|].
  set (len := Z.of_nat (List.length xs)).
  destruct (Z.le_gt_cases i len) as [L|G].
  - rewrite (Z.min_l i len L).
    rewrite <- (firstn_beyond (Z.to_nat b)). f_equal.
    rewrite length_skipn. subst len. lia.
  - rewrite (Z.min_r i len) by lia.
    subst len. rewrite Nat2Z.id.
    rewrite !skipn_all2 by lia. now rewrite !firstn_nil.
Qed.

Lemma In_firstn_skipn (n k : nat) (l : list A) (x : A) :
  In x (firstn n (skipn k l)) -> In x l.
Proof.
  intros H.
  rewrite <- (firstn_skipn k l). apply in_or_app. right.
  rewrite <- (firstn_skipn n (skipn k l)). apply in_or_app. now left.
Qed.

Lemma In_slice (s e : Z) (xs : list A) (x : A) : In x (Js.slice s e xs) -> In x xs.
Proof. unfold Js.slice. apply In_firstn_skipn. Qed.

Lemma length_positive (xs : list A) : xs <> [] -> (0 < Z.of_nat (List.length xs))%Z.
Proof. destruct xs; [congruence | cbn; lia]. Qed.
End SliceFacts.

Section BatchFacts.
Import Async Spec.
Context {T R : Type}.
Variable items : list T.
Variable batchSize : Z.
Variable processor : T -> Promise R.

Local Abbreviation f := (fun item => Parallel.slot (processor item)).

Lemma messages_app (a b : list Event) :
  messages (a ++ b) = (messages a ++ messages b)%list.
Proof. apply flat_map_app. Qed.

Lemma messages_batch_events (i idx : Z) (batch : list T) :
  messages (Parallel.batch_events processor i idx batch)
  = batch_failures processor (i + idx) batch.
Proof.
  revert idx. induction batch as [|item rest IH]; intros idx; [reflexivity|].
  cbn [Parallel.batch_events batch_failures].
  rewrite messages_app, IH, Z.add_assoc. f_equal.
  unfold Parallel.item_event. now destruct (processor item) as [|t [v|e]].
Qed.

Lemma batch_failures_split (k : nat) (pos : Z) (l : list T) :
  (batch_failures processor pos (firstn k l)
   ++ batch_failures processor (pos + Z.of_nat k) (skipn k l))%list
  = batch_failures processor pos l.
Proof.
  revert pos l. induction k as [|k IH]; intros pos l.
  - cbn. now rewrite Z.add_0_r.
  - destruct l as [|x r]; [reflexivity|].
    cbn [firstn skipn batch_failures]. rewrite <- app_assoc. f_equal.
    rewrite <- (IH (pos + 1)%Z r). do 2 f_equal. lia.
Qed.

Hypothesis settle : forall item, In item items -> processor item <> Never.

Lemma batch_settles (s e : Z) :
  forallb (fun item => Parallel.settles (processor item)) (Js.slice s e items) = true.
Proof.
  apply forallb_forall. intros x Hx. apply In_slice in Hx.
  specialize (settle x Hx). unfold Parallel.settles.
  now destruct (processor x).
Qed.

Section Advancing.
Hypothesis positive : (1 <= batchSize)%Z.

(** The loop of utils/parallel.ts from index [n] on. *)
Lemma loop_done logger (fuel : nat) :
  forall (n : nat) (results : list (option R)) (st : State),
    (List.length items - n < fuel)%nat ->
    exists st',
      Parallel.loop items batchSize processor logger fuel (Z.of_nat n) results st
      = Done (Parallel.Result.mk (results ++ List.map f (skipn n items)) (errors st'),
              log st') /\
      Permutation (errors st')
                  (errors st ++ batch_failures processor (Z.of_nat n) (skipn n items)).
Proof.
  induction fuel as [|fuel IH]; intros n results st Hfuel; [lia|].
  cbn [Parallel.loop].
  destruct (Z.of_nat n <? Z.of_nat (List.length items))%Z eqn:C.
  - apply Z.ltb_lt in C. rewrite batch_settles.
    rewrite slice_forward by lia. rewrite Nat2Z.id.
    set (b := Z.to_nat batchSize).
    set (st1 := mkState (errors st) _).
    set (st2 := deliver logger warn "[batch] " _ st1).
    replace (Z.of_nat n + batchSize)%Z with (Z.of_nat (n + b)) by (subst b; lia).
    destruct (IH (n + b)%nat
                 (results ++ List.map f (firstn b (skipn n items)))%list st2)
      as [st' [Run Perm]]; [subst b; lia|].
    exists st'. split.
    + rewrite Run. do 3 f_equal.
      rewrite <- app_assoc. f_equal. rewrite <- map_app. f_equal.
      replace (skipn (n + b) items) with (skipn b (skipn n items))
        by (rewrite skipn_skipn; f_equal; lia).
      apply firstn_skipn.
    + rewrite Perm. subst st2. rewrite errors_deliver_perm.
      subst st1. cbn [errors]. rewrite messages_batch_events, Z.add_0_r.
      rewrite <- app_assoc. apply Permutation_app_head.
      rewrite <- (batch_failures_split b (Z.of_nat n) (skipn n items)).
      rewrite skipn_skipn, (Nat.add_comm b n), Nat2Z.inj_add. reflexivity.
  - apply Z.ltb_ge in C. exists st.
    rewrite skipn_all2 by lia. cbn. now rewrite !app_nil_r.
Qed.

(** The loop of the earlier revision from index [n] on. *)
Lemma loop0_done (fuel : nat) :
  forall (n : nat) (results : list (option R)),
    (List.length items - n < fuel)%nat ->
    Parallel0.loop items batchSize processor fuel (Z.of_nat n) results
    = Done (results ++ List.map f (skipn n items))%list.
Proof.
  induction fuel as [|fuel IH]; intros n results Hfuel; [lia|].
  cbn [Parallel0.loop].
  destruct (Z.of_nat n <? Z.of_nat (List.length items))%Z eqn:C.
  - apply Z.ltb_lt in C. rewrite batch_settles.
    rewrite slice_forward by lia. rewrite Nat2Z.id.
    set (b := Z.to_nat batchSize).
    replace (Z.of_nat n + batchSize)%Z with (Z.of_nat (n + b)) by (subst b; lia).
    rewrite IH by (subst b; lia). f_equal.
    rewrite <- app_assoc. f_equal. rewrite <- map_app. f_equal.
    replace (skipn (n + b) items) with (skipn b (skipn n items))
      by (rewrite skipn_skipn; f_equal; lia).
    apply firstn_skipn.
  - apply Z.ltb_ge in C.
    rewrite skipn_all2 by lia. cbn. now rewrite !app_nil_r.
Qed.
End Advancing.

Section Stalling.
Hypothesis not_positive : (batchSize <= 0)%Z.
Hypothesis non_empty : items <> [].

(** With a batch size that is not positive the index stays at or
    below zero: the loop of utils/parallel.ts is still running
    after any number of iterations. *)
Lemma loop_running logger (fuel : nat) :
  forall (i : Z) (results : list (option R)) (st : State),
    (i <= 0)%Z ->
    Parallel.loop items batchSize processor logger fuel i results st = OutOfFuel.
Proof.
  pose proof (length_positive items non_empty) as L.
  induction fuel as [|fuel IH]; intros i results st Hi; [reflexivity|].
  cbn [Parallel.loop].
  destruct (i <? Z.of_nat (List.length items))%Z eqn:C;
    [|apply Z.ltb_ge in C; lia].
  rewrite batch_settles. apply IH. lia.
Qed.

Lemma loop0_running (fuel : nat) :
  forall (i : Z) (results : list (option R)),
    (i <= 0)%Z ->
    Parallel0.loop items batchSize processor fuel i results = OutOfFuel.
Proof.
  pose proof (length_positive items non_empty) as L.
  induction fuel as [|fuel IH]; intros i results Hi; [reflexivity|].
  cbn [Parallel0.loop].
  destruct (i <? Z.of_nat (List.length items))%Z eqn:C;
    [|apply Z.ltb_ge in C; lia].
  rewrite batch_settles. apply IH. lia.
Qed.
End Stalling.
End BatchFacts.

Section StallingFacts.
Import Async.
Context {T R : Type}.
Variable items : list T.
Variable batchSize : Z.
Variable processor : T -> Promise R.
Hypothesis not_positive : (batchSize <= 0)%Z.
Hypothesis non_empty : items <> [].

(** Whatever the calls do, the loop never reaches its exit. *)
Lemma loop_never_done logger (fuel : nat) :
  forall (i : Z) (results : list (option R)) (st : State) out,
    (i <= 0)%Z ->
    Parallel.loop items batchSize processor logger fuel i results st <> Done out.
Proof.
  pose proof (length_positive items non_empty) as L.
  induction fuel as [|fuel IH]; intros i results st out Hi; [discriminate|].
  cbn [Parallel.loop].
  destruct (i <? Z.of_nat (List.length items))%Z eqn:C;
    [|apply Z.ltb_ge in C; lia].
  destruct (forallb _ _); [apply IH; lia | discriminate].
Qed.

Lemma loop0_never_done (fuel : nat) :
  forall (i : Z) (results : list (option R)) out,
    (i <= 0)%Z ->
    Parallel0.loop items batchSize processor fuel i results <> Done out.
Proof.
  pose proof (length_positive items non_empty) as L.
  induction fuel as [|fuel IH]; intros i results out Hi; [discriminate|].
  cbn [Parallel0.loop].
  destruct (i <? Z.of_nat (List.length items))%Z eqn:C;
    [|apply Z.ltb_ge in C; lia].
  destruct (forallb _ _); [apply IH; lia | discriminate].
Qed.
End StallingFacts.

(** C7, counterexample.  The items 1 to 5 in batches of 2, with a
    transform whose call on 4 never settles: the first batch completes,
    the second is awaited for ever, and [batchProcess] returns no
    results at all, whatever the bound on the iterations. *)
Lemma batchProcess_returns_nothing_on_pending_call :
  MoreSamples.stuck 4 = Async.Never /\
  Parallel.batchProcess [1; 2; 3; 4; 5]%Z 2 MoreSamples.stuck None 6 = Async.Blocked /\
  ~ (exists fuel out,
        Parallel.batchProcess [1; 2; 3; 4; 5]%Z 2 MoreSamples.stuck None fuel
        = Async.Done out).
Proof.
  split; [reflexivity|]. split; [reflexivity|].
  intros [fuel [out H]].
  destruct fuel as [|[|fuel]]; vm_compute in H; discriminate.
Qed.

(** C7, amended.  For a batch size of at least 1 and a transform whose calls all
    settle, [batchProcess] completes; its results have the length of the
    input, the result at each index is the value of the call on the item
    at that index when the call succeeded and null when it failed, and
    its errors are, up to the order in which the calls of one batch
    settle, one message per failed item, carrying the index of the
    item.  On [1,2,3,4,5] with batch size 2, when only the call on 3
    fails, the results are [f(1), f(2), null, f(4), f(5)] and there is
    one error, for index 2. *)
Theorem batchProcess_preserves_order :
  (forall (T R : Type) (items : list T) (batchSize : Z)
          (processor : T -> Async.Promise R) (logger : option Async.Logger) (fuel : nat),
      (1 <= batchSize)%Z ->
      (forall item, In item items -> processor item <> Async.Never) ->
      (List.length items < fuel)%nat ->
      exists r tr,
        Parallel.batchProcess items batchSize processor logger fuel = Async.Done (r, tr) /\
        List.length (Parallel.Result.results r) = List.length items /\
        (forall (i : nat) (item : T),
            nth_error items i = Some item ->
            nth_error (Parallel.Result.results r) i
            = Some match processor item with
                   | Async.At _ (Async.Fulfilled v) => Some v
                   | _ => None
                   end) /\
        Permutation (Parallel.Result.errors r) (Spec.batch_failures processor 0 items))
  /\
  (forall (R : Type) (f : Z -> Async.Promise R) (logger : option Async.Logger)
          (t1 t2 t3 t4 t5 : N) (v1 v2 v4 v5 : R) (e : Async.Thrown),
      f 1%Z = Async.At t1 (Async.Fulfilled v1) ->
      f 2%Z = Async.At t2 (Async.Fulfilled v2) ->
      f 3%Z = Async.At t3 (Async.Rejected e) ->
      f 4%Z = Async.At t4 (Async.Fulfilled v4) ->
      f 5%Z = Async.At t5 (Async.Fulfilled v5) ->
      exists tr,
        Parallel.batchProcess [1; 2; 3; 4; 5]%Z 2 f logger 6
        = Async.Done
            (Parallel.Result.mk [Some v1; Some v2; None; Some v4; Some v5]
                                ["Batch item 2: " ++ Async.describe e],
             tr)).
Proof.
  assert (General :
    forall (T R : Type) (items : list T) (batchSize : Z)
           (processor : T -> Async.Promise R) (logger : option Async.Logger) (fuel : nat),
      (1 <= batchSize)%Z ->
      (forall item, In item items -> processor item <> Async.Never) ->
      (List.length items < fuel)%nat ->
      exists r tr,
        Parallel.batchProcess items batchSize processor logger fuel = Async.Done (r, tr) /\
        Parallel.Result.results r
        = List.map (fun item => Parallel.slot (processor item)) items /\
        Permutation (Parallel.Result.errors r) (Spec.batch_failures processor 0 items)).
  { intros T R items batchSize processor logger fuel Hb Hs Hf.
    destruct (loop_done items batchSize processor Hs Hb logger fuel 0 []
                        (Async.mkState [] [])) as [st' [Run Perm]]; [lia|].
    eexists. eexists. split; [exact Run|]. split; [reflexivity | exact Perm]. }
  split.
  - intros T R items batchSize processor logger fuel Hb Hs Hf.
    destruct (General T R items batchSize processor logger fuel Hb Hs Hf)
      as [r [tr [Run [Res Perm]]]].
    exists r, tr. split; [exact Run|]. rewrite Res.
    split; [apply length_map|]. split; [|exact Perm].
    intros i item Hi. rewrite nth_error_map, Hi. reflexivity.
  - intros R f logger t1 t2 t3 t4 t5 v1 v2 v4 v5 e H1 H2 H3 H4 H5.
    destruct (General Z R [1; 2; 3; 4; 5]%Z 2%Z f logger 6%nat)
      as [[results errors] [tr [Run [Res Perm]]]].
    + lia.
    + intros item [<-|[<-|[<-|[<-|[<-|[]]]]]]; congruence.
    + cbn; lia.
    + exists tr. rewrite Run. cbn in Res, Perm.
      rewrite H1, H2, H3, H4, H5 in Res, Perm. cbn in Res, Perm.
      symmetry in Perm. apply Permutation_length_1_inv in Perm.
      cbn [Parallel.Result.results Parallel.Result.errors] in Res, Perm.
      now rewrite Res, Perm.
Qed.

Lemma batchProcess_preserves_order_witness :
  (exists r tr,
      Parallel.batchProcess [1; 2; 3; 4; 5]%Z 2 Samples.square None 6 = Async.Done (r, tr) /\
      List.length (Parallel.Result.results r) = 5%nat)
  /\
  (exists tr,
      Parallel.batchProcess [1; 2; 3; 4; 5]%Z 2 Samples.square None 6
      = Async.Done
          (Parallel.Result.mk [Some 1; Some 4; None; Some 16; Some 25]%Z
                              ["Batch item 2: boom"], tr)).
Proof.
  split.
  - destruct (proj1 batchProcess_preserves_order Z Z [1; 2; 3; 4; 5]%Z 2%Z
                Samples.square None 6%nat)
      as [r [tr [Run [Len _]]]].
    + lia.
    + intros item [<-|[<-|[<-|[<-|[<-|[]]]]]]; discriminate.
    + cbn; lia.
    + exists r, tr. split; [exact Run | exact Len].
  - apply (proj2 batchProcess_preserves_order Z Samples.square None
             9%N 8%N 5%N 6%N 5%N 1%Z 4%Z 16%Z 25%Z (Async.ErrorObject "boom"));
      reflexivity.
Defined.

(** C10, counterexample.  A batch size of 1 and a single item whose
    call never settles: neither revision of [batchProcess] returns,
    whatever the bound on the iterations. *)
Lemma batchProcess_positive_batch_never_returns :
  Parallel.batchProcess [4]%Z 1 MoreSamples.stuck None 2 = Async.Blocked /\
  Parallel0.batchProcess [4]%Z 1 MoreSamples.stuck 2 = Async.Blocked /\
  ~ (exists fuel out,
        Parallel.batchProcess [4]%Z 1 MoreSamples.stuck None fuel = Async.Done out) /\
  ~ (exists fuel out,
        Parallel0.batchProcess [4]%Z 1 MoreSamples.stuck fuel = Async.Done out).
Proof.
  split; [reflexivity|]. split; [reflexivity|]. split.
  - intros [fuel [out H]]. destruct fuel as [|fuel]; vm_compute in H; discriminate.
  - intros [fuel [out H]]. destruct fuel as [|fuel]; vm_compute in H; discriminate.
Qed.

(** C10, amended.  When the batch size is at least 1 and the calls settle, both
    revisions of [batchProcess] complete within as many evaluations of
    the loop condition as there are items, plus one.  When the batch
    size is zero or negative and the list is not empty, neither revision
    ever completes, however many iterations are allowed: the index never
    exceeds zero, so the loop condition stays true; when the calls
    settle the loop is still running after any number of iterations. *)
Theorem batchProcess_terminates_only_for_positive_batch
        (T R : Type) (items : list T) (processor : T -> Async.Promise R)
        (logger : option Async.Logger) :
  (forall batchSize : Z,
      (1 <= batchSize)%Z ->
      (forall item, In item items -> processor item <> Async.Never) ->
      forall fuel : nat,
        (List.length items < fuel)%nat ->
        (exists out, Parallel.batchProcess items batchSize processor logger fuel
                     = Async.Done out) /\
        (exists out, Parallel0.batchProcess items batchSize processor fuel = Async.Done out))
  /\
  (forall batchSize : Z,
      (batchSize <= 0)%Z ->
      items <> [] ->
      forall fuel : nat,
        (forall out, Parallel.batchProcess items batchSize processor logger fuel
                     <> Async.Done out) /\
        (forall out, Parallel0.batchProcess items batchSize processor fuel <> Async.Done out) /\
        ((forall item, In item items -> processor item <> Async.Never) ->
         Parallel.batchProcess items batchSize processor logger fuel = Async.OutOfFuel /\
         Parallel0.batchProcess items batchSize processor fuel = Async.OutOfFuel)).
Proof.
  split.
  - intros batchSize Hb Hs fuel Hf. split.
    + destruct (loop_done items batchSize processor Hs Hb logger fuel 0 []
                          (Async.mkState [] [])) as [st' [Run _]]; [lia|].
      eexists. exact Run.
    + eexists. apply (loop0_done items batchSize processor Hs Hb fuel 0 []). lia.
  - intros batchSize Hb Hne fuel. repeat split.
    + intros out. apply loop_never_done; auto. lia.
    + intros out. apply loop0_never_done; auto. lia.
    + apply loop_running; auto. lia.
    + apply loop0_running; auto. lia.
Qed.

Lemma batchProcess_terminates_only_for_positive_batch_witness :
  (exists out, Parallel.batchProcess [1; 2; 3; 4; 5]%Z 1 Samples.square None 6
               = Async.Done out) /\
  Parallel.batchProcess [1; 2; 3; 4; 5]%Z 0 Samples.square None 1000 = Async.OutOfFuel /\
  Parallel0.batchProcess [1; 2; 3; 4; 5]%Z (-2) Samples.square 1000 = Async.OutOfFuel.
Proof.
  assert (S : forall item, In item [1; 2; 3; 4; 5]%Z -> Samples.square item <> Async.Never)
    by (intros item [<-|[<-|[<-|[<-|[<-|[]]]]]]; discriminate).
  pose proof (batchProcess_terminates_only_for_positive_batch
                Z Z [1; 2; 3; 4; 5]%Z Samples.square None) as [Pos Neg].
  split; [|split].
  - apply (Pos 1%Z); [lia | exact S | cbn; lia].
  - apply (Neg 0%Z); [lia | discriminate | exact S].
  - apply (Neg (-2)%Z); [lia | discriminate | exact S].
Defined.

(* ===================================================================== *)
(** * Properties of the formatters                                        *)
(* ===================================================================== *)

Section FormatterFacts.
Import Js.

(** Joining lines of which the first is not empty gives a text that is
    not empty. *)
Lemma join_nonempty (sep : string) (c : ascii) (x : string) (xs : list string) :
  join sep (String c x :: xs) <> "".
Proof. unfold join. destruct xs; cbn; discriminate. Qed.

Lemma slice_to_nil {A} (e : Z) : slice_to e (@nil A) = [].
Proof. unfold slice_to. apply firstn_nil. Qed.
End FormatterFacts.

(** C8, counterexample.  One formatter answers the empty input with the
    empty string: [formatErrors([])]. *)
Lemma formatErrors_empty_input_gives_empty_string :
  Formatters.formatErrors [] = "" /\ ~ Formatters.formatErrors [] <> "".
Proof. split; [reflexivity | intros H; apply H; reflexivity]. Qed.

(** C8, amended.  Each formatter is a total function of its input.
    [formatSearchResults] of no results is "No results found." and
    [formatComparison] of no items is "No items to compare.";
    [formatSearchResults], [formatSummary], [formatComparison] and
    [formatServiceStatus] never return the empty string; [formatErrors]
    returns the empty string for an empty list of errors and a text that
    is not empty for every other list. *)
Theorem formatters_on_empty_input :
  (forall options, Formatters.formatSearchResults [] options = "No results found.") /\
  (forall criteria, Formatters.formatComparison [] criteria = "No items to compare.") /\
  Formatters.formatErrors [] = "" /\
  (forall results options, Formatters.formatSearchResults results options <> "") /\
  (forall summary sources, Formatters.formatSummary summary sources <> "") /\
  (forall items criteria, Formatters.formatComparison items criteria <> "") /\
  (forall services, Formatters.formatServiceStatus services <> "") /\
  (forall errors, errors <> [] -> Formatters.formatErrors errors <> "").
Proof.
  repeat split.
  - intros options. unfold Formatters.formatSearchResults.
    now rewrite slice_to_nil.
  - intros results options. unfold Formatters.formatSearchResults.
    destruct (Js.slice_to _ results); [discriminate | apply join_nonempty].
  - intros summary sources. unfold Formatters.formatSummary. apply join_nonempty.
  - intros items criteria. unfold Formatters.formatComparison.
    destruct items; [discriminate | apply join_nonempty].
  - intros services. unfold Formatters.formatServiceStatus. discriminate.
  - intros errors H. unfold Formatters.formatErrors.
    destruct errors; [congruence | apply join_nonempty].
Qed.

Lemma formatters_on_empty_input_witness :
  Formatters.formatErrors ["[Exa] Timeout after 120000ms"] <> "".
Proof.
  apply (proj2 (proj2 (proj2 (proj2 (proj2 (proj2 (proj2 formatters_on_empty_input))))))).
  discriminate.
Defined.

(* ===================================================================== *)
(** * Properties of the mass-summary tool                                 *)
(* ===================================================================== *)

Section MassSummaryFacts.
Import Js Async Spec.
Variable URL_new : string -> option URL.
Variable exa : ExaClient.t.
Variable firecrawl : FirecrawlClient.t.
Variable perplexity : PerplexityClient.t.
Variable params : Params.t.

(** The first pass never rejects, and its Perplexity slot holds the
    answer of the collection call when that call resolved in time. *)
Lemma collectionResults_fulfilled :
  exists cr,
    MassSummary.collectionResults exa firecrawl perplexity params = Fulfilled cr /\
    ParallelResults.perplexity cr
    = expected_slot (behaviour (MassSummary.perplexity_branch perplexity params) 180000).
Proof.
  unfold MassSummary.collectionResults, Parallel0.parallelServices.
  rewrite !or_null_safeCall. cbn [Parallel.all3 Calls.perplexity].
  eexists. split; reflexivity.
Qed.

(** The content batches are fetched in groups of three: the batched
    step completes when every content request settles. *)
Lemma exaContents_done (batches : list (list string)) :
  (forall batch, ExaClient.getContents exa batch <> Never) ->
  exists contents, MassSummary.exaContents exa batches = Done contents.
Proof.
  intros Hs.
  assert (Hs' : forall batch, In batch batches -> MassSummary.fetch_batch exa batch <> Never).
  { intros batch _. unfold MassSummary.fetch_batch.
    specialize (Hs batch). now destruct (ExaClient.getContents exa batch) as [|t [v|e]]. }
  eexists. unfold MassSummary.exaContents, Parallel0.batchProcess.
  apply (loop0_done batches 3 (MassSummary.fetch_batch exa) Hs' ltac:(lia)
                    (S (List.length batches)) 0%nat []).
  lia.
Qed.

Lemma gather_done :
  (forall batch, ExaClient.getContents exa batch <> Never) ->
  exists cr snippets,
    MassSummary.gather URL_new exa firecrawl perplexity params
    = Done (Fulfilled (cr, snippets)).
Proof.
  intros Hs. unfold MassSummary.gather.
  destruct collectionResults_fulfilled as [cr [-> _]].
  destruct (exaContents_done
              (MassSummary.contentBatches (MassSummary.trimmedUrls URL_new params cr)) Hs)
    as [contents ->].
  eexists. eexists. reflexivity.
Qed.

Lemma gather_perplexity cr snippets :
  MassSummary.gather URL_new exa firecrawl perplexity params
  = Done (Fulfilled (cr, snippets)) ->
  ParallelResults.perplexity cr
  = expected_slot (behaviour (MassSummary.perplexity_branch perplexity params) 180000).
Proof.
  unfold MassSummary.gather.
  destruct collectionResults_fulfilled as [cr' [-> P]].
  destruct (MassSummary.exaContents _ _); try discriminate.
  intros H. inversion H; subst. exact P.
Qed.
End MassSummaryFacts.

(** C9.  In a run of the mass-summary tool that reaches the synthesis
    call, if that call rejects, the tool still returns its report, and
    the summary of the report is the text of the first-pass Perplexity
    answer when there is one and it is not empty, and otherwise the
    sentence "Summary based on N collected sources about "topic"." with
    N the number of trimmed unique URLs.  The first-pass answer is the
    one the collection call resolved with inside its timeout.  The run
    reaches the synthesis call whenever the content requests settle. *)
Theorem massSummary_synthesis_fallback
        (URL_new : string -> option URL)
        (exa : ExaClient.t) (firecrawl : FirecrawlClient.t) (perplexity : PerplexityClient.t)
        (params : Params.t)
        (cr : MassSummary.Collection) (snippets : list string)
        (t : N) (e : Async.Thrown) :
  MassSummary.gather URL_new exa firecrawl perplexity params
  = Async.Done (Async.Fulfilled (cr, snippets)) ->
  PerplexityClient.deepResearch perplexity (MassSummary.synthesis_prompt params snippets)
  = Async.At t (Async.Rejected e) ->
  let firstPass :=
    match Spec.behaviour (MassSummary.perplexity_branch perplexity params) 180000 with
    | Spec.Resolves answer => PerplexityClient.text answer
    | _ => ""
    end in
  let N := List.length (MassSummary.trimmedUrls URL_new params cr) in
  let summary :=
    match firstPass with
    | EmptyString =>
        "Summary based on " ++ Js.show_nat N ++ " collected sources about "
          ++ MassSummary.dq ++ Params.topic params ++ MassSummary.dq ++ "."
    | _ => firstPass
    end in
  MassSummary.execute URL_new exa firecrawl perplexity params
  = Async.Done (Async.Fulfilled (MassSummary.output URL_new params cr summary))
  /\ MassSummary.output URL_new params cr summary
     = Js.join Formatters.nl
         ["# Mass Summary: " ++ Params.topic params ++ Formatters.nl;
          "**Sources collected:** " ++ Js.show_nat N
            ++ " (target: " ++ Js.show_Z (MassSummary.minSources params) ++ "-"
            ++ Js.show_Z (MassSummary.maxSources params) ++ ")" ++ Formatters.nl;
          Formatters.formatSummary summary (MassSummary.sources URL_new params cr);
          Formatters0.formatErrors (ParallelResults.errors cr)].
Proof.
  intros G D firstPass N summary.
  split; [|reflexivity].
  unfold MassSummary.execute. rewrite G, D.
  do 3 f_equal. cbn [MassSummary.finalSummary].
  unfold MassSummary.fallback, MassSummary.perplexitySynthesis.
  subst summary firstPass N.
  rewrite (gather_perplexity URL_new exa firecrawl perplexity params cr snippets G).
  destruct (Spec.behaviour _ _) as [answer| |]; cbn [Spec.expected_slot]; try reflexivity.
  destruct (PerplexityClient.text answer); reflexivity.
Qed.

Lemma massSummary_synthesis_fallback_witness :
  (exists report,
      MassSummary.execute Whatwg.URL_new Samples.exa_client Samples.firecrawl_client
                          Samples.answering Samples.rust
      = Async.Done (Async.Fulfilled report)
      /\ Js.includes report "First pass." = true)
  /\
  (exists report,
      MassSummary.execute Whatwg.URL_new Samples.exa_client Samples.firecrawl_client
                          Samples.silent Samples.rust
      = Async.Done (Async.Fulfilled report)
      /\ Js.includes report
           ("Summary based on 1 collected sources about " ++ MassSummary.dq ++ "rust"
              ++ MassSummary.dq ++ ".") = true).
Proof.
  split.
  - eexists. split.
    + refine (proj1 (massSummary_synthesis_fallback
                       Whatwg.URL_new Samples.exa_client Samples.firecrawl_client
                       Samples.answering Samples.rust _ _ 300%N
                       (Async.ErrorObject "Perplexity API failed (429)") _ _)).
      * vm_compute. reflexivity.
      * reflexivity.
    + vm_compute. reflexivity.
  - eexists. split.
    + refine (proj1 (massSummary_synthesis_fallback
                       Whatwg.URL_new Samples.exa_client Samples.firecrawl_client
                       Samples.silent Samples.rust _ _ 300%N
                       (Async.ErrorObject "Perplexity API failed (401)") _ _)).
      * vm_compute. reflexivity.
      * reflexivity.
    + vm_compute. reflexivity.
Defined.

(* ===================================================================== *)
(** * Further properties of utils/dedup.ts                                *)
(* ===================================================================== *)

Section DedupUrlFacts.
Variable URL_new : string -> option URL.

Local Abbreviation key := (Dedup.normalizeUrl URL_new).
Local Abbreviation dedup_filter := (Dedup.dedup_filter URL_new).

Lemma seen_In (k : string) (seen : list string) :
  existsb (String.eqb k) seen = true <-> In k seen.
Proof.
  rewrite existsb_exists. split.
  - intros [x [Hin He]]. apply String.eqb_eq in He. now subst.
  - intros Hin. exists k. split; [exact Hin | apply String.eqb_refl].
Qed.

Lemma seen_not_In (k : string) (seen : list string) :
  existsb (String.eqb k) seen = false <-> ~ In k seen.
Proof.
  rewrite <- seen_In. destruct (existsb _ seen); split; intros; congruence.
Qed.

Lemma dedup_filter_subseq (seen : list string) (urls : list string) :
  Origin.Subseq (dedup_filter seen urls) urls.
Proof.
  revert seen. induction urls as [|u rest IH]; intros seen; cbn; [constructor|].
  destruct (existsb _ seen); constructor; apply IH.
Qed.

(** The kept URLs have keys outside [seen]. *)
Lemma dedup_filter_fresh (seen : list string) (urls : list string) (u : string) :
  In u (dedup_filter seen urls) -> ~ In (key u) seen.
Proof.
  revert seen. induction urls as [|v rest IH]; intros seen; cbn; [intros []|].
  destruct (existsb _ seen) eqn:E; [apply IH|].
  intros [<-|H]; [now apply seen_not_In|].
  intros Hin. apply (IH _ H). now right.
Qed.

Lemma dedup_filter_keys_NoDup (seen : list string) (urls : list string) :
  NoDup (List.map key (dedup_filter seen urls)).
Proof.
  revert seen. induction urls as [|u rest IH]; intros seen; cbn; [constructor|].
  destruct (existsb _ seen) eqn:E; [apply IH|].
  cbn. constructor; [|apply IH].
  intros Hin. apply in_map_iff in Hin. destruct Hin as [v [Hk Hv]].
  apply dedup_filter_fresh in Hv. apply Hv. left. now symmetry.
Qed.

(** Every key of the input is in [seen] or is the key of a kept URL. *)
Lemma dedup_filter_covers (seen : list string) (urls : list string) (u : string) :
  In u urls -> In (key u) seen \/ In (key u) (List.map key (dedup_filter seen urls)).
Proof.
  revert seen. induction urls as [|v rest IH]; intros seen; cbn; [intros []|].
  intros [<-|H].
  - destruct (existsb _ seen) eqn:E; [left; now apply seen_In | right; now left].
  - destruct (existsb _ seen) eqn:E; [now apply IH|].
    destruct (IH (key v :: seen) H) as [[Hk|Hs]|Hk].
    + right. left. exact Hk.
    + now left.
    + right. right. exact Hk.
Qed.

(** A URL whose key was not met before it is kept. *)
Lemma dedup_filter_first (seen : list string) (pre post : list string) (u : string) :
  ~ In (key u) seen -> ~ In (key u) (List.map key pre) ->
  In u (dedup_filter seen (pre ++ u :: post)).
Proof.
  revert seen. induction pre as [|v pre IH]; intros seen Hs Hp; cbn.
  - apply seen_not_In in Hs. rewrite Hs. now left.
  - cbn in Hp. destruct (existsb _ seen) eqn:E.
    + apply IH; [exact Hs | tauto].
    + right. apply IH; [|tauto]. intros [Hk|Hk]; [|contradiction]. apply Hp. now left.
Qed.

(** Filtering what the filter kept, against the same [seen], keeps
    everything. *)
Lemma dedup_filter_idem (seen : list string) (urls : list string) :
  dedup_filter seen (dedup_filter seen urls) = dedup_filter seen urls.
Proof.
  revert seen. induction urls as [|u rest IH]; intros seen; cbn; [reflexivity|].
  destruct (existsb _ seen) eqn:E; [apply IH|].
  cbn. rewrite E. f_equal. apply IH.
Qed.

Lemma dedup_filter_length (seen : list string) (urls : list string) :
  (List.length (dedup_filter seen urls) <= List.length urls)%nat.
Proof.
  revert seen. induction urls as [|u rest IH]; intros seen; cbn; [lia|].
  destruct (existsb _ seen); cbn.
  - specialize (IH seen). lia.
  - specialize (IH (key u :: seen)). lia.
Qed.
End DedupUrlFacts.

(** X1.  [deduplicateUrls] keeps a subsequence of its input in which no
    two URLs have the same key; every URL of the input has its key
    among the keys kept, and a URL whose key does not occur before it
    is itself kept. *)
Theorem deduplicateUrls_keeps_first_of_each_key
        (URL_new : string -> option URL) (urls : list string) :
  Origin.Subseq (Dedup.deduplicateUrls URL_new urls) urls /\
  NoDup (List.map (Dedup.normalizeUrl URL_new) (Dedup.deduplicateUrls URL_new urls)) /\
  (forall u, In u urls ->
             In (Dedup.normalizeUrl URL_new u)
                (List.map (Dedup.normalizeUrl URL_new) (Dedup.deduplicateUrls URL_new urls))) /\
  (forall pre u post,
      urls = (pre ++ u :: post)%list ->
      ~ In (Dedup.normalizeUrl URL_new u) (List.map (Dedup.normalizeUrl URL_new) pre) ->
      In u (Dedup.deduplicateUrls URL_new urls)).
Proof.
  unfold Dedup.deduplicateUrls. repeat split.
  - apply dedup_filter_subseq.
  - apply dedup_filter_keys_NoDup.
  - intros u H. destruct (dedup_filter_covers URL_new [] urls u H) as [[]|K]. exact K.
  - intros pre u post -> Hp. apply dedup_filter_first; [intros [] | exact Hp].
Qed.

Lemma deduplicateUrls_keeps_first_of_each_key_witness :
  In "https://a.com/x"
     (Dedup.deduplicateUrls Whatwg.URL_new
        ["https://a.com/x"; "http://www.a.com/x/"; "https://b.org/"]) /\
  In (Dedup.normalizeUrl Whatwg.URL_new "http://www.a.com/x/")
     (List.map (Dedup.normalizeUrl Whatwg.URL_new)
        (Dedup.deduplicateUrls Whatwg.URL_new
           ["https://a.com/x"; "http://www.a.com/x/"; "https://b.org/"])).
Proof.
  pose proof (deduplicateUrls_keeps_first_of_each_key Whatwg.URL_new
                ["https://a.com/x"; "http://www.a.com/x/"; "https://b.org/"])
    as [_ [_ [Cover First]]].
  split.
  - apply (First [] "https://a.com/x" ["http://www.a.com/x/"; "https://b.org/"]).
    + reflexivity.
    + intros [].
  - apply Cover. right. left. reflexivity.
Defined.

(** X2.  [deduplicateUrls] is idempotent, and it never returns more
    URLs than it was given. *)
Theorem deduplicateUrls_idempotent
        (URL_new : string -> option URL) (urls : list string) :
  Dedup.deduplicateUrls URL_new (Dedup.deduplicateUrls URL_new urls)
  = Dedup.deduplicateUrls URL_new urls /\
  (List.length (Dedup.deduplicateUrls URL_new urls) <= List.length urls)%nat.
Proof.
  split; [apply dedup_filter_idem | apply dedup_filter_length].
Qed.

Section MapEntryFacts.
Context {V : Type}.
Implicit Types (m : JsMap.t V) (k : string) (v : V).

Lemma get_None_keys m k : JsMap.get m k = None <-> ~ In k (JsMap.keys m).
Proof.
  induction m as [|[k' v'] m IH]; cbn; [tauto|].
  destruct (String.eqb k' k) eqn:E.
  - apply String.eqb_eq in E. split; [discriminate | intros H; exfalso; apply H; now left].
  - apply String.eqb_neq in E. rewrite IH. tauto.
Qed.

Lemma get_In_entry m k v : JsMap.get m k = Some v -> In (k, v) m.
Proof.
  induction m as [|[k' v'] m IH]; cbn; [discriminate|].
  destruct (String.eqb k' k) eqn:E.
  - apply String.eqb_eq in E. intros H; inversion H; subst. now left.
  - intros H. right. auto.
Qed.

Lemma get_mutate_None m k0 v k :
  JsMap.get (JsMap.mutate m k0 v) k = None <-> JsMap.get m k = None.
Proof. now rewrite !get_None_keys, keys_mutate. Qed.

Lemma get_app_None m k0 v k :
  JsMap.get (m ++ [(k0, v)])%list k = None <-> JsMap.get m k = None /\ k0 <> k.
Proof.
  rewrite !get_None_keys. unfold JsMap.keys. rewrite map_app, in_app_iff. cbn. tauto.
Qed.

Lemma set_fresh m k v : JsMap.get m k = None -> JsMap.set m k v = (m ++ [(k, v)])%list.
Proof. intros H. unfold JsMap.set. now rewrite H. Qed.

Lemma values_mutate_map {B} (f : V -> B) m k v existing :
  JsMap.get m k = Some existing -> f v = f existing ->
  List.map f (JsMap.values (JsMap.mutate m k v)) = List.map f (JsMap.values m).
Proof.
  intros G E. induction m as [|[k' v'] m IH]; cbn in *; [reflexivity|].
  destruct (String.eqb k' k); cbn.
  - inversion G; subst. now rewrite E.
  - f_equal. auto.
Qed.

(** Replacing the value stored under a key, in a map without duplicate
    keys, touches that entry only. *)
Lemma Forall_mutate_entries (P P' : string * V -> Prop) m k v :
  NoDup (JsMap.keys m) ->
  Forall P m ->
  (forall e, In e m -> fst e <> k -> P e -> P' e) ->
  P' (k, v) ->
  Forall P' (JsMap.mutate m k v).
Proof.
  intros N F Other Here. induction m as [|[k' v'] m IH]; cbn; [constructor|].
  cbn in N. inversion N as [|? ? Nk Nm]; subst. inversion F as [|? ? Pe Fm]; subst.
  destruct (String.eqb k' k) eqn:E.
  - apply String.eqb_eq in E. subst k'. constructor; [exact Here|].
    rewrite Forall_forall in *. intros [k1 v1] Hin. apply Other; [now right| |auto].
    cbn. intros ->. apply Nk. unfold JsMap.keys. apply in_map_iff. now exists (k, v1).
  - apply String.eqb_neq in E. constructor.
    + apply Other; [now left | exact E | exact Pe].
    + apply IH; auto. intros e Hin. apply Other. now right.
Qed.

Lemma find_app {A} (f : A -> bool) (l l' : list A) :
  find f (l ++ l') = match find f l with Some x => Some x | None => find f l' end.
Proof. induction l as [|x l IH]; cbn; [reflexivity|]. now destruct (f x). Qed.
End MapEntryFacts.

Lemma three_sources (all : list Source.t) : NoDup all -> (List.length all <= 3)%nat.
Proof.
  intros N.
  apply (NoDup_incl_length N (l' := [Source.exa; Source.firecrawl; Source.perplexity])).
  intros [] _; cbn; tauto.
Qed.

(** When every partial sum is a double, the additions that make a score
    are exact. *)
Lemma bumped_exact (n : nat) (s : Q) :
  (forall k, (1 <= k <= S n)%nat ->
             Double.representable (s + inject_Z (Z.of_nat k)) = true) ->
  (Origin.bumped n (Double.add 1 s) == s + inject_Z (Z.of_nat (S n)))%Q.
Proof.
  induction n as [|n IH]; intros H.
  - cbn [Origin.bumped Nat.iter]. unfold Double.add.
    rewrite (round_proper (1 + s) (s + inject_Z (Z.of_nat 1))) by (cbn; ring).
    apply Qeq_bool_iff. apply (H 1%nat). lia.
  - assert (IH' : (Origin.bumped n (Double.add 1 s) == s + inject_Z (Z.of_nat (S n)))%Q)
      by (apply IH; intros k Hk; apply H; lia).
    change (Origin.bumped (S n) (Double.add 1 s))
      with (Double.add (Origin.bumped n (Double.add 1 s)) 1).
    assert (E : (s + inject_Z (Z.of_nat (S n)) + 1 == s + inject_Z (Z.of_nat (S (S n))))%Q).
    { rewrite (Nat2Z.inj_succ (S n)). unfold Z.succ. rewrite inject_Z_plus. ring. }
    unfold Double.add.
    rewrite (round_proper _ (s + inject_Z (Z.of_nat (S (S n))))) by (rewrite IH'; exact E).
    apply Qeq_bool_iff. apply (H (S (S n))). lia.
Qed.

Section MergeOrigin.
Import Js.
Variable URL_new : string -> option URL.

Local Abbreviation key := (Dedup.normalizeUrl URL_new).
Local Abbreviation has_key := (Origin.has_key URL_new).
Local Abbreviation step := (Dedup.merge_step URL_new).
Local Abbreviation entry_ok := (Origin.entry_ok URL_new).
Local Abbreviation origin_inv := (Origin.origin_inv URL_new).

Lemma or_else_empty (s : string) : or_else s "" = s.
Proof. now destruct s. Qed.

Lemma truthy_opt_length (o : option string) :
  Dedup.truthy_opt o = false -> Dedup.length_opt o = 0%nat.
Proof. destruct o as [[|c s]|]; cbn; congruence. Qed.

Lemma absorb_snippet (existing : MergedResult.t) (r : SearchResult.t) :
  (String.length (MergedResult.snippet existing)
   <= String.length (MergedResult.snippet (Dedup.absorb existing r)))%nat /\
  (String.length (SearchResult.snippet r)
   <= String.length (MergedResult.snippet (Dedup.absorb existing r)))%nat.
Proof.
  unfold Dedup.absorb. cbn [MergedResult.snippet].
  destruct (truthy (SearchResult.snippet r)) eqn:T; cbn [andb].
  - destruct (Nat.ltb_spec (String.length (MergedResult.snippet existing))
                           (String.length (SearchResult.snippet r))); lia.
  - destruct (SearchResult.snippet r); [cbn; lia | discriminate].
Qed.

Lemma absorb_content (existing : MergedResult.t) (r : SearchResult.t) :
  (Dedup.length_opt (MergedResult.content existing)
   <= Dedup.length_opt (MergedResult.content (Dedup.absorb existing r)))%nat /\
  (Dedup.length_opt (SearchResult.content r)
   <= Dedup.length_opt (MergedResult.content (Dedup.absorb existing r)))%nat.
Proof.
  unfold Dedup.absorb. cbn [MergedResult.content].
  destruct (Dedup.truthy_opt (SearchResult.content r)) eqn:T; cbn [andb].
  - destruct (Dedup.truthy_opt (MergedResult.content existing)) eqn:Te; cbn [negb orb].
    + destruct (Nat.ltb_spec (Dedup.length_opt (MergedResult.content existing))
                             (Dedup.length_opt (SearchResult.content r))); lia.
    + rewrite (truthy_opt_length _ Te). lia.
  - rewrite (truthy_opt_length _ T). lia.
Qed.

Lemma has_key_self (r : SearchResult.t) : has_key (key (SearchResult.url r)) r = true.
Proof. unfold Origin.has_key. apply String.eqb_refl. Qed.

Lemma has_key_other (k : string) (r : SearchResult.t) :
  key (SearchResult.url r) <> k -> has_key k r = false.
Proof. intros H. unfold Origin.has_key. now apply String.eqb_neq. Qed.

(** Results under another key leave an entry as it is. *)
Lemma entry_ok_other (done : list SearchResult.t) (r : SearchResult.t)
      (e : string * MergedResult.t) :
  key (SearchResult.url r) <> fst e -> entry_ok done e -> entry_ok (done ++ [r]) e.
Proof.
  intros Ne [K [[r0 [F [U [T S]]]] [Src Len]]].
  pose proof (has_key_other _ _ Ne) as Hk.
  unfold Origin.entry_ok. cbn zeta.
  split; [exact K|]. split; [|split].
  - exists r0. unfold Origin.first_with_key in *. rewrite find_app, F. auto.
  - intros s. rewrite Src. split; intros [r' [Hin [Hh Hs]]]; exists r'.
    + split; [apply in_or_app; now left | auto].
    + apply in_app_or in Hin. destruct Hin as [Hin|[<-|[]]]; [auto | congruence].
  - intros r' Hin Hh. apply in_app_or in Hin.
    destruct Hin as [Hin|[<-|[]]]; [auto | congruence].
Qed.

Lemma entry_ok_absorb (done : list SearchResult.t) (r : SearchResult.t)
      (existing : MergedResult.t) :
  entry_ok done (key (SearchResult.url r), existing) ->
  entry_ok (done ++ [r]) (key (SearchResult.url r), Dedup.absorb existing r).
Proof.
  intros [K [[r0 [F [U [T [n [L Sc]]]]]] [Src Len]]]. cbn [fst snd] in *.
  pose proof (has_key_self r) as Hk.
  unfold Origin.entry_ok. cbn [fst snd].
  split; [exact K|]. split; [|split].
  - exists r0. unfold Origin.first_with_key in *. rewrite find_app, F.
    split; [reflexivity|]. split; [exact U|]. split; [exact T|].
    destruct (Dedup.includes_source (MergedResult.sources existing) (SearchResult.source r))
      eqn:E.
    + apply includes_source_In in E. destruct (absorb_seen existing r E) as [-> ->].
      exists n. split; [exact L | exact Sc].
    + assert (N : ~ In (SearchResult.source r) (MergedResult.sources existing))
        by (intros I; apply includes_source_In in I; congruence).
      destruct (absorb_new existing r N) as [-> ->].
      exists (S n). split.
      * rewrite length_app, L. cbn [List.length]. lia.
      * rewrite Sc. reflexivity.
  - intros s. split.
    + intros Hin.
      assert (In s (MergedResult.sources existing) \/ s = SearchResult.source r) as [H | ->].
      { destruct (Dedup.includes_source (MergedResult.sources existing)
                                        (SearchResult.source r)) eqn:E.
        - apply includes_source_In in E.
          rewrite (proj1 (absorb_seen existing r E)) in Hin. now left.
        - assert (N : ~ In (SearchResult.source r) (MergedResult.sources existing))
            by (intros I; apply includes_source_In in I; congruence).
          rewrite (proj1 (absorb_new existing r N)) in Hin.
          apply in_app_or in Hin. destruct Hin as [H|[<-|[]]]; auto. }
      * apply Src in H. destruct H as [r' [H1 [H2 H3]]].
        exists r'. split; [apply in_or_app; now left | auto].
      * exists r. split; [apply in_or_app; right; now left | auto].
    + intros [r' [Hin [Hh Hs]]].
      assert (In s (MergedResult.sources existing) \/ s = SearchResult.source r) as H.
      { apply in_app_or in Hin. destruct Hin as [Hin|[<-|[]]]; [left | now right].
        apply Src. now exists r'. }
      destruct (Dedup.includes_source (MergedResult.sources existing)
                                      (SearchResult.source r)) eqn:E.
      * apply includes_source_In in E.
        rewrite (proj1 (absorb_seen existing r E)). destruct H as [H| ->]; auto.
      * assert (N : ~ In (SearchResult.source r) (MergedResult.sources existing))
          by (intros I; apply includes_source_In in I; congruence).
        rewrite (proj1 (absorb_new existing r N)). apply in_or_app.
        destruct H as [H| ->]; [now left | right; now left].
  - intros r' Hin Hh.
    destruct (absorb_snippet existing r) as [S1 S2].
    destruct (absorb_content existing r) as [C1 C2].
    apply in_app_or in Hin. destruct Hin as [Hin|[<-|[]]].
    + destruct (Len r' Hin Hh). lia.
    + lia.
Qed.

Lemma entry_ok_seed (done : list SearchResult.t) (r : SearchResult.t) :
  find (has_key (key (SearchResult.url r))) done = None ->
  entry_ok (done ++ [r])
           (key (SearchResult.url r), Dedup.seed (key (SearchResult.url r)) r).
Proof.
  intros F. pose proof (has_key_self r) as Hk.
  unfold Origin.entry_ok. cbn [fst snd].
  split; [reflexivity|]. split; [|split].
  - exists r. unfold Origin.first_with_key. rewrite find_app, F. cbn [find]. rewrite Hk.
    split; [reflexivity|]. split; [reflexivity|]. split; [reflexivity|].
    exists 0%nat. split; reflexivity.
  - intros s. cbn [Dedup.seed MergedResult.sources]. split.
    + intros [<-|[]]. exists r. split; [apply in_or_app; right; now left | auto].
    + intros [r' [Hin [Hh Hs]]]. apply in_app_or in Hin.
      destruct Hin as [Hin|[<-|[]]]; [|now left].
      exfalso. eapply find_none in F; eauto. congruence.
  - intros r' Hin Hh. apply in_app_or in Hin.
    destruct Hin as [Hin|[<-|[]]].
    + exfalso. eapply find_none in F; eauto. congruence.
    + cbn [Dedup.seed MergedResult.snippet MergedResult.content].
      rewrite or_else_empty. lia.
Qed.

Lemma merge_step_origin (done : list SearchResult.t) (map : JsMap.t MergedResult.t)
      (r : SearchResult.t) :
  origin_inv done map -> origin_inv (done ++ [r]) (step map r).
Proof.
  intros [N [Absent Entries]]. unfold Dedup.merge_step.
  destruct (JsMap.get map (key (SearchResult.url r))) as [existing|] eqn:G.
  - split; [now rewrite keys_mutate|]. split.
    + intros k Hk. apply get_mutate_None in Hk.
      rewrite find_app, (Absent k Hk). cbn [find].
      rewrite has_key_other; [reflexivity|]. intros <-. congruence.
    + apply (Forall_mutate_entries (entry_ok done)); auto.
      * intros e _ Ne. apply entry_ok_other. congruence.
      * apply entry_ok_absorb.
        rewrite Forall_forall in Entries. apply Entries. now apply get_In_entry.
  - rewrite (set_fresh _ _ _ G). split; [|split].
    + unfold JsMap.keys. rewrite map_app. cbn.
      apply NoDup_app; [exact N | repeat constructor; intros [] |].
      intros k Hk [<-|[]]. now apply get_None_keys in G.
    + intros k Hk. apply get_app_None in Hk. destruct Hk as [Hk Ne].
      rewrite find_app, (Absent k Hk). cbn [find]. now rewrite has_key_other.
    + apply Forall_app. split.
      * rewrite Forall_forall in *. intros e Hin. apply entry_ok_other; auto.
        intros E. apply get_None_keys in G. apply G. rewrite E.
        unfold JsMap.keys. now apply in_map.
      * constructor; [|constructor]. apply entry_ok_seed. now apply Absent.
Qed.

Lemma merge_loop_origin (results done : list SearchResult.t)
      (map : JsMap.t MergedResult.t) :
  origin_inv done map ->
  origin_inv (done ++ results) (fold_left step results map).
Proof.
  revert done map. induction results as [|r results IH]; intros done map I; cbn.
  - now rewrite app_nil_r.
  - replace (done ++ r :: results)%list with ((done ++ [r]) ++ results)%list
      by (now rewrite <- app_assoc).
    apply IH, merge_step_origin, I.
Qed.

(** Every record returned by [mergeResults] satisfies [entry_ok] under
    its own key. *)
Lemma mergeResults_origin (results : list SearchResult.t) (m : MergedResult.t) :
  In m (Dedup.mergeResults URL_new results) ->
  entry_ok results (MergedResult.normalizedUrl m, m).
Proof.
  intros Hin. unfold Dedup.mergeResults, JsMap.values in Hin.
  apply in_map_iff in Hin. destruct Hin as [[k m'] [E Hin]]. cbn in E. subst m'.
  destruct (merge_loop_origin results [] []) as [_ [_ F]].
  { split; [constructor|]. split; [reflexivity | constructor]. }
  rewrite Forall_forall in F. specialize (F _ Hin). cbn [app] in F.
  pose proof (proj1 F) as K. cbn in K. now rewrite K.
Qed.

(** The URLs of the records, against [dedup_filter]. *)
Lemma merge_loop_urls (results : list SearchResult.t) :
  forall (map : JsMap.t MergedResult.t) (seen : list string),
    (forall k, In k seen <-> In k (JsMap.keys map)) ->
    List.map MergedResult.url (JsMap.values (fold_left step results map))
    = (List.map MergedResult.url (JsMap.values map)
       ++ Dedup.dedup_filter URL_new seen (List.map SearchResult.url results))%list.
Proof.
  induction results as [|r results IH]; intros map seen Same; cbn [fold_left List.map].
  - cbn. now rewrite app_nil_r.
  - cbn [Dedup.dedup_filter]. unfold Dedup.merge_step at 2.
    destruct (JsMap.get map (key (SearchResult.url r))) as [existing|] eqn:G.
    + assert (E : existsb (String.eqb (key (SearchResult.url r))) seen = true).
      { apply seen_In, Same. destruct (in_dec string_dec (key (SearchResult.url r))
                                                (JsMap.keys map)) as [I|I]; [exact I|].
        apply get_None_keys in I. congruence. }
      rewrite E. rewrite (IH _ seen).
      * f_equal. now apply values_mutate_map with (existing := existing).
      * intros k. now rewrite keys_mutate.
    + assert (E : existsb (String.eqb (key (SearchResult.url r))) seen = false).
      { apply seen_not_In. rewrite Same. now apply get_None_keys. }
      rewrite E, (set_fresh _ _ _ G).
      rewrite (IH _ (key (SearchResult.url r) :: seen)).
      * unfold JsMap.values. rewrite !map_app. cbn. now rewrite <- app_assoc.
      * intros k. unfold JsMap.keys. rewrite map_app, in_app_iff. cbn.
        fold (JsMap.keys map). rewrite <- Same. tauto.
Qed.
End MergeOrigin.

(** X3.  [mergeResults] returns one record per distinct key, in the
    order in which the keys are first seen: the URLs of its records are
    [deduplicateUrls] of the URLs of the input, no two records have the
    same [normalizedUrl], and there are never more records than
    results. *)
Theorem mergeResults_urls_are_deduplicateUrls
        (URL_new : string -> option URL) (results : list SearchResult.t) :
  List.map MergedResult.url (Dedup.mergeResults URL_new results)
  = Dedup.deduplicateUrls URL_new (List.map SearchResult.url results) /\
  NoDup (List.map MergedResult.normalizedUrl (Dedup.mergeResults URL_new results)) /\
  (List.length (Dedup.mergeResults URL_new results) <= List.length results)%nat.
Proof.
  assert (U : List.map MergedResult.url (Dedup.mergeResults URL_new results)
              = Dedup.deduplicateUrls URL_new (List.map SearchResult.url results)).
  { unfold Dedup.mergeResults, Dedup.merge_loop, Dedup.deduplicateUrls.
    rewrite (merge_loop_urls URL_new results [] []); [reflexivity|].
    intros k. cbn. tauto. }
  split; [exact U|]. split.
  - replace (List.map MergedResult.normalizedUrl (Dedup.mergeResults URL_new results))
      with (List.map (Dedup.normalizeUrl URL_new)
                     (List.map MergedResult.url (Dedup.mergeResults URL_new results))).
    + rewrite U. apply dedup_filter_keys_NoDup.
    + rewrite map_map. apply map_ext_in. intros m Hin.
      pose proof (merge_loop_well_formed URL_new results [] (Forall_nil _)) as F.
      rewrite Forall_forall in F. symmetry. apply (F m Hin).
  - rewrite <- (length_map MergedResult.url), U.
    rewrite <- (length_map SearchResult.url results). apply dedup_filter_length.
Qed.

(** X4.  Each record of [mergeResults] takes its URL and its title from
    the first result that has its key.  Its score is made from the score
    of that first result alone (zero when it has none): 1 is added to
    it, and 1 again for every further provider of the record, as doubles
    are added; the scores of later results with the same key are never
    added.  When every partial sum is a double, the score is the number
    of providers plus the score of the first result, and when the first
    result has no score it is the number of providers. *)
Theorem mergeResults_seeded_by_first_result
        (URL_new : string -> option URL) (results : list SearchResult.t) :
  Forall (fun m =>
            exists r n,
              Origin.first_with_key URL_new (MergedResult.normalizedUrl m) results = Some r /\
              MergedResult.url m = SearchResult.url r /\
              MergedResult.title m = Js.or_else (SearchResult.title r) (SearchResult.url r) /\
              List.length (MergedResult.sources m) = S n /\
              MergedResult.relevanceScore m
              = Origin.bumped n (Double.add 1 (Origin.score_or_zero r)) /\
              ((forall k, (1 <= k <= S n)%nat ->
                          Double.representable
                            (Origin.score_or_zero r + inject_Z (Z.of_nat k)) = true) ->
               (MergedResult.relevanceScore m
                == inject_Z (Z.of_nat (S n)) + Origin.score_or_zero r)%Q) /\
              (SearchResult.score r = None ->
               (MergedResult.relevanceScore m == inject_Z (Z.of_nat (S n)))%Q))
         (Dedup.mergeResults URL_new results).
Proof.
  apply Forall_forall. intros m Hin.
  destruct (proj1 (proj2 (mergeResults_origin URL_new results m Hin)))
    as [r [F [U [T [n [L Sc]]]]]].
  cbn [fst snd] in F, U, T, L, Sc.
  exists r, n. repeat (split; [assumption|]).
  assert (Exact :
    (forall k, (1 <= k <= S n)%nat ->
               Double.representable (Origin.score_or_zero r + inject_Z (Z.of_nat k)) = true) ->
    (MergedResult.relevanceScore m == inject_Z (Z.of_nat (S n)) + Origin.score_or_zero r)%Q).
  { intros H. rewrite Sc, (bumped_exact n (Origin.score_or_zero r) H). ring. }
  split; [exact Exact|].
  intros NoScore.
  assert (Z0 : Origin.score_or_zero r = 0%Q)
    by (unfold Origin.score_or_zero; now rewrite NoScore).
  rewrite Exact; [rewrite Z0; ring|]. intros k Hk.
  assert (W : Forall (Spec.well_formed URL_new) (Dedup.mergeResults URL_new results)).
  { unfold Dedup.mergeResults, Dedup.merge_loop.
    apply merge_loop_well_formed. constructor. }
  rewrite Forall_forall in W. destruct (W m Hin) as [ND _].
  apply three_sources in ND. rewrite L in ND. rewrite Z0.
  assert (k = 1 \/ k = 2 \/ k = 3)%nat as [-> | [-> | ->]] by lia; reflexivity.
Qed.

(** X5.  The providers listed by a record of [mergeResults] are exactly
    the providers of the results that have the key of the record. *)
Theorem mergeResults_sources_exact
        (URL_new : string -> option URL) (results : list SearchResult.t) :
  Forall (fun m =>
            forall s,
              In s (MergedResult.sources m) <->
              exists r, In r results /\
                        Dedup.normalizeUrl URL_new (SearchResult.url r)
                        = MergedResult.normalizedUrl m /\
                        SearchResult.source r = s)
         (Dedup.mergeResults URL_new results).
Proof.
  apply Forall_forall. intros m Hin s.
  destruct (mergeResults_origin URL_new results m Hin) as [_ [_ [Src _]]].
  cbn [fst snd] in Src. rewrite Src. unfold Origin.has_key.
  split; intros [r [H1 [H2 H3]]]; exists r; repeat split; auto.
  - now apply String.eqb_eq.
  - now apply String.eqb_eq.
Qed.

(** X6.  The snippet and the content of a record of [mergeResults] are
    at least as long as those of every result that has the key of the
    record. *)
Theorem mergeResults_keeps_longest_text
        (URL_new : string -> option URL) (results : list SearchResult.t) :
  Forall (fun m =>
            forall r,
              In r results ->
              Dedup.normalizeUrl URL_new (SearchResult.url r) = MergedResult.normalizedUrl m ->
              (String.length (SearchResult.snippet r)
               <= String.length (MergedResult.snippet m))%nat /\
              (Dedup.length_opt (SearchResult.content r)
               <= Dedup.length_opt (MergedResult.content m))%nat)
         (Dedup.mergeResults URL_new results).
Proof.
  apply Forall_forall. intros m Hin r Hr Hk.
  destruct (mergeResults_origin URL_new results m Hin) as [_ [_ [_ Len]]].
  apply Len; [exact Hr|]. unfold Origin.has_key. now apply String.eqb_eq.
Qed.

Section SortedInput.
Context {A : Type} (cmp : A -> A -> Q).
Variable R : A -> A -> Prop.
Hypothesis R_not_after : forall x y, R x y -> Dedup.after cmp x y = false.

(** A list that is already in order is left as it is. *)
Lemma sort_sorted_id (l : list A) : StronglySorted R l -> Dedup.sort cmp l = l.
Proof.
  induction 1 as [|x l S IH F]; [reflexivity|].
  cbn [Dedup.sort fold_right]. fold (Dedup.sort cmp l). rewrite IH.
  destruct l as [|y r]; [reflexivity|].
  cbn [Dedup.insert]. inversion F; subst. now rewrite R_not_after.
Qed.
End SortedInput.

(** X7.  Ranking a list that is already ranked changes nothing: a list
    in which every entry ranks no lower than the entries after it is
    returned as it is, and so [rankByRelevance] is idempotent.  The
    number of entries is kept. *)
Theorem rankByRelevance_idempotent (results : list MergedResult.t) :
  (StronglySorted Spec.ranks_no_lower results -> Dedup.rankByRelevance results = results) /\
  Dedup.rankByRelevance (Dedup.rankByRelevance results) = Dedup.rankByRelevance results /\
  List.length (Dedup.rankByRelevance results) = List.length results.
Proof.
  assert (Id : forall l, StronglySorted Spec.ranks_no_lower l -> Dedup.rankByRelevance l = l).
  { intros l. apply sort_sorted_id. intros x y. apply not_after_compareFn. }
  split; [apply Id|]. split.
  - apply Id. apply sort_sorted.
    + apply ranks_no_lower_trans.
    + intros x y. apply not_after_compareFn.
    + apply after_ranks_no_lower.
  - symmetry. apply Permutation_length, sort_perm.
Qed.

Lemma rankByRelevance_idempotent_witness :
  Dedup.rankByRelevance [Samples.R2; Samples.R3; Samples.R1; Samples.R4]
  = [Samples.R2; Samples.R3; Samples.R1; Samples.R4].
Proof.
  apply (proj1 (rankByRelevance_idempotent [Samples.R2; Samples.R3; Samples.R1; Samples.R4])).
  change [Samples.R2; Samples.R3; Samples.R1; Samples.R4]
    with (Dedup.rankByRelevance Samples.ranking_input).
  apply sort_sorted.
  - apply ranks_no_lower_trans.
  - intros x y. apply not_after_compareFn.
  - apply after_ranks_no_lower.
Defined.

(** X8.  For every parser and every input the key returned by
    [normalizeUrl] is in lower case; and when the host names of the
    parser never end in a slash, the key never ends in a slash. *)
Theorem normalizeUrl_key_shape (URL_new : string -> option URL) (url : string) :
  Js.toLowerCase (Dedup.normalizeUrl URL_new url) = Dedup.normalizeUrl URL_new url /\
  ((forall s r, URL_new s = Some r ->
                Js.strip_trailing_slashes (hostname r) = hostname r) ->
   Js.strip_trailing_slashes (Dedup.normalizeUrl URL_new url)
   = Dedup.normalizeUrl URL_new url).
Proof.
  split; [apply normalizeUrl_lowered|].
  intros H. now apply normalizeUrl_no_trailing_slash.
Qed.

Lemma normalizeUrl_key_shape_witness :
  Js.strip_trailing_slashes (Dedup.normalizeUrl Whatwg.URL_new "HTTPS://WWW.Example.COM/A//")
  = Dedup.normalizeUrl Whatwg.URL_new "HTTPS://WWW.Example.COM/A//".
Proof.
  apply (proj2 (normalizeUrl_key_shape Whatwg.URL_new "HTTPS://WWW.Example.COM/A//")).
  exact URL_new_hostname.
Defined.

(* ===================================================================== *)
(** * Further properties of utils/parallel.ts                             *)
(* ===================================================================== *)

Section ChunkFacts.
Context {T : Type}.
Variable arr : list T.
Variable size : Z.

Local Abbreviation b := (Z.to_nat size).

Lemma removelast_cons_cons {A} (x y : A) (l : list A) :
  removelast (x :: y :: l) = x :: removelast (y :: l).
Proof. reflexivity. Qed.

Lemma chunk_loop_done (fuel : nat) :
  (1 <= size)%Z ->
  forall (n : nat) (chunks : list (list T)),
    (List.length arr - n < fuel)%nat ->
    exists rest,
      Parallel.chunk_loop arr size fuel (Z.of_nat n) chunks = Some (chunks ++ rest)%list /\
      List.concat rest = skipn n arr /\
      Forall (fun c => (1 <= List.length c <= b)%nat) rest /\
      Forall (fun c => List.length c = b) (removelast rest).
Proof.
  intros Hs. induction fuel as [|fuel IH]; intros n chunks Hf; [lia|].
  cbn [Parallel.chunk_loop].
  destruct (Z.of_nat n <? Z.of_nat (List.length arr))%Z eqn:C.
  - apply Z.ltb_lt in C. rewrite slice_forward by lia. rewrite Nat2Z.id.
    replace (Z.of_nat n + size)%Z with (Z.of_nat (n + b)) by lia.
    destruct (IH (n + b)%nat (chunks ++ [firstn b (skipn n arr)])%list)
      as [rest [Run [Cat [Bounds Full]]]]; [lia|].
    exists (firstn b (skipn n arr) :: rest).
    assert (L : List.length (firstn b (skipn n arr)) = Nat.min b (List.length arr - n))
      by (now rewrite length_firstn, length_skipn).
    split; [|split; [|split]].
    + rewrite Run, <- app_assoc. reflexivity.
    + cbn [List.concat]. rewrite Cat.
      replace (skipn (n + b) arr) with (skipn b (skipn n arr))
        by (rewrite skipn_skipn; f_equal; lia).
      apply firstn_skipn.
    + constructor; [lia | exact Bounds].
    + destruct rest as [|c rest']; [constructor|].
      rewrite removelast_cons_cons. constructor; [|exact Full].
      rewrite L. apply Nat.min_l.
      assert (skipn (n + b) arr <> []) as NE.
      { rewrite <- Cat. inversion Bounds as [|? ? Hc _]; subst.
        destruct c; cbn in Hc; [lia | discriminate]. }
      destruct (Nat.le_gt_cases (List.length arr) (n + b)) as [Hle|Hgt]; [|lia].
      exfalso. apply NE. now apply skipn_all2.
  - apply Z.ltb_ge in C. exists []. rewrite app_nil_r.
    rewrite skipn_all2 by lia. repeat split; constructor.
Qed.

Lemma chunk_loop_running (fuel : nat) :
  (size <= 0)%Z -> arr <> [] ->
  forall (i : Z) (chunks : list (list T)),
    (i <= 0)%Z -> Parallel.chunk_loop arr size fuel i chunks = None.
Proof.
  intros Hs Hne. pose proof (length_positive arr Hne) as L.
  induction fuel as [|fuel IH]; intros i chunks Hi; [reflexivity|].
  cbn [Parallel.chunk_loop].
  destruct (i <? Z.of_nat (List.length arr))%Z eqn:C; [|apply Z.ltb_ge in C; lia].
  apply IH. lia.
Qed.
End ChunkFacts.

(** X9.  For a size of at least 1, [chunk] cuts the array into
    consecutive pieces: their concatenation is the array, no piece is
    empty or longer than the size, and every piece but the last has
    exactly the size.  For a size of zero or less the loop of [chunk]
    never ends on an array that is not empty. *)
Theorem chunk_partitions (T : Type) (arr : list T) (size : Z) :
  ((1 <= size)%Z ->
   forall fuel, (List.length arr < fuel)%nat ->
     exists chunks,
       Chunk.chunk arr size fuel = Some chunks /\
       List.concat chunks = arr /\
       Forall (fun c => (1 <= List.length c <= Z.to_nat size)%nat) chunks /\
       Forall (fun c => List.length c = Z.to_nat size) (removelast chunks))
  /\
  ((size <= 0)%Z -> arr <> [] -> forall fuel, Chunk.chunk arr size fuel = None).
Proof.
  split.
  - intros Hs fuel Hf.
    destruct (chunk_loop_done arr size fuel Hs 0 []) as [rest H]; [lia|].
    exists rest. exact H.
  - intros Hs Hne fuel. apply chunk_loop_running; auto. lia.
Qed.

Lemma chunk_partitions_witness :
  (exists chunks,
      Chunk.chunk [1; 2; 3; 4; 5]%Z 2 6 = Some chunks /\ List.concat chunks = [1; 2; 3; 4; 5]%Z)
  /\ Chunk.chunk [1; 2; 3; 4; 5]%Z 0 1000 = None.
Proof.
  destruct (chunk_partitions Z [1; 2; 3; 4; 5]%Z 2) as [Pos _].
  destruct (chunk_partitions Z [1; 2; 3; 4; 5]%Z 0) as [_ Neg].
  split.
  - destruct (Pos ltac:(lia) 6%nat ltac:(cbn; lia)) as [chunks [Run [Cat _]]].
    exists chunks. split; [exact Run | exact Cat].
  - apply Neg; [lia | discriminate].
Defined.

Section SilentFacts.
Import Async.

(** Without a logger the handlers leave the trace alone. *)
Lemma deliver_silent (l : Level) (tag : string) (es : list Event) (st : State) :
  log (deliver None l tag es st) = log st.
Proof.
  unfold deliver. generalize (in_settle_order es). clear es. intros es.
  revert st. induction es as [|e es IH]; intros st; cbn; [reflexivity|].
  rewrite IH. unfold react. now destruct (failure e).
Qed.
End SilentFacts.

Section LoggerFacts.
Import Async.
Context {T R : Type}.
Variable items : list T.
Variable batchSize : Z.
Variable processor : T -> Promise R.

(** The value computed by the loop does not depend on the logger. *)
Lemma loop_logger (logger logger' : option Logger) (fuel : nat) :
  forall (i : Z) (results : list (option R)) (st st' : State),
    errors st = errors st' ->
    Runs.map fst (Parallel.loop items batchSize processor logger fuel i results st)
    = Runs.map fst (Parallel.loop items batchSize processor logger' fuel i results st').
Proof.
  induction fuel as [|fuel IH]; intros i results st st' E; [reflexivity|].
  cbn [Parallel.loop].
  destruct (i <? Z.of_nat (List.length items))%Z; [|cbn; now rewrite E].
  destruct (forallb _ _); [|reflexivity].
  apply IH. rewrite !errors_deliver. cbn [errors]. now rewrite E.
Qed.

(** The loop of the earlier revision computes the same results. *)
Lemma loop_loop0 (logger : option Logger) (fuel : nat) :
  forall (i : Z) (results : list (option R)) (st : State),
    Runs.map (fun out => Parallel.Result.results (fst out))
             (Parallel.loop items batchSize processor logger fuel i results st)
    = Parallel0.loop items batchSize processor fuel i results.
Proof.
  induction fuel as [|fuel IH]; intros i results st; [reflexivity|].
  cbn [Parallel.loop Parallel0.loop].
  destruct (i <? Z.of_nat (List.length items))%Z; [|reflexivity].
  destruct (forallb _ _); [apply IH | reflexivity].
Qed.

Lemma loop_silent (fuel : nat) :
  forall (i : Z) (results : list (option R)) (st : State) out,
    log st = [] ->
    Parallel.loop items batchSize processor None fuel i results st = Done out ->
    snd out = [].
Proof.
  induction fuel as [|fuel IH]; intros i results st out L; [discriminate|].
  cbn [Parallel.loop].
  destruct (i <? Z.of_nat (List.length items))%Z.
  - destruct (forallb _ _); [|discriminate].
    apply IH. rewrite deliver_silent. cbn. exact L.
  - intros H; inversion H; subst. exact L.
Qed.
End LoggerFacts.

(** X10.  The logger only observes: [parallelServices] returns the same
    value with any logger as with none, and that value is the one the
    revision of the function without a logger returns. *)
Theorem parallelServices_ignores_logger
        {E F P : Type} (calls : Calls.t E F P) (logger : option Async.Logger) :
  fst (Parallel.parallelServices calls logger) = Parallel0.parallelServices calls /\
  snd (Parallel.parallelServices calls None) = [].
Proof.
  unfold Parallel.parallelServices, Parallel0.parallelServices.
  rewrite !or_null_safeCall. cbn [Parallel.all3 fst snd].
  rewrite !errors_deliver. split; [reflexivity|].
  cbn [Async.emit]. apply deliver_silent.
Qed.

(** X11.  The logger only observes [batchProcess] too: for every batch
    size and every bound on the iterations, the run with a logger
    returns the results and the errors of the run without one, which
    logs nothing, and the results are those of the earlier revision of
    the function, which returns no errors. *)
Theorem batchProcess_ignores_logger
        (T R : Type) (items : list T) (batchSize : Z) (processor : T -> Async.Promise R)
        (logger : option Async.Logger) (fuel : nat) :
  Runs.map fst (Parallel.batchProcess items batchSize processor logger fuel)
  = Runs.map fst (Parallel.batchProcess items batchSize processor None fuel) /\
  Runs.map (fun out => Parallel.Result.results (fst out))
           (Parallel.batchProcess items batchSize processor logger fuel)
  = Parallel0.batchProcess items batchSize processor fuel /\
  Runs.map snd (Parallel.batchProcess items batchSize processor None fuel)
  = Runs.map (fun _ => []) (Parallel.batchProcess items batchSize processor None fuel).
Proof.
  unfold Parallel.batchProcess, Parallel0.batchProcess. split; [|split].
  - now apply loop_logger.
  - apply loop_loop0.
  - destruct (Parallel.loop items batchSize processor None fuel 0 [] _) as [out| |] eqn:E;
      try reflexivity.
    cbn. f_equal.
    exact (loop_silent items batchSize processor fuel 0 [] (Async.mkState [] []) out
                       eq_refl E).
Qed.

Section BlockedFacts.
Import Async.
Context {T R : Type}.
Variable items : list T.
Variable batchSize : Z.
Variable processor : T -> Promise R.
Hypothesis positive : (1 <= batchSize)%Z.
Variable hanging : T.
Hypothesis hangs : processor hanging = Never.

Lemma batch_blocked (batch : list T) :
  In hanging batch ->
  forallb (fun item => Parallel.settles (processor item)) batch = false.
Proof.
  intros Hin. destruct (forallb _ batch) eqn:E; [|reflexivity].
  rewrite forallb_forall in E. specialize (E _ Hin).
  rewrite hangs in E. discriminate.
Qed.

(** From an index before the item whose call never settles, the loop
    reaches the batch of that item and stays there. *)
Lemma loop_blocked logger (fuel : nat) :
  forall (n : nat) (results : list (option R)) (st : State),
    In hanging (skipn n items) ->
    (List.length items - n < fuel)%nat ->
    Parallel.loop items batchSize processor logger fuel (Z.of_nat n) results st = Blocked.
Proof.
  induction fuel as [|fuel IH]; intros n results st Hin Hf; [lia|].
  cbn [Parallel.loop].
  assert (Hn : (n < List.length items)%nat).
  { destruct (Nat.le_gt_cases (List.length items) n) as [H|H]; [|exact H].
    rewrite skipn_all2 in Hin by exact H. destruct Hin. }
  destruct (Z.of_nat n <? Z.of_nat (List.length items))%Z eqn:C;
    [|apply Z.ltb_ge in C; lia].
  rewrite slice_forward by lia. rewrite Nat2Z.id.
  set (b := Z.to_nat batchSize).
  destruct (forallb _ (firstn b (skipn n items))) eqn:E; [|reflexivity].
  replace (Z.of_nat n + batchSize)%Z with (Z.of_nat (n + b)) by (subst b; lia).
  apply IH; [|subst b; lia].
  rewrite <- (firstn_skipn b (skipn n items)) in Hin. apply in_app_or in Hin.
  destruct Hin as [Hin|Hin].
  - rewrite (batch_blocked _ Hin) in E. discriminate.
  - rewrite skipn_skipn in Hin. now rewrite Nat.add_comm.
Qed.

Lemma loop0_blocked (fuel : nat) :
  forall (n : nat) (results : list (option R)),
    In hanging (skipn n items) ->
    (List.length items - n < fuel)%nat ->
    Parallel0.loop items batchSize processor fuel (Z.of_nat n) results = Blocked.
Proof.
  intros n results Hin Hf.
  rewrite <- (loop_loop0 items batchSize processor None fuel (Z.of_nat n) results
                         (mkState [] [])).
  now rewrite loop_blocked.
Qed.
End BlockedFacts.

(** X12.  [batchProcess] puts no timeout on the calls of the transform:
    for a batch size of at least 1, one item whose call never settles
    keeps both revisions of the function waiting for ever, whatever the
    other calls do. *)
Theorem batchProcess_blocks_on_pending_call
        (T R : Type) (items : list T) (batchSize : Z) (processor : T -> Async.Promise R)
        (logger : option Async.Logger) (hanging : T) (fuel : nat) :
  (1 <= batchSize)%Z ->
  In hanging items ->
  processor hanging = Async.Never ->
  (List.length items < fuel)%nat ->
  Parallel.batchProcess items batchSize processor logger fuel = Async.Blocked /\
  Parallel0.batchProcess items batchSize processor fuel = Async.Blocked.
Proof.
  intros Hb Hin Hh Hf. split.
  - apply (loop_blocked items batchSize processor Hb hanging Hh logger fuel 0); [exact Hin | lia].
  - apply (loop0_blocked items batchSize processor Hb hanging Hh fuel 0); [exact Hin | lia].
Qed.

Lemma batchProcess_blocks_on_pending_call_witness :
  Parallel.batchProcess [1; 2; 3; 4; 5]%Z 2 MoreSamples.stuck None 6 = Async.Blocked /\
  Parallel0.batchProcess [1; 2; 3; 4; 5]%Z 2 MoreSamples.stuck 6 = Async.Blocked.
Proof.
  apply (batchProcess_blocks_on_pending_call Z Z [1; 2; 3; 4; 5]%Z 2 MoreSamples.stuck
           None 4%Z 6).
  - lia.
  - cbn. tauto.
  - reflexivity.
  - cbn. lia.
Defined.

(* ===================================================================== *)
(** * Further properties of utils/formatters.ts                           *)
(* ===================================================================== *)

Section IncludesFacts.
Import Js.

Lemma append_assoc (a b c : string) : (a ++ b) ++ c = a ++ b ++ c.
Proof. induction a as [|x a IH]; cbn; [reflexivity | now f_equal]. Qed.

Lemma prefix_app_r (t s b : string) : prefix t s = true -> prefix t (s ++ b) = true.
Proof.
  revert s. induction t as [|c t IH]; intros s H; [apply prefix_empty|].
  destruct s as [|c' s]; [discriminate|]. cbn in *.
  destruct (ascii_dec c c'); [now apply IH | discriminate].
Qed.

Lemma prefix_self_app (t b : string) : prefix t (t ++ b) = true.
Proof.
  induction t as [|c t IH]; [apply prefix_empty|]. cbn.
  destruct (ascii_dec c c); [exact IH | congruence].
Qed.

Lemma includes_step (c : ascii) (s t : string) :
  includes (String c s) t = if prefix t (String c s) then true else includes s t.
Proof. reflexivity. Qed.

Lemma includes_cons (c : ascii) (s t : string) :
  includes s t = true -> includes (String c s) t = true.
Proof. intros H. rewrite includes_step, H. now destruct (prefix t (String c s)). Qed.

Lemma includes_app_l (a s t : string) : includes s t = true -> includes (a ++ s) t = true.
Proof. intros H. induction a as [|c a IH]; [exact H|]. cbn [append]. now apply includes_cons. Qed.

Lemma includes_app_r (s b t : string) : includes s t = true -> includes (s ++ b) t = true.
Proof.
  induction s as [|c s IH]; intros H.
  - destruct t; [|cbn in H; discriminate]. cbn [append]. destruct b; reflexivity.
  - cbn [append]. rewrite includes_step in H.
    destruct (prefix t (String c s)) eqn:P.
    + pose proof (prefix_app_r t (String c s) b P) as Q. cbn [append] in Q.
      now rewrite includes_step, Q.
    + apply includes_cons. now apply IH.
Qed.

Lemma includes_self (t : string) : includes t t = true.
Proof.
  destruct t as [|c t]; [reflexivity|].
  pose proof (prefix_self_app (String c t) "") as P.
  rewrite append_empty_r in P. now rewrite includes_step, P.
Qed.

(** A text contains what its parts contain. *)
Lemma includes_inside (a s b t : string) :
  includes s t = true -> includes (a ++ s ++ b) t = true.
Proof. intros H. now apply includes_app_l, includes_app_r. Qed.

(** A joined text contains what its lines contain. *)
Lemma includes_join (sep : string) (lines : list string) (line t : string) :
  In line lines -> includes line t = true -> includes (join sep lines) t = true.
Proof.
  unfold join. induction lines as [|x xs IH]; intros Hin H; [destruct Hin|].
  destruct Hin as [<-|Hin].
  - destruct xs; cbn [concat]; [exact H | now apply includes_app_r].
  - destruct xs as [|y ys]; [destruct Hin|].
    cbn [concat]. apply includes_app_l, includes_app_l. now apply IH.
Qed.
End IncludesFacts.

Section CountFacts.

Local Abbreviation add :=
  (fun (all : list Source.t) (s : Source.t) =>
     if Dedup.includes_source all s then all else (all ++ [s])%list).

Lemma add_sources (tags all : list Source.t) :
  NoDup all ->
  NoDup (fold_left add tags all) /\
  (forall s, In s (fold_left add tags all) <-> In s all \/ In s tags).
Proof.
  revert all. induction tags as [|t tags IH]; intros all N; cbn [fold_left].
  - split; [exact N | intros s; cbn; tauto].
  - destruct (Dedup.includes_source all t) eqn:E.
    + apply includes_source_In in E. destruct (IH all N) as [N' M]. split; [exact N'|].
      intros s. rewrite M. cbn. split; [tauto|]. intros [H|[<-|H]]; auto.
    + assert (Nt : ~ In t all) by (intros I; apply includes_source_In in I; congruence).
      destruct (IH (all ++ [t])%list) as [N' M].
      { apply NoDup_app; [exact N | repeat constructor; intros [] |].
        intros x Hx [<-|[]]. contradiction. }
      split; [exact N'|]. intros s. rewrite M, in_app_iff. cbn. tauto.
Qed.

Lemma add_results (results : list MergedResult.t) (all : list Source.t) :
  NoDup all ->
  NoDup (fold_left (fun all r => fold_left add (MergedResult.sources r) all) results all) /\
  (forall s,
      In s (fold_left (fun all r => fold_left add (MergedResult.sources r) all) results all)
      <-> In s all \/ exists r, In r results /\ In s (MergedResult.sources r)).
Proof.
  revert all. induction results as [|r results IH]; intros all N; cbn [fold_left].
  - split; [exact N|]. intros s. split; [tauto|]. intros [H|[r [[] _]]]. exact H.
  - destruct (add_sources (MergedResult.sources r) all N) as [N1 M1].
    destruct (IH _ N1) as [N2 M2]. split; [exact N2|].
    intros s. rewrite M2, M1. split.
    + intros [[H|H]|[r' [H1 H2]]]; [now left | right; exists r | right; exists r'];
        cbn; auto.
    + intros [H|[r' [[<-|H1] H2]]]; [tauto | tauto |]. right. now exists r'.
Qed.

End CountFacts.

(** X13.  [countSources] is the number of distinct providers that
    occur in the records: it is the length of a duplicate-free list
    holding exactly those providers, so it is at most 3, and it is 0
    only when no record names a provider. *)
Theorem countSources_counts_distinct_providers (results : list MergedResult.t) :
  (exists all : list Source.t,
      NoDup all /\
      (forall s, In s all <-> exists r, In r results /\ In s (MergedResult.sources r)) /\
      Formatters.countSources results = List.length all) /\
  (Formatters.countSources results <= 3)%nat /\
  (Formatters.countSources results = 0%nat <->
   Forall (fun r => MergedResult.sources r = []) results).
Proof.
  destruct (add_results results [] (NoDup_nil _)) as [N M].
  unfold Formatters.countSources.
  set (all := fold_left _ results []) in *.
  assert (M' : forall s, In s all <-> exists r, In r results /\ In s (MergedResult.sources r)).
  { intros s. rewrite M. cbn. tauto. }
  split; [exists all; auto|]. split; [now apply three_sources|].
  split.
  - intros Z. apply Forall_forall. intros r Hr.
    destruct (MergedResult.sources r) as [|s ss] eqn:E; [reflexivity|].
    assert (In s all) by (apply M'; exists r; rewrite E; cbn; auto).
    destruct all; [contradiction | discriminate].
  - intros F. rewrite Forall_forall in F.
    destruct all as [|s all']; [reflexivity|].
    assert (In s (s :: all')) as H by now left.
    apply M' in H. destruct H as [r [Hr Hs]]. rewrite (F r Hr) in Hs. destruct Hs.
Qed.

(** X14.  No error is dropped from the warning block: each error string
    stands in the text of [formatErrors], as a list item in the current
    revision and verbatim in the earlier one, and the current revision
    also states how many there are. *)
Theorem formatErrors_shows_every_error (errors : list string) (e : string) :
  In e errors ->
  Js.includes (Formatters.formatErrors errors) ("- " ++ e) = true /\
  Js.includes (Formatters.formatErrors errors)
              ("**WARNING: " ++ Js.show_nat (List.length errors) ++ " service(s) failed:**")
  = true /\
  Js.includes (Formatters0.formatErrors errors) e = true.
Proof.
  intros Hin. destruct errors as [|e0 errors]; [destruct Hin|].
  unfold Formatters.formatErrors, Formatters0.formatErrors. cbn [List.app]. repeat split.
  - apply includes_join with (line := "- " ++ e); [|apply includes_self].
    right. right. apply in_or_app. left. apply in_map_iff. now exists e.
  - eapply includes_join; [right; left; reflexivity|].
    rewrite <- !append_assoc. apply includes_app_r. rewrite !append_assoc.
    apply includes_self.
  - do 4 apply includes_app_l.
    apply includes_join with (line := e); [exact Hin | apply includes_self].
Qed.

Lemma formatErrors_shows_every_error_witness :
  Js.includes (Formatters.formatErrors ["[Exa] down"; "[Perplexity] Timeout after 180000ms"])
              ("- " ++ "[Perplexity] Timeout after 180000ms") = true.
Proof.
  apply (formatErrors_shows_every_error
           ["[Exa] down"; "[Perplexity] Timeout after 180000ms"]
           "[Perplexity] Timeout after 180000ms").
  right. left. reflexivity.
Defined.

Section SummaryFacts.
Import Js.

Lemma each_source_line (s : SourceRef.t) (sources : list SourceRef.t) (i : nat) :
  In s sources ->
  exists line,
    In line (Formatters.each_source i sources) /\
    includes line ("](" ++ SourceRef.url s ++ ")") = true.
Proof.
  revert i. induction sources as [|x xs IH]; intros i Hin; [destruct Hin|].
  destruct Hin as [<-|Hin].
  - eexists. split; [left; reflexivity|].
    apply includes_app_l, includes_app_l, includes_app_l, includes_self.
  - destruct (IH (S i) Hin) as [line [H1 H2]]. exists line. split; [now right | exact H2].
Qed.

Lemma each_result_line (showContent : bool) (r : MergedResult.t)
      (items : list MergedResult.t) (i : nat) :
  In r items ->
  exists line,
    In line (Formatters.each_result showContent i items) /\
    includes line ("[" ++ MergedResult.title r ++ "](" ++ MergedResult.url r ++ ")") = true.
Proof.
  revert i. induction items as [|x xs IH]; intros i Hin; [destruct Hin|].
  cbn [Formatters.each_result]. destruct Hin as [<-|Hin].
  - eexists. split; [apply in_or_app; left; left; reflexivity|].
    apply includes_app_l, includes_app_l. cbn [append].
    apply includes_cons, includes_cons, includes_self.
  - destruct (IH (S i) Hin) as [line [H1 H2]]. exists line.
    split; [apply in_or_app; now right | exact H2].
Qed.

Lemma slice_to_length {A} (l : list A) : slice_to (Z.of_nat (List.length l)) l = l.
Proof.
  unfold slice_to.
  destruct (Z.of_nat (List.length l) <? 0)%Z eqn:E; [apply Z.ltb_lt in E; lia|].
  rewrite Z.min_id, Nat2Z.id. apply firstn_all.
Qed.

Lemma slice_to_all {A} (e : Z) (l : list A) :
  (Z.of_nat (List.length l) <= e)%Z -> slice_to e l = l.
Proof.
  intros H. unfold slice_to.
  destruct (e <? 0)%Z eqn:E; [apply Z.ltb_lt in E; lia|].
  rewrite Z.min_r by lia. rewrite Nat2Z.id. apply firstn_all.
Qed.
End SummaryFacts.

(** X15.  [formatSummary] carries the summary verbatim and a link for
    every source it is given. *)
Theorem formatSummary_shows_summary_and_sources
        (summary : string) (sources : list SourceRef.t) :
  Js.includes (Formatters.formatSummary summary sources) summary = true /\
  (forall s, In s sources ->
             Js.includes (Formatters.formatSummary summary sources)
                         ("](" ++ SourceRef.url s ++ ")") = true) /\
  Js.includes (Formatters.formatSummary summary sources)
              ("## Sources (" ++ Js.show_nat (List.length sources) ++ ")") = true.
Proof.
  unfold Formatters.formatSummary. cbn [List.app]. repeat split.
  - eapply includes_join; [right; left; reflexivity | apply includes_self].
  - intros s Hin. destruct (each_source_line s sources 0 Hin) as [line [H1 H2]].
    eapply includes_join; [|exact H2]. right. right. right. exact H1.
  - eapply includes_join; [right; right; left; reflexivity|].
    apply includes_app_l, includes_app_l, includes_app_l.
    rewrite <- !append_assoc. apply includes_app_r. rewrite !append_assoc.
    apply includes_self.
Qed.

Lemma formatSummary_shows_summary_and_sources_witness :
  Js.includes
    (Formatters.formatSummary "Rust is fast."
       [SourceRef.mk "https://www.rust-lang.org/" "Rust"])
    ("](" ++ "https://www.rust-lang.org/" ++ ")") = true.
Proof.
  apply (proj1 (proj2 (formatSummary_shows_summary_and_sources "Rust is fast."
                         [SourceRef.mk "https://www.rust-lang.org/" "Rust"]))
               (SourceRef.mk "https://www.rust-lang.org/" "Rust")).
  left. reflexivity.
Defined.

(** X16.  The cap [maxResults] of [formatSearchResults] acts as a
    truncation of the list: the report of a capped call is the report
    of the truncated list without a cap, a cap at or above the number
    of results changes nothing, a cap of zero gives "No results
    found.", and every result within the cap has its link in the
    report. *)
Theorem formatSearchResults_cap_truncates
        (results : list MergedResult.t) (showContent : option bool) (cap : Z) :
  Formatters.formatSearchResults results (Some (Options.mk showContent (Some cap)))
  = Formatters.formatSearchResults (Js.slice_to cap results)
                                   (Some (Options.mk showContent None)) /\
  ((Z.of_nat (List.length results) <= cap)%Z ->
   Formatters.formatSearchResults results (Some (Options.mk showContent (Some cap)))
   = Formatters.formatSearchResults results (Some (Options.mk showContent None))) /\
  (cap = 0%Z ->
   Formatters.formatSearchResults results (Some (Options.mk showContent (Some cap)))
   = "No results found.") /\
  (forall r, In r (Js.slice_to cap results) ->
             Js.includes
               (Formatters.formatSearchResults results
                  (Some (Options.mk showContent (Some cap))))
               ("[" ++ MergedResult.title r ++ "](" ++ MergedResult.url r ++ ")") = true).
Proof.
  assert (Cut : Formatters.formatSearchResults results
                  (Some (Options.mk showContent (Some cap)))
                = Formatters.formatSearchResults (Js.slice_to cap results)
                    (Some (Options.mk showContent None))).
  { unfold Formatters.formatSearchResults. cbn [Options.maxResults Options.showContent].
    now rewrite slice_to_length. }
  split; [exact Cut|]. split; [|split].
  - intros H. rewrite Cut. now rewrite slice_to_all.
  - intros ->. unfold Formatters.formatSearchResults. cbn [Options.maxResults].
    replace (Js.slice_to 0 results) with (@nil MergedResult.t); [reflexivity|].
    unfold Js.slice_to. cbn [Z.ltb Z.compare]. now rewrite Z.min_l by lia.
  - intros r Hin. unfold Formatters.formatSearchResults. cbn [Options.maxResults].
    destruct (Js.slice_to cap results) as [|x xs] eqn:E; [destruct Hin|].
    destruct (each_result_line
                match Options.showContent (Options.mk showContent (Some cap)) with
                | Some b => b | None => false end r (x :: xs) 0 Hin) as [line [H1 H2]].
    eapply includes_join; [|exact H2]. right. exact H1.
Qed.

Lemma formatSearchResults_cap_truncates_witness :
  Formatters.formatSearchResults Samples.ranking_input (Some (Options.mk None (Some 9%Z)))
  = Formatters.formatSearchResults Samples.ranking_input (Some (Options.mk None None))
  /\ Formatters.formatSearchResults Samples.ranking_input (Some (Options.mk None (Some 0%Z)))
     = "No results found.".
Proof.
  destruct (formatSearchResults_cap_truncates Samples.ranking_input None 9) as [_ [All _]].
  destruct (formatSearchResults_cap_truncates Samples.ranking_input None 0) as [_ [_ [Zero _]]].
  split; [apply All; cbn; lia | apply Zero; reflexivity].
Defined.

(* ===================================================================== *)
(** * Further properties of tools/mass-summary.ts                         *)
(* ===================================================================== *)

Section TotalFacts.
Import Async.
Context {T R : Type}.
Variable items : list T.
Variable batchSize : Z.
Variable processor : T -> Promise R.
Hypothesis positive : (1 <= batchSize)%Z.

(** With a batch size of at least 1 the bound on the iterations is
    never what stops the loop, once it exceeds the number of items. *)
Lemma loop0_enough_fuel (fuel : nat) :
  forall (n : nat) (results : list (option R)),
    (List.length items - n < fuel)%nat ->
    Parallel0.loop items batchSize processor fuel (Z.of_nat n) results <> OutOfFuel.
Proof.
  induction fuel as [|fuel IH]; intros n results Hf; [lia|].
  cbn [Parallel0.loop].
  destruct (Z.of_nat n <? Z.of_nat (List.length items))%Z eqn:C; [|discriminate].
  apply Z.ltb_lt in C.
  destruct (forallb _ _); [|discriminate].
  replace (Z.of_nat n + batchSize)%Z with (Z.of_nat (n + Z.to_nat batchSize)) by lia.
  apply IH. lia.
Qed.
End TotalFacts.

Section BatchesFacts.
Variable trimmed : list string.

Lemma firstn_add {A} (a k : nat) (l : list A) :
  firstn (a + k) l = (firstn a l ++ firstn k (skipn a l))%list.
Proof.
  revert l. induction a as [|a IH]; intros l; [reflexivity|].
  destruct l as [|x l]; cbn; [now rewrite firstn_nil | now rewrite IH].
Qed.

Lemma contentBatches_loop_spec (fuel : nat) :
  forall (j : nat) (batches : list (list string)),
    (j <= 6)%nat -> (6 - j < fuel)%nat ->
    exists rest,
      MassSummary.contentBatches_loop trimmed fuel (Z.of_nat (10 * j)) batches
      = (batches ++ rest)%list /\
      List.concat rest = firstn (60 - 10 * j) (skipn (10 * j) trimmed) /\
      Forall (fun batch => (1 <= List.length batch <= 10)%nat) rest /\
      (List.length rest <= 6 - j)%nat.
Proof.
  induction fuel as [|fuel IH]; intros j batches Hj Hf; [lia|].
  cbn [MassSummary.contentBatches_loop].
  destruct (Z.of_nat (10 * j) <? Z.min (Z.of_nat (List.length trimmed)) 60)%Z eqn:C.
  - apply Z.ltb_lt in C. rewrite slice_forward by lia. rewrite Nat2Z.id.
    change (Z.to_nat 10) with 10%nat.
    replace (Z.of_nat (10 * j) + 10)%Z with (Z.of_nat (10 * S j)) by lia.
    destruct (IH (S j) (batches ++ [firstn 10 (skipn (10 * j) trimmed)])%list)
      as [rest [Run [Cat [Bounds Len]]]]; [lia | lia |].
    exists (firstn 10 (skipn (10 * j) trimmed) :: rest).
    split; [|split; [|split]].
    + rewrite Run, <- app_assoc. reflexivity.
    + cbn [List.concat]. rewrite Cat.
      replace (60 - 10 * j)%nat with (10 + (60 - 10 * S j))%nat by lia.
      rewrite firstn_add, skipn_skipn. do 3 f_equal. lia.
    + constructor; [|exact Bounds].
      rewrite length_firstn, length_skipn. lia.
    + cbn [List.length]. lia.
  - apply Z.ltb_ge in C. exists []. rewrite app_nil_r.
    split; [reflexivity|]. split; [|split; [constructor | cbn; lia]].
    cbn [List.concat].
    destruct (Nat.le_gt_cases (List.length trimmed) (10 * j)) as [H|H].
    + rewrite skipn_all2 by exact H. now rewrite firstn_nil.
    + replace (60 - 10 * j)%nat with 0%nat by lia. reflexivity.
Qed.
End BatchesFacts.

(** X17.  The second pass of the mass-summary tool fetches the first
    sixty trimmed URLs and no others, in at most six batches of one to
    ten URLs. *)
Theorem contentBatches_cover_first_sixty (trimmed : list string) :
  List.concat (MassSummary.contentBatches trimmed) = firstn 60 trimmed /\
  Forall (fun batch => (1 <= List.length batch <= 10)%nat)
         (MassSummary.contentBatches trimmed) /\
  (List.length (MassSummary.contentBatches trimmed) <= 6)%nat.
Proof.
  destruct (contentBatches_loop_spec trimmed 7 0 []) as [rest [Run [Cat [Bounds Len]]]];
    [lia | lia |].
  unfold MassSummary.contentBatches. change (Z.of_nat (10 * 0)) with 0%Z in Run.
  rewrite Run. cbn [app]. split; [exact Cat|]. split; [exact Bounds | lia].
Qed.

Section ToolFacts.
Import Js Async Spec.
Variable URL_new : string -> option URL.
Variable exa : ExaClient.t.
Variable firecrawl : FirecrawlClient.t.
Variable perplexity : PerplexityClient.t.
Variable params : Params.t.

Lemma exaContents_enough_fuel (batches : list (list string)) :
  MassSummary.exaContents exa batches <> OutOfFuel.
Proof.
  unfold MassSummary.exaContents, Parallel0.batchProcess.
  apply (loop0_enough_fuel batches 3 (MassSummary.fetch_batch exa) ltac:(lia)
                           (S (List.length batches)) 0%nat []).
  lia.
Qed.

Lemma returning_never_rejects {A B} (c : MassSummary.Caught A) (f : A -> B) (timeoutMs : N) :
  forall e, behaviour (MassSummary.returning c f) timeoutMs <> Rejects e.
Proof.
  intros e. unfold MassSummary.returning, behaviour.
  destruct c as [[t v]|]; [|discriminate].
  destruct (t <? timeoutMs)%N; discriminate.
Qed.

(** The errors of the first pass, for the revision without a logger. *)
Lemma collectionResults_errors (cr : MassSummary.Collection) :
  MassSummary.collectionResults exa firecrawl perplexity params = Fulfilled cr ->
  Permutation (ParallelResults.errors cr)
    (expected_errors "Exa" 120000
       (behaviour (MassSummary.exa_branch exa params) 120000)
     ++ expected_errors "Firecrawl" 120000
          (behaviour (MassSummary.firecrawl_branch firecrawl params) 120000)
     ++ expected_errors "Perplexity" 180000
          (behaviour (MassSummary.perplexity_branch perplexity params) 180000)).
Proof.
  unfold MassSummary.collectionResults, Parallel0.parallelServices.
  rewrite !or_null_safeCall. cbn [Parallel.all3].
  intros H. inversion H; subst. clear H. cbn [ParallelResults.errors].
  rewrite errors_deliver_perm. cbn [errors app Calls.exa Calls.firecrawl Calls.perplexity].
  rewrite messages_three, !on_reject_safeCall. reflexivity.
Qed.

Lemma NoDup_firstn {A} (n : nat) (l : list A) : NoDup l -> NoDup (firstn n l).
Proof.
  intros N. rewrite <- (firstn_skipn n l) in N. now apply NoDup_app_remove_r in N.
Qed.
End ToolFacts.

(** X18.  The mass-summary tool never rejects and never loops: it
    returns its report, or it waits for a promise that never settles;
    and it returns its report whenever the content requests and the
    synthesis call settle, whether they succeed or fail. *)
Theorem massSummary_always_reports
        (URL_new : string -> option URL)
        (exa : ExaClient.t) (firecrawl : FirecrawlClient.t) (perplexity : PerplexityClient.t)
        (params : Params.t) :
  (forall e, MassSummary.execute URL_new exa firecrawl perplexity params
             <> Async.Done (Async.Rejected e)) /\
  MassSummary.execute URL_new exa firecrawl perplexity params <> Async.OutOfFuel /\
  ((forall batch, ExaClient.getContents exa batch <> Async.Never) ->
   (forall prompt, PerplexityClient.deepResearch perplexity prompt <> Async.Never) ->
   exists report,
     MassSummary.execute URL_new exa firecrawl perplexity params
     = Async.Done (Async.Fulfilled report)).
Proof.
  unfold MassSummary.execute, MassSummary.gather.
  destruct (collectionResults_fulfilled exa firecrawl perplexity params) as [cr [-> _]].
  pose proof (exaContents_enough_fuel exa
                (MassSummary.contentBatches (MassSummary.trimmedUrls URL_new params cr)))
    as Fuel.
  repeat split.
  - intros e. destruct (MassSummary.exaContents _ _); try discriminate.
    destruct (PerplexityClient.deepResearch _ _); discriminate.
  - destruct (MassSummary.exaContents _ _); try discriminate; [|congruence].
    destruct (PerplexityClient.deepResearch _ _); discriminate.
  - intros Hc Hd.
    destruct (exaContents_done exa
                (MassSummary.contentBatches (MassSummary.trimmedUrls URL_new params cr)) Hc)
      as [contents ->].
    specialize (Hd (MassSummary.synthesis_prompt params
                      (MassSummary.contentSnippets cr contents))).
    destruct (PerplexityClient.deepResearch _ _); [congruence|].
    eexists. reflexivity.
Qed.

Lemma massSummary_always_reports_witness :
  exists report,
    MassSummary.execute Whatwg.URL_new Samples.exa_client Samples.firecrawl_client
                        Samples.silent Samples.rust
    = Async.Done (Async.Fulfilled report).
Proof.
  apply (proj2 (proj2 (massSummary_always_reports
                         Whatwg.URL_new Samples.exa_client Samples.firecrawl_client
                         Samples.silent Samples.rust))).
  - intros batch. discriminate.
  - intros prompt. discriminate.
Defined.

(** X19.  The URLs kept by the mass-summary tool have pairwise distinct
    keys; when [maxSources] is not negative there are at most
    [maxSources] of them; and the sources listed in the report are
    these URLs, in this order, each with a title that is empty only if
    the URL is. *)
Theorem massSummary_sources_are_trimmed_urls
        (URL_new : string -> option URL) (params : Params.t) (cr : MassSummary.Collection) :
  NoDup (List.map (Dedup.normalizeUrl URL_new) (MassSummary.trimmedUrls URL_new params cr)) /\
  ((0 <= MassSummary.maxSources params)%Z ->
   (Z.of_nat (List.length (MassSummary.trimmedUrls URL_new params cr))
    <= MassSummary.maxSources params)%Z) /\
  List.map SourceRef.url (MassSummary.sources URL_new params cr)
  = MassSummary.trimmedUrls URL_new params cr /\
  Forall (fun s => SourceRef.title s = "" -> SourceRef.url s = "")
         (MassSummary.sources URL_new params cr).
Proof.
  repeat split.
  - unfold MassSummary.trimmedUrls, Js.slice_to. rewrite <- firstn_map.
    apply NoDup_firstn. unfold MassSummary.uniqueUrls, Dedup.deduplicateUrls.
    apply dedup_filter_keys_NoDup.
  - intros H. unfold MassSummary.trimmedUrls, Js.slice_to.
    destruct (MassSummary.maxSources params <? 0)%Z eqn:E; [apply Z.ltb_lt in E; lia|].
    rewrite length_firstn. lia.
  - unfold MassSummary.sources. rewrite map_map. cbn. apply map_id.
  - unfold MassSummary.sources. apply Forall_forall. intros s Hin.
    apply in_map_iff in Hin. destruct Hin as [url [<- _]]. cbn.
    unfold MassSummary.opt_or, Js.or_else.
    destruct (MassSummary.find_title _ url) as [[|c t]|]; cbn; auto; discriminate.
Qed.

Lemma massSummary_sources_are_trimmed_urls_witness :
  (Z.of_nat (List.length
               (MassSummary.trimmedUrls Whatwg.URL_new (Params.mk "rust" None (Some 1%Z) None)
                  (ParallelResults.mk
                     (Some [ExaClient.mkResult "A" "https://a.com/" None None;
                            ExaClient.mkResult "B" "https://b.org/" None None])
                     None None [])))
   <= 1)%Z.
Proof.
  apply (proj1 (proj2 (massSummary_sources_are_trimmed_urls Whatwg.URL_new
                         (Params.mk "rust" None (Some 1%Z) None)
                         (ParallelResults.mk
                            (Some [ExaClient.mkResult "A" "https://a.com/" None None;
                                   ExaClient.mkResult "B" "https://b.org/" None None])
                            None None [])))).
  cbn. lia.
Defined.

(** X20.  In the first pass of the mass-summary tool the Exa and the
    Firecrawl searches are caught one by one, so these two providers
    can only fail by timing out: every error of the first pass is the
    timeout message of Exa or of Firecrawl, or a message of Perplexity. *)
Theorem massSummary_first_pass_errors
        (exa : ExaClient.t) (firecrawl : FirecrawlClient.t) (perplexity : PerplexityClient.t)
        (params : Params.t) (cr : MassSummary.Collection) :
  MassSummary.collectionResults exa firecrawl perplexity params = Async.Fulfilled cr ->
  Forall (fun e =>
            e = "[Exa] Timeout after 120000ms" \/
            e = "[Firecrawl] Timeout after 120000ms" \/
            prefix "[Perplexity] " e = true)
         (ParallelResults.errors cr).
Proof.
  intros H. apply collectionResults_errors in H.
  eapply Permutation_Forall; [symmetry; exact H|]. clear H.
  apply Forall_app. split; [|apply Forall_app; split].
  - pose proof (returning_never_rejects
                  (MassSummary.all_caught
                     (List.map (fun q => MassSummary.catch_default (ExaClient.search exa q) [])
                               (Js.slice_to 4 (MassSummary.queryVariations params))))
                  (fun results => flat_map (fun r => r) results) 120000) as NR.
    fold (MassSummary.exa_branch exa params) in NR.
    destruct (Spec.behaviour (MassSummary.exa_branch exa params) 120000) as [v|e|];
      cbn; [constructor | exfalso; now apply (NR e) |].
    constructor; [|constructor]. left. reflexivity.
  - unfold MassSummary.firecrawl_branch.
    match goal with
    | |- context [Spec.behaviour (MassSummary.returning ?c ?f) ?t] =>
        pose proof (returning_never_rejects c f t) as NR;
        destruct (Spec.behaviour (MassSummary.returning c f) t) as [v|e|]
    end; cbn; [constructor | exfalso; now apply (NR e) |].
    constructor; [|constructor]. right. left. reflexivity.
  - destruct (Spec.behaviour (MassSummary.perplexity_branch perplexity params) 180000)
      as [v|e|]; cbn; [constructor | |];
      (constructor; [|constructor]); right; right; cbn; rewrite ?prefix_empty; reflexivity.
Qed.

Lemma massSummary_first_pass_errors_witness :
  Forall (fun e =>
            e = "[Exa] Timeout after 120000ms" \/
            e = "[Firecrawl] Timeout after 120000ms" \/
            prefix "[Perplexity] " e = true)
         ["[Perplexity] Perplexity API failed (401)"].
Proof.
  apply (massSummary_first_pass_errors Samples.exa_client Samples.firecrawl_client
           Samples.silent Samples.rust
           (ParallelResults.mk
              (Some [ExaClient.mkResult "Rust" "https://www.rust-lang.org/"
                                        (Some "A language") None;
                     ExaClient.mkResult "Rust" "https://www.rust-lang.org/"
                                        (Some "A language") None;
                     ExaClient.mkResult "Rust" "https://www.rust-lang.org/"
                                        (Some "A language") None;
                     ExaClient.mkResult "Rust" "https://www.rust-lang.org/"
                                        (Some "A language") None])
              (Some []) None ["[Perplexity] Perplexity API failed (401)"])).
  reflexivity.
Defined.

(* ===================================================================== *)
(** * Properties of [parseResponse]                                       *)
(* ===================================================================== *)

Section ParseFacts.
Import Js PerplexityParse.

Lemma blocks_from (blocks : list PerplexityContentBlock.t) (text : string) :
  fold_left block_step blocks text = text ++ fold_left block_step blocks "".
Proof.
  revert text. induction blocks as [|b bs IH]; intros text; cbn [fold_left].
  - now rewrite append_empty_r.
  - rewrite (IH (block_step text b)), (IH (block_step "" b)).
    rewrite <- append_assoc. f_equal. unfold block_step.
    destruct (PerplexityContentBlock.text b) as [s|]; [|now rewrite append_empty_r].
    destruct (_ && _); [reflexivity | now rewrite append_empty_r].
Qed.

Lemma item_step_from (item : PerplexityOutputItem.t)
      (text : string) (citations : list PerplexityClient.Citation) :
  item_step (text, citations) item
  = (text ++ fst (item_step ("", []) item),
     (citations ++ snd (item_step ("", []) item))%list).
Proof.
  unfold item_step. cbn [fst snd]. f_equal.
  - destruct (String.eqb _ "message"); [|now rewrite append_empty_r].
    destruct (PerplexityOutputItem.content item) as [[s|blocks]|].
    + destruct (truthy s); [reflexivity | now rewrite append_empty_r].
    + apply blocks_from.
    + now rewrite append_empty_r.
  - destruct (is_citation item); [reflexivity | now rewrite app_nil_r].
Qed.

Lemma items_from (items : list PerplexityOutputItem.t)
      (text : string) (citations : list PerplexityClient.Citation) :
  fold_left item_step items (text, citations)
  = (text ++ fst (fold_left item_step items ("", [])),
     (citations ++ snd (fold_left item_step items ("", [])))%list).
Proof.
  revert text citations. induction items as [|item items IH]; intros text citations.
  - cbn. now rewrite append_empty_r, app_nil_r.
  - cbn [fold_left]. rewrite (item_step_from item text citations).
    rewrite IH. rewrite (item_step_from item "" []). cbn [append app].
    rewrite (IH (fst (item_step ("", []) item)) (snd (item_step ("", []) item))).
    cbn [fst snd]. now rewrite append_assoc, app_assoc.
Qed.

Lemma citations_filter (items : list PerplexityOutputItem.t) :
  snd (fold_left item_step items ("", []))
  = List.map to_citation (filter is_citation items).
Proof.
  induction items as [|item items IH]; [reflexivity|].
  cbn [fold_left filter]. rewrite (item_step_from item "" []), items_from.
  cbn [fst snd app]. rewrite IH. unfold item_step at 1. cbn [snd app].
  destruct (is_citation item); reflexivity.
Qed.
End ParseFacts.

(** X21.  [parseResponse] reads a response piece by piece: the text of
    an output that is two outputs one after the other is the two texts
    joined, and its citations are the two lists of citations joined.
    The citations are the items of type "search_result" or "citation",
    in the order of the output, a missing [url] read as the empty
    string; a response without [output] has no text and no citation. *)
Theorem parseResponse_reads_items_in_order (a b : list PerplexityOutputItem.t) :
  PerplexityClient.text (PerplexityParse.parseResponse (Some (a ++ b)%list))
  = PerplexityClient.text (PerplexityParse.parseResponse (Some a))
      ++ PerplexityClient.text (PerplexityParse.parseResponse (Some b)) /\
  PerplexityClient.citations (PerplexityParse.parseResponse (Some (a ++ b)%list))
  = (PerplexityClient.citations (PerplexityParse.parseResponse (Some a))
     ++ PerplexityClient.citations (PerplexityParse.parseResponse (Some b)))%list /\
  PerplexityClient.citations (PerplexityParse.parseResponse (Some a))
  = List.map PerplexityParse.to_citation (filter PerplexityParse.is_citation a) /\
  PerplexityParse.parseResponse None = PerplexityClient.mkAnswer "" [].
Proof.
  unfold PerplexityParse.parseResponse.
  cbn [PerplexityClient.text PerplexityClient.citations].
  rewrite fold_left_app.
  destruct (fold_left PerplexityParse.item_step a ("", [])) as [text citations] eqn:E.
  rewrite items_from. cbn [fst snd].
  repeat split.
  change citations with (snd (text, citations)). rewrite <- E. apply citations_filter.
Qed.

(* ===================================================================== *)
(** * Properties of the deep_search tool                                  *)
(* ===================================================================== *)

Section DeepSearchFacts.
Import Js Async Spec.

(** What [parallelServices] returns, slot by slot. *)
Lemma parallelServices_slots {E F P} (calls : Calls.t E F P) (logger : option Logger) :
  exists errors tr,
    Parallel.parallelServices calls logger
    = (Fulfilled
         (ParallelResults.mk
            (expected_slot (behaviour (Calls.exa calls) 120000))
            (expected_slot (behaviour (Calls.firecrawl calls) 120000))
            (expected_slot (behaviour (Calls.perplexity calls) 180000))
            errors), tr) /\
    Permutation errors
      (expected_errors "Exa" 120000 (behaviour (Calls.exa calls) 120000)
       ++ expected_errors "Firecrawl" 120000 (behaviour (Calls.firecrawl calls) 120000)
       ++ expected_errors "Perplexity" 180000 (behaviour (Calls.perplexity calls) 180000)).
Proof.
  unfold Parallel.parallelServices.
  rewrite !or_null_safeCall. cbn [Parallel.all3].
  eexists. eexists. split; [reflexivity|].
  rewrite errors_deliver_perm. cbn [errors app].
  rewrite messages_three, !on_reject_safeCall. reflexivity.
Qed.

Lemma mergeResults_urls (URL_new : string -> option URL) (results : list SearchResult.t) :
  List.map MergedResult.url (Dedup.mergeResults URL_new results)
  = Dedup.deduplicateUrls URL_new (List.map SearchResult.url results).
Proof.
  unfold Dedup.mergeResults, Dedup.merge_loop, Dedup.deduplicateUrls.
  rewrite (merge_loop_urls URL_new results [] []); [reflexivity|].
  intros k. cbn. tauto.
Qed.

Lemma merged_urls (URL_new : string -> option URL) (results : DeepSearch.Results) :
  Permutation
    (List.map MergedResult.url (DeepSearch.merged URL_new results))
    (Dedup.deduplicateUrls URL_new
       (List.map SearchResult.url (DeepSearch.allResults results))).
Proof.
  rewrite <- mergeResults_urls. apply Permutation_map.
  symmetry. apply sort_perm.
Qed.
End DeepSearchFacts.

(** X22.  The deep_search tool never rejects: it returns a text that
    starts with the status line, and the status line says OK for
    exactly the providers whose call resolved within its timeout (120 s
    for Exa and Firecrawl, 180 s for Perplexity). *)
Theorem deepSearch_always_reports
        (URL_new : string -> option URL)
        (exa : string -> ExaSearchOptions.t -> Async.Promise (list ExaSearchResult.t))
        (firecrawl : string -> FirecrawlSearchOptions.t
                     -> Async.Promise (option (list FirecrawlSearchResult.t)))
        (perplexity : string -> PerplexitySearchOptions.t
                      -> Async.Promise PerplexityClient.Answer)
        (defaultNumResults : Z) (logger : option Async.Logger)
        (params : DeepSearchParams.t) :
  let ok {T} (p : Async.Promise T) (timeoutMs : N) :=
    match Spec.behaviour p timeoutMs with Spec.Resolves _ => true | _ => false end in
  exists rest tr,
    DeepSearch.execute URL_new exa firecrawl perplexity defaultNumResults logger params
    = (Async.Fulfilled
         (Formatters.formatServiceStatus
            (ServiceFlags.mk
               (ok (DeepSearch.exa_branch exa defaultNumResults params) 120000%N)
               (ok (DeepSearch.firecrawl_branch firecrawl defaultNumResults params) 120000%N)
               (ok (DeepSearch.perplexity_branch perplexity params) 180000%N))
          ++ rest), tr).
Proof.
  intros ok. unfold DeepSearch.execute.
  destruct (parallelServices_slots
              (DeepSearch.calls exa firecrawl perplexity defaultNumResults params) logger)
    as [errors [tr [-> _]]].
  eexists. eexists. unfold DeepSearch.output, DeepSearch.status.
  cbn [ParallelResults.exa ParallelResults.firecrawl ParallelResults.perplexity
       DeepSearch.calls Calls.exa Calls.firecrawl Calls.perplexity].
  replace (ServiceFlags.mk _ _ _)
    with (ServiceFlags.mk
            (ok _ (DeepSearch.exa_branch exa defaultNumResults params) 120000%N)
            (ok _ (DeepSearch.firecrawl_branch firecrawl defaultNumResults params) 120000%N)
            (ok _ (DeepSearch.perplexity_branch perplexity params) 180000%N));
    [reflexivity|].
  unfold ok. f_equal.
  - now destruct (Spec.behaviour (DeepSearch.exa_branch _ _ _) _).
  - now destruct (Spec.behaviour (DeepSearch.firecrawl_branch _ _ _) _).
  - now destruct (Spec.behaviour (DeepSearch.perplexity_branch _ _) _).
Qed.

(** X23.  When no provider resolves in time, the deep_search tool still
    answers: its text is the status line with three FAILED marks, "No
    results found." and the warning block of [formatErrors] for the
    three messages of the providers, in the order in which they
    failed. *)
Theorem deepSearch_total_failure
        (URL_new : string -> option URL)
        (exa : string -> ExaSearchOptions.t -> Async.Promise (list ExaSearchResult.t))
        (firecrawl : string -> FirecrawlSearchOptions.t
                     -> Async.Promise (option (list FirecrawlSearchResult.t)))
        (perplexity : string -> PerplexitySearchOptions.t
                      -> Async.Promise PerplexityClient.Answer)
        (defaultNumResults : Z) (logger : option Async.Logger)
        (params : DeepSearchParams.t) :
  let be := Spec.behaviour (DeepSearch.exa_branch exa defaultNumResults params) 120000 in
  let bf :=
    Spec.behaviour (DeepSearch.firecrawl_branch firecrawl defaultNumResults params) 120000 in
  let bp := Spec.behaviour (DeepSearch.perplexity_branch perplexity params) 180000 in
  Spec.expected_slot be = None ->
  Spec.expected_slot bf = None ->
  Spec.expected_slot bp = None ->
  exists errors tr,
    DeepSearch.execute URL_new exa firecrawl perplexity defaultNumResults logger params
    = (Async.Fulfilled
         ("**Services:** Exa: FAILED | Firecrawl: FAILED | Perplexity: FAILED"
            ++ Formatters.nl ++ "No results found." ++ Formatters.formatErrors errors), tr) /\
    Permutation errors
      (Spec.expected_errors "Exa" 120000 be
       ++ Spec.expected_errors "Firecrawl" 120000 bf
       ++ Spec.expected_errors "Perplexity" 180000 bp) /\
    List.length errors = 3%nat.
Proof.
  intros be bf bp He Hf Hp. unfold DeepSearch.execute.
  destruct (parallelServices_slots
              (DeepSearch.calls exa firecrawl perplexity defaultNumResults params) logger)
    as [errors [tr [-> Perm]]].
  cbn [DeepSearch.calls Calls.exa Calls.firecrawl Calls.perplexity] in *.
  fold be bf bp in Perm |- *. rewrite He, Hf, Hp.
  exists errors. eexists. split; [reflexivity|]. split; [exact Perm|].
  rewrite (Permutation_length Perm), !length_app.
  destruct be, bf, bp; try discriminate; reflexivity.
Qed.

Lemma deepSearch_total_failure_witness :
  exists errors tr,
    DeepSearch.execute Whatwg.URL_new (fun _ _ => Async.Never) (fun _ _ => Async.Never)
                       (fun _ _ => Async.Never) 20 None
                       (DeepSearchParams.mk "rust" None None None None)
    = (Async.Fulfilled
         ("**Services:** Exa: FAILED | Firecrawl: FAILED | Perplexity: FAILED"
            ++ Formatters.nl ++ "No results found." ++ Formatters.formatErrors errors), tr) /\
    Permutation errors
      ["[Exa] Timeout after 120000ms"; "[Firecrawl] Timeout after 120000ms";
       "[Perplexity] Timeout after 180000ms"] /\
    List.length errors = 3%nat.
Proof.
  apply (deepSearch_total_failure Whatwg.URL_new (fun _ _ => Async.Never)
           (fun _ _ => Async.Never) (fun _ _ => Async.Never) 20 None
           (DeepSearchParams.mk "rust" None None None None)); reflexivity.
Defined.

(** X24.  With at least one result, the report of the deep_search tool
    gives in its heading the number of distinct keys among the URLs
    the providers returned, and it links, for every key, the first URL
    that has it: no merged result is left out. *)
Theorem deepSearch_lists_every_distinct_url
        (URL_new : string -> option URL) (results : DeepSearch.Results) :
  let urls :=
    Dedup.deduplicateUrls URL_new
      (List.map SearchResult.url (DeepSearch.allResults results)) in
  DeepSearch.allResults results <> [] ->
  Js.includes (DeepSearch.output URL_new results)
              ("## Search Results (" ++ Js.show_nat (List.length urls) ++ " unique from ")
  = true /\
  (forall u, In u urls ->
     exists title,
       Js.includes (DeepSearch.output URL_new results) ("[" ++ title ++ "](" ++ u ++ ")")
       = true).
Proof.
  intros urls Hne.
  pose proof (merged_urls URL_new results) as Perm. fold urls in Perm.
  assert (Len : List.length (DeepSearch.merged URL_new results) = List.length urls).
  { rewrite <- (Permutation_length Perm). now rewrite length_map. }
  unfold DeepSearch.output, Formatters.formatSearchResults.
  cbn [Options.maxResults Options.showContent].
  rewrite slice_to_length.
  destruct (DeepSearch.merged URL_new results) as [|m ms] eqn:E.
  - exfalso. destruct urls as [|u us] eqn:Eu; [|discriminate].
    subst urls. unfold Dedup.deduplicateUrls in Eu.
    destruct (DeepSearch.allResults results) as [|r rs]; [now apply Hne|].
    cbn in Eu. discriminate.
  - split.
    + apply includes_app_l, includes_app_r.
      eapply includes_join; [left; reflexivity|].
      rewrite Len.
      match goal with
      | |- Js.includes (?a ++ ?b ++ ?c ++ ?rest) _ = true =>
          replace (a ++ b ++ c ++ rest) with ((a ++ b ++ c) ++ rest)
            by (now rewrite !append_assoc)
      end.
      apply includes_app_r, includes_self.
    + intros u Hu.
      apply (Permutation_in _ (Permutation_sym Perm)) in Hu.
      apply in_map_iff in Hu. destruct Hu as [r [<- Hr]].
      exists (MergedResult.title r).
      destruct (each_result_line false r (m :: ms) 0 Hr) as [line [H1 H2]].
      apply includes_app_l, includes_app_r.
      eapply includes_join; [right; exact H1 | exact H2].
Qed.

Lemma deepSearch_lists_every_distinct_url_witness :
  Js.includes
    (DeepSearch.output Whatwg.URL_new
       (ParallelResults.mk
          (Some [SearchResult.mk "https://www.rust-lang.org/" "Rust" "A language" None None
                                 Source.exa None])
          (Some [SearchResult.mk "http://rust-lang.org" "Rust home" "" None None
                                 Source.firecrawl None])
          None ["[Perplexity] Timeout after 180000ms"]))
    "## Search Results (1 unique from "
  = true.
Proof.
  apply (deepSearch_lists_every_distinct_url Whatwg.URL_new
           (ParallelResults.mk
              (Some [SearchResult.mk "https://www.rust-lang.org/" "Rust" "A language" None None
                                     Source.exa None])
              (Some [SearchResult.mk "http://rust-lang.org" "Rust home" "" None None
                                     Source.firecrawl None])
              None ["[Perplexity] Timeout after 180000ms"])).
  discriminate.
Defined.

(** X25.  The deep_search tool never asks Exa or Firecrawl for more
    than fifty results: what it returns and logs does not depend on
    what the two clients would do with a larger number. *)
Theorem deepSearch_requests_at_most_fifty
        (URL_new : string -> option URL)
        (exa exa' : string -> ExaSearchOptions.t -> Async.Promise (list ExaSearchResult.t))
        (firecrawl firecrawl' : string -> FirecrawlSearchOptions.t
                                -> Async.Promise (option (list FirecrawlSearchResult.t)))
        (perplexity : string -> PerplexitySearchOptions.t
                      -> Async.Promise PerplexityClient.Answer)
        (defaultNumResults : Z) (logger : option Async.Logger)
        (params : DeepSearchParams.t) :
  (forall q o, (ExaSearchOptions.numResults o <= 50)%Z -> exa q o = exa' q o) ->
  (forall q o, (FirecrawlSearchOptions.limit o <= 50)%Z -> firecrawl q o = firecrawl' q o) ->
  DeepSearch.execute URL_new exa firecrawl perplexity defaultNumResults logger params
  = DeepSearch.execute URL_new exa' firecrawl' perplexity defaultNumResults logger params.
Proof.
  intros He Hf.
  unfold DeepSearch.execute, DeepSearch.calls, DeepSearch.exa_branch,
    DeepSearch.firecrawl_branch.
  rewrite He by (cbn; unfold DeepSearch.numResults; apply Z.le_min_r).
  rewrite Hf by (cbn; unfold DeepSearch.numResults; apply Z.le_min_r).
  reflexivity.
Qed.

Lemma deepSearch_requests_at_most_fifty_witness :
  DeepSearch.execute Whatwg.URL_new
    (fun _ o => if (ExaSearchOptions.numResults o <=? 50)%Z
                then Async.At 10 (Async.Fulfilled []) else Async.Never)
    (fun _ _ => Async.At 20 (Async.Fulfilled None))
    (fun _ _ => Async.Never) 20 None
    (DeepSearchParams.mk "rust" (Some 80%Z) None None None)
  = DeepSearch.execute Whatwg.URL_new
      (fun _ _ => Async.At 10 (Async.Fulfilled []))
      (fun _ _ => Async.At 20 (Async.Fulfilled None))
      (fun _ _ => Async.Never) 20 None
      (DeepSearchParams.mk "rust" (Some 80%Z) None None None).
Proof.
  apply (deepSearch_requests_at_most_fifty Whatwg.URL_new
           (fun _ o => if (ExaSearchOptions.numResults o <=? 50)%Z
                       then Async.At 10 (Async.Fulfilled []) else Async.Never)
           (fun _ _ => Async.At 10 (Async.Fulfilled []))
           (fun _ _ => Async.At 20 (Async.Fulfilled None))
           (fun _ _ => Async.At 20 (Async.Fulfilled None))
           (fun _ _ => Async.Never) 20 None
           (DeepSearchParams.mk "rust" (Some 80%Z) None None None)).
  - intros q o H. apply Z.leb_le in H. now rewrite H.
  - reflexivity.
Defined.

(* ===================================================================== *)
(** * A property of [formatComparison]                                    *)
(* ===================================================================== *)

Section ComparisonFacts.
Import Js.

Lemma each_item_line (cols : list string) (item : JsValue.object)
      (items : list JsValue.object) (i : nat) :
  In item items ->
  JsValue.truthy (JsValue.prop item "url") = true ->
  exists line,
    In line (Formatters.each_item cols i items) /\
    includes line ("[link](" ++ JsValue.String (JsValue.prop item "url") ++ ") |") = true.
Proof.
  revert i. induction items as [|x xs IH]; intros i Hin Hu; [destruct Hin|].
  cbn [Formatters.each_item]. destruct Hin as [<-|Hin].
  - eexists. split; [left; reflexivity|]. rewrite Hu.
    do 5 apply includes_app_l.
    rewrite !append_assoc. apply includes_self.
  - destruct (IH (S i) Hin Hu) as [line [H1 H2]]. exists line.
    split; [now right | exact H2].
Qed.
End ComparisonFacts.

(** X26.  In the table of [formatComparison] every item that has a
    [url] gets a link to it in the last cell of a row, whatever the
    criteria are. *)
Theorem formatComparison_links_every_item
        (items : list JsValue.object) (criteria : list string) (item : JsValue.object) :
  In item items ->
  JsValue.truthy (JsValue.prop item "url") = true ->
  Js.includes (Formatters.formatComparison items criteria)
              ("[link](" ++ JsValue.String (JsValue.prop item "url") ++ ") |") = true.
Proof.
  intros Hin Hu. unfold Formatters.formatComparison.
  destruct items as [|first rest]; [destruct Hin|].
  match goal with
  | |- context [Formatters.each_item ?cols 0 (first :: rest)] =>
      destruct (each_item_line cols item (first :: rest) 0 Hin Hu) as [line [H1 H2]]
  end.
  eapply includes_join; [|exact H2].
  apply in_or_app. right. exact H1.
Qed.

Lemma formatComparison_links_every_item_witness :
  Js.includes
    (Formatters.formatComparison
       [[("name", JsValue.text "Plan A"); ("url", JsValue.text "https://a.example/")]]
       ["name"])
    "[link](https://a.example/) |" = true.
Proof.
  apply (formatComparison_links_every_item
           [[("name", JsValue.text "Plan A"); ("url", JsValue.text "https://a.example/")]]
           ["name"]
           [("name", JsValue.text "Plan A"); ("url", JsValue.text "https://a.example/")]).
  - left. reflexivity.
  - reflexivity.
Defined.
